(** * c3vqg: the IQ question-generation model and its evaluation harness

    A shallow embedding of [src/models/iq.py] (class [IQ]) and
    [src/evaluate.py] (function [evaluate] and the script entry block),
    together with the properties of the variational encode step, the
    decoder bridge, the prediction path and the harness.

    Conventions.
    - A [torch.float32] scalar is an IEEE-754 binary32 value, modelled by
      the Standard Library's [spec_float] at precision 24 and maximal
      exponent 128.  NaN, the infinities and the signed zeros are values.
    - A tensor is a shape, the row-major list of its elements and its
      [requires_grad] flag.
    - Python exceptions are values of [exn]; a call that may raise returns
      a [result].
    - The process-wide mutable state (the availability of CUDA, the
      autograd mode, the torch generator and the generator of Python's
      [random] module) is a [world], passed explicitly. *)

From Stdlib Require Import ZArith QArith Lia Bool Ascii String.
From Stdlib Require Import Floats.SpecFloat.
From stdpp Require Import base option list strings gmap.

#[local] Open Scope Z_scope.

(** ** IEEE binary32 arithmetic *)

Module F32.

Definition prec : Z := 24.
Definition emax : Z := 128.

Definition f32 : Type := spec_float.

Definition mul : f32 -> f32 -> f32 := SFmul prec emax.
Definition add : f32 -> f32 -> f32 := SFadd prec emax.
Definition div : f32 -> f32 -> f32 := SFdiv prec emax.
Definition abs : f32 -> f32 := SFabs.
Definition sub : f32 -> f32 -> f32 := SFsub prec emax.
Definition ltb : f32 -> f32 -> bool := SFltb.
Definition leb : f32 -> f32 -> bool := SFleb.

(** The float nearest to an integer (Python int and float literals that
    are whole numbers are converted this way). *)
Definition of_Z (z : Z) : f32 := binary_normalize prec emax z 0 false.
#[global] Arguments of_Z : simpl never.

Definition zero : f32 := S754_zero false.
Definition one : f32 := Eval cbv in of_Z 1.
Definition half : f32 := Eval cbv in div (of_Z 1) (of_Z 2).
(** [1e-8] rounded to binary32. *)
Definition tiny : f32 := Eval cbv in div (of_Z 1) (of_Z 100000000).
(** The largest finite binary32 value, 3.4028235e38. *)
Definition max_float : f32 := Eval cbv in SFmax_float prec emax.

Definition is_nan (x : f32) : bool :=
  match x with S754_nan => true | _ => false end.

(** What [torch.isfinite] tests: neither NaN nor an infinity. *)
Definition is_finite (x : f32) : bool :=
  match x with S754_nan | S754_infinity _ => false | _ => true end.

Definition is_zero (x : f32) : bool :=
  match x with S754_zero _ => true | _ => false end.

(** Strictly positive, [+Inf] included: the test [x > 0]. *)
Definition is_pos (x : f32) : bool := ltb zero x.

(** [x.clamp(min=lo, max=hi)] on one element.  As in ATen's kernel a NaN
    element is returned as it is; any other element is compared with the
    two bounds. *)
Definition clamp (lo hi x : f32) : f32 :=
  if is_nan x then x
  else if ltb x lo then lo
  else if ltb hi x then hi
  else x.

(** [torch.nan_to_num(x)] with its default arguments: NaN becomes [0.0],
    [+Inf] the largest finite value of the dtype, [-Inf] the smallest. *)
Definition nan_to_num (x : f32) : f32 :=
  match x with
  | S754_nan => zero
  | S754_infinity false => max_float
  | S754_infinity true => SFopp max_float
  | _ => x
  end.

(** [x.pow(-1)]: ATen special-cases the exponent [-1] as [1.0 / x]. *)
Definition pow_neg1 (x : f32) : f32 := div one x.

(** [lo <= x <= hi], both comparisons false on NaN. *)
Definition within (lo hi x : f32) : bool := leb lo x && leb x hi.

End F32.

Import F32.

#[local] Open Scope nat_scope.

(** ** Python exceptions and the process state *)

Module Py.

Inductive exn : Type :=
| NameError (name : string)
| UnboundLocalError (name : string)
| AttributeError (cls attr : string)
| TypeError (what : string)
| ValueError (what : string)
| IndexError (what : string)
| RuntimeError (what : string)
| CudaUnavailable          (* raised by [.cuda()] when no device can be used *)
| IndentationError (lineno : nat).

Inductive result (A : Type) : Type :=
| Ok (a : A)
| Raise (e : exn).
#[global] Arguments Ok {A} a.
#[global] Arguments Raise {A} e.

Definition is_ok {A} (r : result A) : bool :=
  match r with Ok _ => true | Raise _ => false end.

(** State of a random number generator: the seed it was last given and
    the number of values drawn since. *)
Record generator : Type := Generator { gen_seed : Z; gen_offset : nat }.

Record world : Type := World {
  cuda_available : bool;     (* torch.cuda.is_available() *)
  grad_enabled : bool;       (* torch.is_grad_enabled() *)
  torch_gen : generator;     (* the default torch generator *)
  py_gen : generator         (* the generator of Python's random module *)
}.

Definition set_torch_gen (g : generator) (w : world) : world :=
  World (cuda_available w) (grad_enabled w) g (py_gen w).

Definition set_py_gen (g : generator) (w : world) : world :=
  World (cuda_available w) (grad_enabled w) (torch_gen w) g.

(** [torch.manual_seed(s)] (and [torch.cuda.manual_seed(s)]). *)
Definition manual_seed (s : Z) (w : world) : world :=
  set_torch_gen (Generator s 0) w.

(** The interpreter starts with autograd recording enabled. *)
Definition fresh_world (cuda : bool) (s : Z) : world :=
  World cuda true (Generator s 0) (Generator 0 0).

(** Computations that read and update the process state and may raise. *)
Definition M (A : Type) : Type := world -> result (A * world).

Definition ret {A} (a : A) : M A := fun w => Ok (a, w).

Definition bind {A B} (c : M A) (k : A -> M B) : M B :=
  fun w => match c w with
           | Ok (a, w') => k a w'
           | Raise e => Raise e
           end.

Definition raise {A} (e : exn) : M A := fun _ => Raise e.

Definition lift {A} (r : result A) : M A :=
  fun w => match r with Ok a => Ok (a, w) | Raise e => Raise e end.

(** The value of a computation, the final state forgotten. *)
Definition value_of {A} (r : result (A * world)) : result A :=
  match r with Ok (a, _) => Ok a | Raise e => Raise e end.

End Py.

Import Py.

Declare Scope py_scope.
Delimit Scope py_scope with py.
Notation "'let*' x := c 'in' k" := (bind c (fun x => k))
  (at level 10, x name, c at level 100, k at level 200,
   format "'[v' 'let*'  x  :=  c  'in' '/' k ']'") : py_scope.
Notation "'let*' ' pat := c 'in' k" :=
  (bind c (fun x => match x with pat => k end))
  (at level 10, pat pattern, c at level 100, k at level 200,
   format "'[v' 'let*'  ' pat  :=  c  'in' '/' k ']'") : py_scope.
#[local] Open Scope py_scope.

(** ** Frames of a computation

    Two states have the same modes when they agree on the availability of
    CUDA and on the autograd mode; a computation keeps the modes when
    every successful run ends in a state with the modes it started in. *)

Definition same_modes (w w' : world) : Prop :=
  cuda_available w' = cuda_available w /\ grad_enabled w' = grad_enabled w.

Definition keeps_modes {A} (c : M A) : Prop :=
  forall w a w', c w = Ok (a, w') -> same_modes w w'.

(** The outcome [r] with the generator of Python's [random] module
    replaced by [p] in its final state. *)
Definition with_py {A} (p : generator) (r : result (A * world)) : result (A * world) :=
  match r with
  | Ok (a, w) => Ok (a, set_py_gen p w)
  | Raise e => Raise e
  end.

(** A computation is blind to Python's [random] module when the state of
    that generator changes neither its value nor the rest of its final
    state. *)
Definition py_blind {A} (c : M A) : Prop :=
  forall w p, exists p', c (set_py_gen p w) = with_py p' (c w).

(** ** The numerical runtime

    What the repository takes from the numerical library and from the
    interpreter without defining it: the value of [exp] at a finite
    non-zero argument, the logarithm of the sum of the exponentials of a
    row, the stream of standard normal deviates a torch
    generator produces for a seed, and the stream of 53-bit integers
    behind [random.random()]. *)

Class Runtime : Type := {
  expf : bool -> positive -> Z -> f32;
  logsumexp : list f32 -> f32;
  unit_normal : Z -> nat -> f32;
  py_random_bits : Z -> nat -> N
}.

(** ** Tensors *)

Module Tensor.

Record tensor (A : Type) : Type := Tensor {
  shape : list nat;
  data : list A;
  requires_grad : bool
}.
#[global] Arguments Tensor {A} shape data requires_grad.
#[global] Arguments shape {A} t.
#[global] Arguments data {A} t.
#[global] Arguments requires_grad {A} t.

Definition numel (s : list nat) : nat := foldr Nat.mul 1 s.

(** The first [k] consecutive pieces of length [n] of a list. *)
Fixpoint chunks {A} (n k : nat) (l : list A) : list (list A) :=
  match k with
  | O => []
  | S k' => take n l :: chunks n k' (drop n l)
  end.

(** An elementwise unary operation. *)
Definition map1 {A B} (f : A -> B) (t : tensor A) : tensor B :=
  Tensor (shape t) (f <$> data t) (requires_grad t).

(** *** Broadcasting *)

Definition broadcast_dim (a b : nat) : result nat :=
  if a =? b then Ok a
  else if a =? 1 then Ok b
  else if b =? 1 then Ok a
  else Raise (RuntimeError "The size of tensor a must match the size of tensor b").

(** Shapes are aligned at their last dimension; the arguments are the
    reversed shapes. *)
Fixpoint broadcast_rev (s1 s2 : list nat) : result (list nat) :=
  match s1, s2 with
  | [], s | s, [] => Ok s
  | a :: s1', b :: s2' =>
      match broadcast_dim a b, broadcast_rev s1' s2' with
      | Ok d, Ok s => Ok (d :: s)
      | Raise e, _ | _, Raise e => Raise e
      end
  end.

Definition broadcast_shapes (s1 s2 : list nat) : result (list nat) :=
  match broadcast_rev (rev s1) (rev s2) with
  | Ok s => Ok (rev s)
  | Raise e => Raise e
  end.

(** The elements of a tensor of shape [src] laid out in the shape
    [dst] it broadcasts to ([length src <= length dst]). *)
Fixpoint expand_data {A} (src dst : list nat) (d : list A) : list A :=
  match dst with
  | [] => d
  | k :: dst' =>
      if length src <? length dst
      then mjoin (replicate k (expand_data src dst' d))
      else match src with
           | [] => d
           | n :: src' =>
               if n =? k
               then mjoin (expand_data src' dst' <$> chunks (numel src') n d)
               else mjoin (replicate k (expand_data src' dst' d))
           end
  end.

(** An elementwise binary operation with broadcasting. *)
Definition map2 {A} (f : A -> A -> A) (t1 t2 : tensor A) : result (tensor A) :=
  match broadcast_shapes (shape t1) (shape t2) with
  | Ok s =>
      Ok (Tensor s
            (zip_with f (expand_data (shape t1) s (data t1))
                        (expand_data (shape t2) s (data t2)))
            (requires_grad t1 || requires_grad t2))
  | Raise e => Raise e
  end.

(** The in-place form [t1.op_(t2)]: the result must have the shape of
    [t1]. *)
Definition map2_ {A} (f : A -> A -> A) (t1 t2 : tensor A) : result (tensor A) :=
  match map2 f t1 t2 with
  | Ok t =>
      if bool_decide (shape t = shape t1) then Ok t
      else Raise (RuntimeError "output with shape doesn't match the broadcast shape")
  | Raise e => Raise e
  end.

(** [torch.cat((t1, t2), dim=1)]: the sizes must agree in every
    dimension but the second. *)
Definition cat1 {A} (t1 t2 : tensor A) : result (tensor A) :=
  match shape t1, shape t2 with
  | b1 :: n1 :: rest1, b2 :: n2 :: rest2 =>
      if (b1 =? b2) && bool_decide (rest1 = rest2)
      then Ok (Tensor (b1 :: n1 + n2 :: rest1)
                 (mjoin (zip_with app (chunks (n1 * numel rest1) b1 (data t1))
                                      (chunks (n2 * numel rest2) b2 (data t2))))
                 (requires_grad t1 || requires_grad t2))
      else Raise (RuntimeError "Sizes of tensors must match except in dimension 1")
  | _, _ => Raise (IndexError "Dimension out of range")
  end.

(** [t.view(s)]. *)
Definition view {A} (s : list nat) (t : tensor A) : result (tensor A) :=
  if numel s =? numel (shape t)
  then Ok (Tensor s (data t) (requires_grad t))
  else Raise (RuntimeError "shape is invalid for input size").

(** [t.expand(s).contiguous()]. *)
Definition expand {A} (s : list nat) (t : tensor A) : result (tensor A) :=
  match broadcast_shapes (shape t) s with
  | Ok s' =>
      if bool_decide (s' = s)
      then Ok (Tensor s (expand_data (shape t) s (data t)) (requires_grad t))
      else Raise (RuntimeError "The expanded size of the tensor must match the existing size")
  | Raise e => Raise e
  end.

(** [t[i]]: the [i]-th slice along the first dimension. *)
Definition select0 {A} (i : nat) (t : tensor A) : result (tensor A) :=
  match shape t with
  | n :: s =>
      if i <? n
      then Ok (Tensor s (take (numel s) (drop (i * numel s) (data t)))
                 (requires_grad t))
      else Raise (IndexError "index out of range")
  | [] => Raise (IndexError "invalid index of a 0-dim tensor")
  end.

(** [t[:, j]] for a matrix. *)
Definition column {A} (j : nat) (t : tensor A) : result (tensor A) :=
  match shape t with
  | [b; n] =>
      if j <? n
      then Ok (Tensor [b]
                 (mjoin ((fun r => option_list (r !! j)) <$> chunks n b (data t)))
                 (requires_grad t))
      else Raise (IndexError "index out of range")
  | _ => Raise (IndexError "too many indices for tensor")
  end.

(** [t.transpose(0, 1)]: the first two dimensions are exchanged; an
    entry is a block of the remaining dimensions. *)
Definition transpose01 {A} (t : tensor A) : result (tensor A) :=
  match shape t with
  | l :: b :: rest =>
      let n := numel rest in
      Ok (Tensor (b :: l :: rest)
            (mjoin ((fun j =>
                       mjoin ((fun r => take n (drop (j * n) r))
                              <$> chunks (b * n) l (data t)))
                    <$> seq 0 b))
            (requires_grad t))
  | _ => Raise (IndexError "Dimension out of range")
  end.

(** [torch.stack(ts)]: a new first dimension; the list must not be
    empty and the shapes must agree. *)
Definition stack {A} (ts : list (tensor A)) : result (tensor A) :=
  match ts with
  | [] => Raise (RuntimeError "stack expects a non-empty TensorList")
  | t :: _ =>
      if forallb (fun t' => bool_decide (shape t' = shape t)) ts
      then Ok (Tensor (length ts :: shape t) (mjoin (data <$> ts))
                 (existsb requires_grad ts))
      else Raise (RuntimeError "stack expects each tensor to be equal size")
  end.

(** Position of the maximum of a row: the first NaN if there is one,
    the first greatest element otherwise. *)
Fixpoint argmax_from (best : f32) (ibest i : nat) (l : list f32) : nat :=
  match l with
  | [] => ibest
  | x :: l' =>
      if negb (is_nan best) && (is_nan x || ltb best x)
      then argmax_from x i (S i) l'
      else argmax_from best ibest (S i) l'
  end.

Definition argmax (l : list f32) : nat :=
  match l with
  | [] => 0
  | x :: l' => argmax_from x 0 1 l'
  end.

(** [t.max(1)[1]]: the second dimension is reduced to the index of its
    maximum, for every example and every position [k] of the remaining
    dimensions; for a matrix, the index of the maximum of each row. *)
Definition max1_indices (t : tensor f32) : result (tensor Z) :=
  match shape t with
  | b :: v :: rest =>
      if v =? 0
      then Raise (IndexError "max(): Expected reduction dim 1 to have non-zero size")
      else
        let n := numel rest in
        Ok (Tensor (b :: rest)
              (mjoin ((fun block =>
                         (fun k =>
                            Z.of_nat (argmax (mjoin ((fun r => option_list (r !! k))
                                                     <$> chunks n v block))))
                         <$> seq 0 n)
                      <$> chunks (v * n) b (data t)))
              false)
  | _ => Raise (IndexError "Dimension out of range")
  end.

Definition zeros_like (t : tensor f32) : tensor f32 :=
  Tensor (shape t) (replicate (length (data t)) zero) false.

Definition full {A} (s : list nat) (x : A) : tensor A :=
  Tensor s (replicate (numel s) x) false.

End Tensor.

Import Tensor.

(** ** Library operations on the process state *)

Section Torch.
Context `{Runtime}.

(** [torch.exp] on one element; IEEE fixes the special values. *)
Definition exp (x : f32) : f32 :=
  match x with
  | S754_nan => S754_nan
  | S754_infinity false => x
  | S754_infinity true => zero
  | S754_zero _ => one
  | S754_finite s m e => expf s m e
  end.

(** [F.log_softmax] over the rows of a matrix of scores. *)
Definition log_softmax (t : tensor f32) : result (tensor f32) :=
  match shape t with
  | [b; v] =>
      Ok (Tensor [b; v]
            (mjoin ((fun r => (fun x => sub x (logsumexp r)) <$> r)
                    <$> chunks v b (data t)))
            (requires_grad t))
  | _ => Raise (RuntimeError "log_softmax: expected a matrix of scores")
  end.

(** [t.cuda()]. *)
Definition cuda {A} (t : tensor A) : M (tensor A) :=
  fun w => if cuda_available w then Ok (t, w) else Raise CudaUnavailable.

(** [torch.cuda.is_available()]. *)
Definition cuda_is_available : M bool := fun w => Ok (cuda_available w, w).

(** The result of an operation on tensors under autograd: it requires a
    gradient when an operand does and recording is on
    ([torch.is_grad_enabled()]). *)
Definition recorded (r : result (tensor f32)) : M (tensor f32) :=
  fun w =>
    match r with
    | Ok t => Ok (Tensor (shape t) (data t) (grad_enabled w && requires_grad t), w)
    | Raise e => Raise e
    end.

(** [n] standard normal deviates from the torch generator. *)
Definition draw_normals (n : nat) : M (list f32) :=
  fun w =>
    let g := torch_gen w in
    Ok ((fun i => unit_normal (gen_seed g) (gen_offset g + i)) <$> seq 0 n,
        set_torch_gen (Generator (gen_seed g) (gen_offset g + n)) w).

(** [torch.randn_like(t)]. *)
Definition randn_like (t : tensor f32) : M (tensor f32) :=
  let* ns := draw_normals (length (data t)) in
  ret (Tensor (shape t) ns false).

(** [random.random()]: a 53-bit integer over [2^53]. *)
Definition py_random : M Q :=
  fun w =>
    let g := py_gen w in
    Ok (Z.of_N (py_random_bits (gen_seed g) (gen_offset g)) # (2 ^ 53),
        set_py_gen (Generator (gen_seed g) (S (gen_offset g))) w).

(** [torch.distributions.normal.Normal(loc, scale)]: the parameters are
    broadcast against each other, and the broadcast parameters are
    validated (every location a number, every scale strictly positive;
    nothing is checked where the broadcast shape has no element). *)
Record normal : Type := MkNormal { loc : tensor f32; scale : tensor f32 }.

Definition Normal (l sc : tensor f32) : result normal :=
  match broadcast_shapes (shape l) (shape sc) with
  | Ok s =>
      let l := Tensor s (expand_data (shape l) s (data l)) (requires_grad l) in
      let sc := Tensor s (expand_data (shape sc) s (data sc)) (requires_grad sc) in
      if negb (forallb (fun x => negb (is_nan x)) (data l))
      then Raise (ValueError "Expected parameter loc to satisfy the constraint Real()")
      else if negb (forallb is_pos (data sc))
      then Raise (ValueError "Expected parameter scale to satisfy the constraint GreaterThan(lower_bound=0.0)")
      else Ok (MkNormal l sc)
  | Raise e => Raise e
  end.

(** [dist.sample()]: [torch.normal(loc, scale)], a unit deviate times
    the scale plus the location, outside of autograd. *)
Definition sample (d : normal) : M (tensor f32) :=
  let* ns := draw_normals (length (data (loc d))) in
  ret (Tensor (shape (loc d))
         (zip_with add (zip_with mul ns (data (scale d))) (data (loc d)))
         false).

End Torch.

(** Sequencing of fallible computations over a list. *)
Fixpoint traverse {A B} (f : A -> result B) (l : list A) : result (list B) :=
  match l with
  | [] => Ok []
  | x :: l' =>
      match f x with
      | Ok y => match traverse f l' with
                | Ok ys => Ok (y :: ys)
                | Raise e => Raise e
                end
      | Raise e => Raise e
      end
  end.

(** ** Submodules

    The classes [EncoderCNN], [MLP] and [DecoderRNN] and the layers of
    [torch.nn] are used by [IQ] but not defined by it.  A layer is its
    forward function, which sees the [training] flag and may draw from
    the torch generator (dropout), and the fact whether it holds a
    parameter that requires a gradient. *)

Record layer (A : Type) : Type := Layer {
  forward_fn : bool -> generator -> tensor A -> result (tensor f32 * generator);
  trainable : bool
}.
Arguments Layer {A} forward_fn trainable.
Arguments forward_fn {A} l.
Arguments trainable {A} l.

(** [layer(x)]: autograd records the result when recording is enabled
    and a parameter or the input requires a gradient. *)
Definition call {A} (l : layer A) (training : bool) (x : tensor A) : M (tensor f32) :=
  fun w =>
    match forward_fn l training (torch_gen w) x with
    | Ok (y, g) =>
        Ok (Tensor (shape y) (data y)
              (grad_enabled w && (trainable l || requires_grad x)),
            set_torch_gen g w)
    | Raise e => Raise e
    end.

Inductive rnn_kind : Type := LSTM | GRU | RNN.

(** The state of the recurrent cell: one tensor, or the pair (hidden,
    cell) of an LSTM. *)
Inductive hidden : Type :=
| HSingle (h : tensor f32)
| HPair (h c : tensor f32).

(** ** The question decoder *)

Module Decoder.
Section Decoder.
Context `{Runtime}.

(** The constructor arguments of a [DecoderRNN] that [IQ] passes, and its
    recurrent step (embedding of the input tokens, dropout, the cell
    and the projection on the vocabulary): tokens [B] and a state give
    scores [B x vocab_size] and the next state. *)
Record DecoderRNN : Type := {
  vocab_size : nat;
  max_len : nat;
  dec_hidden_size : nat;
  sos_id : Z;
  eos_id : Z;
  n_layers : nat;
  rnn_cell : rnn_kind;
  cell_step : bool -> generator -> tensor Z -> hidden ->
              result (tensor f32 * hidden * generator);
  cell_trainable : bool
}.

Definition with_grad (b : bool) (t : tensor f32) : tensor f32 :=
  Tensor (shape t) (data t) b.

Definition hidden_with_grad (b : bool) (h : hidden) : hidden :=
  match h with
  | HSingle t => HSingle (with_grad b t)
  | HPair t c => HPair (with_grad b t) (with_grad b c)
  end.

Definition hidden_requires_grad (h : hidden) : bool :=
  match h with
  | HSingle t => requires_grad t
  | HPair t c => requires_grad t || requires_grad c
  end.

Definition step (dec : DecoderRNN) (training : bool)
    (input : tensor Z) (h : hidden) : M (tensor f32 * hidden) :=
  fun w =>
    match cell_step dec training (torch_gen w) input h with
    | Ok (scores, h', g) =>
        let tracked :=
          grad_enabled w && (cell_trainable dec || hidden_requires_grad h) in
        Ok ((with_grad tracked scores, hidden_with_grad tracked h'),
            set_torch_gen g w)
    | Raise e => Raise e
    end.

(** The batch size of a state of shape (layers, batch, features). *)
Definition hidden_batch (h : hidden) : result nat :=
  match h with
  | HSingle t | HPair t _ =>
      match shape t with
      | [_; b; _] => Ok b
      | _ => Raise (RuntimeError "Expected hidden size (layers, batch, features)")
      end
  end.

(** [u < ratio] on rationals. *)
Definition Qltb (u ratio : Q) : bool := negb (Qle_bool ratio u).

(** Modelled from the spec: the forward pass of [DecoderRNN], whose
    source ([models/decoder_rnn.py]) is not part of the sources at hand.
    By section 4.4, from the initial state the decoder produces one
    matrix of vocabulary scores per timestep and always runs to the
    maximum length; at each step, with probability
    [teacher_forcing_ratio], the ground-truth previous token is fed
    instead of the decoder's own previous prediction (the arg-max of the
    scores); the decode function is applied to the scores of a step
    before they are recorded.  The first input is the start symbol. *)
Fixpoint decode_steps (dec : DecoderRNN) (training : bool)
    (inputs : option (tensor Z)) (function : tensor f32 -> result (tensor f32))
    (teacher_forcing_ratio : Q) (steps t : nat)
    (prev : tensor Z) (h : hidden) : M (list (tensor f32) * hidden) :=
  match steps with
  | O => ret ([], h)
  | S steps' =>
      let* u := py_random in
      let* input :=
        match inputs with
        | Some truth =>
            if Qltb u teacher_forcing_ratio then lift (column t truth)
            else ret prev
        | None => ret prev
        end in
      let* '(scores, h') := step dec training input h in
      let* out := lift (function scores) in
      let* symbols := lift (max1_indices out) in
      let* '(outs, h_last) :=
        decode_steps dec training inputs function teacher_forcing_ratio
          steps' (S t) symbols h' in
      ret (out :: outs, h_last)
  end.

(** Modelled from the spec: the entry of that forward pass, which takes
    the batch size from the initial state and starts from a batch of
    start symbols. *)
Definition decoder_forward (dec : DecoderRNN) (training : bool)
    (inputs : option (tensor Z)) (encoder_hidden : hidden)
    (function : tensor f32 -> result (tensor f32))
    (teacher_forcing_ratio : Q) : M (list (tensor f32) * hidden) :=
  let* batch_size := lift (hidden_batch encoder_hidden) in
  decode_steps dec training inputs function teacher_forcing_ratio
    (max_len dec) 0 (full [batch_size] (sos_id dec)) encoder_hidden.

End Decoder.
End Decoder.

Import Decoder.

(** ** The model: class [IQ] of [models/iq.py] *)

Module IQ.
Section IQ.
Context `{Runtime}.

(** The submodules the constructor creates only [if self.category_space]. *)
Record category_modules : Type := {
  category_embedding : layer Z;
  category_encoder : layer f32;
  category_attention : layer f32;
  mu_category_encoder : layer f32;
  logvar_category_encoder : layer f32;
  category_reconstructor : layer f32
}.

(** An instance, as [__init__] leaves it.  [category] is present exactly
    when [category_space] holds and [image_reconstructor] exactly when
    [image_recon] holds; [training] is the flag of [nn.Module]. *)
Record IQ : Type := {
  num_categories : nat;
  hidden_size : nat;
  num_layers : nat;
  bayes : bool;
  training : bool;
  encoder_cnn : layer f32;
  category : option category_modules;
  alpha : tensor f32;
  t_decoder : layer f32;
  gen_decoder : layer f32;
  decoder : DecoderRNN;
  image_reconstructor : option (layer f32)
}.

Definition category_space (self : IQ) : bool := bool_decide (is_Some (category self)).
Definition image_recon (self : IQ) : bool := bool_decide (is_Some (image_reconstructor self)).

(** [self.name] for a submodule of the category space. *)
Definition category_attr {A} (self : IQ) (name : string)
    (field : category_modules -> A) : M A :=
  match category self with
  | Some c => ret (field c)
  | None => raise (AttributeError "IQ" name)
  end.

(** [t.data]: the same values, detached from autograd. *)
Definition detach {A} (t : tensor A) : tensor A := Tensor (shape t) (data t) false.

(** The scale of the sampling noise in [reparameterize]:
    [torch.nan_to_num(abs(self.alpha.data.pow(-1)))], on one element. *)
Definition noise_scale (a : f32) : f32 := nan_to_num (abs (pow_neg1 a)).

Definition reparameterize (self : IQ) (mu logvar : tensor f32) : M (tensor f32) :=
  let std := map1 exp (map1 (mul half) logvar) in
  let d := map1 pow_neg1 (detach (alpha self)) in
  let d := map1 nan_to_num (map1 abs d) in
  let* zeros := cuda (zeros_like mu) in
  let* dist := lift (Normal zeros d) in
  let* eps := sample dist in
  let* scaled := recorded (map2 mul eps std) in
  let* shifted := recorded (map2_ add scaled mu) in
  ret (map1 (fun x => add x tiny) shifted).

Definition reparameterize_prev (self : IQ) (mu logvar : tensor f32) : M (tensor f32) :=
  let std := map1 exp (map1 (mul half) logvar) in
  let* eps := randn_like std in
  let* scaled := recorded (map2 mul eps std) in
  recorded (map2_ add scaled mu).

Definition parse_outputs_to_tokens (outputs : list (tensor f32)) : result (tensor Z) :=
  match traverse max1_indices outputs with
  | Ok outputs =>
      match stack outputs with
      | Ok outputs => transpose01 outputs
      | Raise e => Raise e
      end
  | Raise e => Raise e
  end.

Definition encode_images (self : IQ) (images : tensor f32) : M (tensor f32) :=
  call (encoder_cnn self) (training self) images.

Definition encode_categories (self : IQ) (categories : tensor Z) : M (tensor f32) :=
  let* embedding := category_attr self "category_embedding" category_embedding in
  let* embedded_categories := call embedding (training self) categories in
  let* encoder := category_attr self "category_encoder" category_encoder in
  call encoder (training self) embedded_categories.

Definition encode_into_t (self : IQ) (image_features category_features : tensor f32)
    : M (tensor f32 * tensor f32 * tensor f32) :=
  let* together := lift (cat1 image_features category_features) in
  let* attention := category_attr self "category_attention" category_attention in
  let* attended_hiddens := call attention (training self) together in
  let* mu_encoder := category_attr self "mu_category_encoder" mu_category_encoder in
  let* mus := call mu_encoder (training self) attended_hiddens in
  let* logvar_encoder :=
    category_attr self "logvar_category_encoder" logvar_category_encoder in
  let* logvars := call logvar_encoder (training self) attended_hiddens in
  let mus := map1 (clamp (of_Z (-2)) (of_Z 2)) mus in
  let logvars := map1 (clamp (of_Z (-20)) (of_Z 20)) logvars in
  let* zs :=
    if bayes self then reparameterize self mus logvars
    else reparameterize_prev self mus logvars in
  ret (mus, logvars, zs).

(** [t.size(0)]. *)
Definition size0 {A} (t : tensor A) : result nat :=
  match shape t with
  | n :: _ => Ok n
  | [] => Raise (IndexError "Dimension specified as 0 but tensor has no dimensions")
  end.

(** Lines 280-295 of [decode_questions]: the state handed to the
    decoder. *)
Definition initial_hidden (self : IQ) (image_features : option (tensor f32))
    (ts : tensor f32) : M hidden :=
  let* batch_size := lift (size0 ts) in
  let* t_hiddens := call (t_decoder self) (training self) ts in
  let* hiddens :=
    match image_features with
    | None => ret t_hiddens
    | Some image_features =>
        let* both := lift (map2 add image_features t_hiddens) in
        call (gen_decoder self) (training self) both
    end in
  let* hiddens := lift (view [1; batch_size; 2 * hidden_size self] hiddens) in
  let* hiddens :=
    lift (expand [num_layers self; batch_size; 2 * hidden_size self] hiddens) in
  ret (match rnn_cell (decoder self) with
       | LSTM => HPair hiddens hiddens
       | _ => HSingle hiddens
       end).

Definition decode_questions (self : IQ) (image_features : option (tensor f32))
    (ts : tensor f32) (questions : option (tensor Z)) (teacher_forcing_ratio : Q)
    (decode_function : tensor f32 -> result (tensor f32))
    : M (list (tensor f32) * hidden * tensor Z) :=
  let* hiddens := initial_hidden self image_features ts in
  let* result :=
    decoder_forward (decoder self) (training self) questions hiddens
      decode_function teacher_forcing_ratio in
  let outs := fst result in
  let* preds := lift (parse_outputs_to_tokens outs) in
  ret (result, preds).

Definition encode_from_category (self : IQ) (images : tensor f32)
    (categories : tensor Z) : M (tensor f32 * tensor f32) :=
  let* image_features := encode_images self images in
  let* category_hiddens := encode_categories self categories in
  let* '(mus, logvars, ts) := encode_into_t self image_features category_hiddens in
  ret (image_features, ts).

Definition predict_from_category (self : IQ) (images : tensor f32)
    (categories : tensor Z) (questions : option (tensor Z))
    (teacher_forcing_ratio : Q)
    (decode_function : tensor f32 -> result (tensor f32)) : M (tensor Z) :=
  let* '(image_features, zs) := encode_from_category self images categories in
  let* '(outputs, tokens) :=
    decode_questions self (Some image_features) zs questions
      teacher_forcing_ratio decode_function in
  ret tokens.

(** *** Name resolution in [forward]

    A name that a function neither takes as a parameter nor assigns is
    looked up among the globals of its module and then among the
    builtins. *)

Inductive value : Type :=
| VTensor (t : tensor f32)
| VLong (t : tensor Z)
| VNumber (q : Q)
| VNone
| VObject (name : string).

(** The parameters of [forward] and the names its body assigns. *)
Definition forward_locals : list string :=
  ["self"; "images"; "answers"; "categories"; "alengths"; "questions";
   "teacher_forcing_ratio"; "decode_function";
   "image_features"; "zs"; "result"].

(** The names bound at the top level of [models/iq.py]. *)
Definition iq_globals : list string :=
  ["__name__"; "__doc__"; "__package__"; "__loader__"; "__spec__";
   "__file__"; "__cached__"; "__builtins__";
   "torch"; "nn"; "F"; "Variable"; "Normal"; "EncoderCNN"; "EncoderRNN";
   "DecoderRNN"; "MLP"; "genQLSTM"; "IQ"].

(** The builtin functions and constants of Python 3 (the builtin
    exception classes, all capitalised, are left out). *)
Definition python_builtins : list string :=
  ["abs"; "aiter"; "all"; "anext"; "any"; "ascii"; "bin"; "bool";
   "breakpoint"; "bytearray"; "bytes"; "callable"; "chr"; "classmethod";
   "compile"; "complex"; "delattr"; "dict"; "dir"; "divmod"; "enumerate";
   "eval"; "exec"; "filter"; "float"; "format"; "frozenset"; "getattr";
   "globals"; "hasattr"; "hash"; "help"; "hex"; "id"; "input"; "int";
   "isinstance"; "issubclass"; "iter"; "len"; "list"; "locals"; "map";
   "max"; "memoryview"; "min"; "next"; "object"; "oct"; "open"; "ord";
   "pow"; "print"; "property"; "range"; "repr"; "reversed"; "round";
   "set"; "setattr"; "slice"; "sorted"; "staticmethod"; "str"; "sum";
   "super"; "tuple"; "type"; "vars"; "zip"; "__import__";
   "None"; "True"; "False"; "Ellipsis"; "NotImplemented"; "__debug__";
   "copyright"; "credits"; "license"; "exit"; "quit"].

Definition load_name (locals : list string) (frame : gmap string value)
    (name : string) : result value :=
  if bool_decide (name ∈ locals) then
    match frame !! name with
    | Some v => Ok v
    | None => Raise (UnboundLocalError name)
    end
  else if bool_decide (name ∈ iq_globals) then Ok (VObject name)
  else if bool_decide (name ∈ python_builtins) then Ok (VObject name)
  else Raise (NameError name).

(** A loaded value used where the tensor operations of [reparameterize]
    need a tensor. *)
Definition as_tensor (v : value) : result (tensor f32) :=
  match v with
  | VTensor t => Ok t
  | _ => Raise (TypeError "unsupported operand type(s)")
  end.

Definition option_value {A} (inj : A -> value) (o : option A) : value :=
  match o with Some a => inj a | None => VNone end.

Definition forward (self : IQ) (images : tensor f32) (answers categories : tensor Z)
    (alengths : option (tensor Z)) (questions : option (tensor Z))
    (teacher_forcing_ratio : Q)
    (decode_function : tensor f32 -> result (tensor f32))
    : M (list (tensor f32) * hidden * tensor Z) :=
  let frame : gmap string value :=
    <["decode_function" := VObject "decode_function"]>
    (<["teacher_forcing_ratio" := VNumber teacher_forcing_ratio]>
    (<["questions" := option_value VLong questions]>
    (<["alengths" := option_value VLong alengths]>
    (<["categories" := VLong categories]>
    (<["answers" := VLong answers]>
    (<["images" := VTensor images]>
    (<["self" := VObject "self"]> ∅))))))) in
  let* image_features := encode_images self images in
  let frame := <["image_features" := VTensor image_features]> frame in
  (* Calculate the mus and logvars. *)
  let* zs :=
    if bayes self then
      let* mus := lift (load_name forward_locals frame "mus") in
      let* logvars := lift (load_name forward_locals frame "logvars") in
      let* mus := lift (as_tensor mus) in
      let* logvars := lift (as_tensor logvars) in
      reparameterize self mus logvars
    else
      let* mus := lift (load_name forward_locals frame "mus") in
      let* logvars := lift (load_name forward_locals frame "logvars") in
      let* mus := lift (as_tensor mus) in
      let* logvars := lift (as_tensor logvars) in
      reparameterize_prev self mus logvars in
  decode_questions self (Some image_features) zs questions
    teacher_forcing_ratio decode_function.

(** *** Attribute lookup on an instance *)

(** The methods the class body of [IQ] defines, in source order. *)
Definition class_methods : list string :=
  ["__init__"; "reparameterize"; "flatten_parameters";
   "generator_parameters"; "cycle_params"; "info_parameters";
   "reparameterize_prev"; "modify_hidden"; "parse_outputs_to_tokens";
   "encode_images"; "encode_categories"; "encode_questions_discriminator";
   "encode_questions"; "encode_into_t"; "decode_questions"; "forward";
   "reconstruct_inputs"; "encode_from_category"; "predict_from_category"].

(** The attributes [__init__] sets on the instance. *)
Definition instance_attributes (self : IQ) : list string :=
  ["image_recon"; "category_space"; "num_categories"; "hidden_size";
   "num_layers"; "bayes"; "encoder_cnn"; "question_encoder"; "q_to_c";
   "alpha"; "t_decoder"; "gen_decoder"; "decoder"]
  ++ (if category_space self
      then ["category_embedding"; "category_encoder"; "category_attention";
            "mu_category_encoder"; "logvar_category_encoder";
            "category_reconstructor"]
      else [])
  ++ (if image_recon self then ["image_reconstructor"] else []).

(** The public attributes inherited from [torch.nn.Module]. *)
Definition module_attributes : list string :=
  ["training"; "add_module"; "apply"; "bfloat16"; "buffers"; "children";
   "cpu"; "cuda"; "double"; "dump_patches"; "eval"; "extra_repr"; "float";
   "half"; "load_state_dict"; "modules"; "named_buffers"; "named_children";
   "named_modules"; "named_parameters"; "parameters";
   "register_backward_hook"; "register_buffer"; "register_forward_hook";
   "register_forward_pre_hook"; "register_parameter"; "requires_grad_";
   "share_memory"; "state_dict"; "to"; "train"; "type"; "zero_grad";
   "__call__"].

Definition has_attribute (self : IQ) (name : string) : bool :=
  bool_decide (name ∈ class_methods)
  || bool_decide (name ∈ instance_attributes self)
  || bool_decide (name ∈ module_attributes).

(** [self.eval()]. *)
Definition eval_mode (self : IQ) : IQ :=
  {| num_categories := num_categories self;
     hidden_size := hidden_size self;
     num_layers := num_layers self;
     bayes := bayes self;
     training := false;
     encoder_cnn := encoder_cnn self;
     category := category self;
     alpha := alpha self;
     t_decoder := t_decoder self;
     gen_decoder := gen_decoder self;
     decoder := decoder self;
     image_reconstructor := image_reconstructor self |}.

End IQ.
End IQ.

Import IQ.

(** ** The evaluation harness: [evaluate] of [evaluate.py] *)

Module Evaluate.
Section Evaluate.
Context `{Runtime}.

(** One item of the data loader; its fifth component is ignored. *)
Record batch : Type := {
  images : tensor f32;
  questions : tensor Z;
  answers : tensor Z;
  categories : tensor Z
}.

(** The command-line options [evaluate] reads. *)
Record Args : Type := { from_answer : bool; num_show : nat }.

(** The collaborators from [utils]: [process_lengths], the vocabulary's
    [tokens_to_words] and [NLGEval.compute_metrics]. *)
Record Utils : Type := {
  process_lengths : tensor Z -> result (tensor Z);
  tokens_to_words : tensor Z -> result string;
  compute_metrics : list string -> list string -> result (list (string * Q))
}.

(** [vqg.name(images, *rest)] for the two methods the harness calls. *)
Definition call_method (vqg : IQ) (name : string) (images : tensor f32)
    (rest : list (tensor Z)) : M (tensor Z) :=
  if has_attribute vqg name then
    if bool_decide (name = "predict_from_category") then
      match rest with
      | [categories] =>
          predict_from_category vqg images categories None 0 log_softmax
      | _ => raise (TypeError "predict_from_category: wrong arguments")
      end
    else raise (TypeError "not a prediction method")
  else raise (AttributeError "IQ" name).

(** The inner loop over the examples of a batch. *)
Fixpoint collect (u : Utils) (outputs questions : tensor Z) (i n : nat)
    (preds gts : list string) : result (list string * list string) :=
  match n with
  | O => Ok (preds, gts)
  | S n' =>
      match select0 i outputs with
      | Raise e => Raise e
      | Ok row =>
          match tokens_to_words u row with
          | Raise e => Raise e
          | Ok output =>
              match select0 i questions with
              | Raise e => Raise e
              | Ok qrow =>
                  match tokens_to_words u qrow with
                  | Raise e => Raise e
                  | Ok question =>
                      collect u outputs questions (S i) n'
                        (preds ++ [output]) (gts ++ [question])
                  end
              end
          end
      end
  end.

(** The body of the loop over the data loader. *)
Definition evaluate_batch (vqg : IQ) (u : Utils) (args : Args) (b : batch)
    (preds gts : list string) : M (list string * list string) :=
  (* Set mini-batch dataset *)
  let* available := cuda_is_available in
  let* '(images, answers, categories) :=
    if (available : bool) then
      let* images := cuda (images b) in
      let* answers := cuda (answers b) in
      let* categories := cuda (categories b) in
      ret (images, answers, categories)
    else ret (images b, answers b, categories b) in
  let* alengths := lift (process_lengths u answers) in
  (* Predict. *)
  let* outputs :=
    if from_answer args
    then call_method vqg "predict_from_answer" images [answers; alengths]
    else call_method vqg "predict_from_category" images [categories] in
  let* n := lift (size0 images) in
  lift (collect u outputs (questions b) 0 n preds gts).

Fixpoint evaluate_loop (vqg : IQ) (u : Utils) (args : Args)
    (data_loader : list batch) (preds gts : list string)
    : M (list string * list string) :=
  match data_loader with
  | [] => ret (preds, gts)
  | b :: rest =>
      let* '(preds, gts) := evaluate_batch vqg u args b preds gts in
      evaluate_loop vqg u args rest preds gts
  end.

(** [evaluate(vqg, data_loader, vocab, args, params)]; the model object,
    which [vqg.eval()] updates in place, is returned with the result.
    Printing and the progress bar are left out. *)
Definition evaluate (vqg : IQ) (data_loader : list batch) (u : Utils) (args : Args)
    : M (list (string * Q) * list string * list string * IQ) :=
  let vqg := eval_mode vqg in
  let* '(preds, gts) := evaluate_loop vqg u args data_loader [] [] in
  let* scores := lift (compute_metrics u gts preds) in
  ret (scores, gts, preds, vqg).

End Evaluate.
End Evaluate.

Import Evaluate.

(** ** The script entry block of [evaluate.py] *)

Module Script.

(** Lines 158 to 229 of [evaluate.py], verbatim.  The block starts at
    column 0 after the definition of [main]; no string in it spans
    lines and no line ends with a backslash. *)
Definition first_line : nat := 158.

Definition main_block : list string :=
  [
   "if __name__ == '__main__':";
   "    # print(params)";
   "    parser = argparse.ArgumentParser()";
   "";
   "    # Session parameters.";
   "    parser.add_argument('--model-path', type=str, default='weights_saved_prev/part1_2_final_100k/vqg-tf-10.pkl',";
   "                        help='Path for loading trained models')";
   "    parser.add_argument('--results-path', type=str, default='results.json',";
   "                        help='Path for saving results.')";
   "    parser.add_argument('--preds-path', type=str, default='preds.json',";
   "                        help='Path for saving predictions.')";
   "    parser.add_argument('--gts-path', type=str, default='gts.json',";
   "                        help='Path for saving ground truth.')";
   "    parser.add_argument('--batch-size', type=int, default=128)";
   "    parser.add_argument('--num-workers', type=int, default=8)";
   "    parser.add_argument('--seed', type=int, default=1234)";
   "    parser.add_argument('--max-examples', type=int, default=None,";
   "                        help='When set, only evalutes that many data points.')";
   "    parser.add_argument('--num-show', type=int, default=10,";
   "                        help='Number of predictions to print.')";
   "    parser.add_argument('--from-answer', action='store_true', default=False,";
   "                        help='When set, only evalutes iq model with answers;'";
   "                        ' otherwise it tests iq with answer types.')";
   "    parser.add_argument('--vocab-path', type=str,";
   "                        default='../iq/data/processed/vocab_iq.json',";
   "                        help='Path for vocabulary wrapper.')";
   "";
   "    # # Model parameters";
   "    parser.add_argument('--rnn-cell', type=str, default='LSTM',";
   "                        help='Type of rnn cell (GRU, RNN or LSTM).')";
   "    parser.add_argument('--hidden_size', type=int, default=512,";
   "                        help='Dimension of lstm hidden states.')";
   "    parser.add_argument('--num-layers', type=int, default=1,";
   "                        help='Number of layers in lstm.')";
   "    parser.add_argument('--max-length', type=int, default=20,";
   "                        help='Maximum sequence length for outputs.')";
   "    parser.add_argument('--encoder-max-len', type=int, default=8,";
   "                        help='Maximum sequence length for inputs.')";
   "    parser.add_argument('--bidirectional', action='store_true', default=False,";
   "                        help='Boolean whether the RNN is bidirectional.')";
   "    parser.add_argument('--use-glove', action='store_true',";
   "                        help='Whether to use GloVe embeddings.')";
   "    parser.add_argument('--embedding-name', type=str, default='6B',";
   "                        help='Name of the GloVe embedding to use.')";
   "    parser.add_argument('--num-categories', type=int, default=16,";
   "                        help='Number of answer types we use.')";
   "    parser.add_argument('--dropout-p', type=float, default=0.2,";
   "                        help='Dropout applied to the RNN model.')";
   "    parser.add_argument('--input-dropout-p', type=float, default=0.2,";
   "                        help='Dropout applied to inputs of the RNN.')";
   "    parser.add_argument('--num-att-layers', type=int, default=2,";
   "                        help='Number of attention layers.')";
   "    parser.add_argument('--z_size', type=int, default=64,";
   "                        help='Dimensions to use for hidden variational space.')";
   "    parser.add_argument('--z_img', type=int, default=512,";
   "                        help='Dimensions to use for encoded images.')";
   "    parser.add_argument('--z_category', type=int, default=8,";
   "                        help='Dimensions to use for encoded categories.')";
   "";
   "    parser.add_argument('--num_layers', type=int, default=2,";
   "                        help='Dimensions to use for hidden variational space.')";
   "";
   "   parser.add_argument('--dataset', type=str,";
   "                    default='../iq/data/processed/iq_val_dataset.hdf5',";
   "                    help='path for train annotation json file')";
   "";
   "    args = parser.parse_args()";
   "    torch.cuda.manual_seed(args.seed)";
   "    torch.manual_seed(args.seed)";
   "    main(args)";
   "    # Hack to disable errors for importing Vocabulary. Ignore this line.";
   "    Vocabulary()"
  ].

Definition quote2 : Ascii.ascii := Ascii.ascii_of_nat 34.
Definition tab : Ascii.ascii := Ascii.ascii_of_nat 9.

(** The column of the first character that is not a blank (a tab moves
    to the next multiple of 8), and the rest of the line. *)
Fixpoint indentation (col : nat) (s : string) : nat * string :=
  match s with
  | String c s' =>
      if Ascii.eqb c " "%char then indentation (S col) s'
      else if Ascii.eqb c tab then indentation ((col / 8 + 1) * 8) s'
      else (col, s)
  | EmptyString => (col, s)
  end.

(** Blank lines and lines holding only a comment produce no tokens. *)
Definition is_blank (rest : string) : bool :=
  match rest with
  | EmptyString => true
  | String c _ => Ascii.eqb c "#"%char
  end.

(** The bracket depth after a line: brackets inside string literals and
    after a [#] do not count. *)
Fixpoint scan (quote : option Ascii.ascii) (depth : nat) (s : string) : nat :=
  match s with
  | EmptyString => depth
  | String c s' =>
      match quote with
      | Some q => if Ascii.eqb c q then scan None depth s' else scan quote depth s'
      | None =>
          if Ascii.eqb c "#"%char then depth
          else if Ascii.eqb c "'"%char || Ascii.eqb c quote2 then scan (Some c) depth s'
          else if Ascii.eqb c "("%char || Ascii.eqb c "["%char || Ascii.eqb c "{"%char
          then scan None (S depth) s'
          else if Ascii.eqb c ")"%char || Ascii.eqb c "]"%char || Ascii.eqb c "}"%char
          then scan None (Nat.pred depth) s'
          else scan None depth s'
      end
  end.

Inductive token : Type :=
| INDENT (lineno : nat)
| DEDENT (lineno : nat)
| LINE (lineno : nat).

(** Leaving blocks: pop the levels deeper than [col]; the number of
    levels popped and what is left. *)
Fixpoint dedent (col : nat) (stack : list nat) : nat * list nat :=
  match stack with
  | top :: below =>
      if col <? top
      then let '(n, st) := dedent col below in (S n, st)
      else (0, stack)
  | [] => (0, [])
  end.

(** The layout pass of the tokenizer over the physical lines: [stack]
    is the stack of indentation levels, innermost first, [depth] the
    number of open brackets. *)
Fixpoint layout (lineno : nat) (stack : list nat) (depth : nat)
    (lines : list string) : result (list token) :=
  match lines with
  | [] => Ok ((fun _ => DEDENT lineno) <$> tail stack)
  | l :: rest =>
      let '(col, body) := indentation 0 l in
      if (0 <? depth) || is_blank body then
        layout (S lineno) stack (scan None depth body) rest
      else
        let top := hd 0 stack in
        if col =? top then
          match layout (S lineno) stack (scan None depth body) rest with
          | Ok ts => Ok (LINE lineno :: ts)
          | Raise e => Raise e
          end
        else if top <? col then
          match layout (S lineno) (col :: stack) (scan None depth body) rest with
          | Ok ts => Ok (INDENT lineno :: LINE lineno :: ts)
          | Raise e => Raise e
          end
        else
          let '(n, stack') := dedent col stack in
          if col =? hd 0 stack' then
            match layout (S lineno) stack' (scan None depth body) rest with
            | Ok ts => Ok (replicate n (DEDENT lineno) ++ LINE lineno :: ts)
            | Raise e => Raise e
            end
          else
            (* unindent does not match any outer indentation level *)
            Raise (IndentationError lineno)
  end.

(** [python evaluate.py argv]: the file is compiled as a whole before
    its first statement runs; [exec] stands for the execution of the
    compiled module. *)
Definition run_script {A} (exec : list token -> list string -> M A)
    (argv : list string) : M A :=
  match layout first_line [0] 0 main_block with
  | Ok ts => exec ts argv
  | Raise e => raise e
  end.

End Script.


(** ** Well-formed models

    What the constructor of [IQ] guarantees about the sizes of the
    submodules it creates, stated on their forward functions. *)

Module Shapes.
Section Shapes.
Context `{Runtime}.

(** The element list of a tensor has as many elements as its shape says. *)
Definition valid {A} (t : tensor A) : Prop := length (data t) = numel (shape t).

(** A layer that maps every tensor of shape [input b] to a valid
    tensor of shape [[b; out]]. *)
Definition layer_maps {A} (l : layer A) (input : nat -> list nat) (out : nat) : Prop :=
  forall training g x b,
    shape x = input b ->
    exists y g', forward_fn l training g x = Ok (y, g')
                 /\ shape y = [b; out] /\ valid y.

(** A layer whose results are valid tensors. *)
Definition layer_valid {A} (l : layer A) : Prop :=
  forall training g x y g', forward_fn l training g x = Ok (y, g') -> valid y.

(** Indices into a table of [n] rows. *)
Definition in_range (n : nat) (t : tensor Z) : Prop :=
  Forall (fun c => (0 <= c < Z.of_nat n)%Z) (data t).

(** A state of the kind and shape the cell of the decoder takes for a
    batch of [b] examples. *)
Definition hidden_fits (dec : DecoderRNN) (b : nat) (h : hidden) : Prop :=
  match rnn_cell dec, h with
  | LSTM, HPair t c =>
      shape t = [n_layers dec; b; dec_hidden_size dec]
      /\ shape c = [n_layers dec; b; dec_hidden_size dec]
  | LSTM, HSingle _ => False
  | _, HSingle t => shape t = [n_layers dec; b; dec_hidden_size dec]
  | _, HPair _ _ => False
  end.

(** The step of the decoder maps [b] tokens of the vocabulary and a
    fitting state to scores [[b; vocab_size]] and a fitting state. *)
Definition cell_maps (dec : DecoderRNN) : Prop :=
  forall training g input h b,
    shape input = [b] -> in_range (vocab_size dec) input -> hidden_fits dec b h ->
    exists scores h' g', cell_step dec training g input h = Ok (scores, h', g')
                         /\ shape scores = [b; vocab_size dec]
                         /\ hidden_fits dec b h'.

(** The sizes [IQ.__init__] builds the submodules with: the shape of one
    image, and its arguments [z_img], [z_category], [hidden_size / 4] (the
    width of the attended features) and [z_size]. *)
Record sizes : Type := {
  image_dims : list nat;
  z_img : nat;
  z_category : nat;
  att_size : nat;
  z_size : nat
}.

Record well_formed (self : IQ) (sz : sizes) : Prop := {
  wf_encoder_cnn :
    layer_maps (encoder_cnn self) (fun b => b :: image_dims sz) (z_img sz);
  wf_category :
    exists c, category self = Some c
      /\ (forall training g x b,
             shape x = [b] -> in_range (num_categories self) x ->
             exists y g', forward_fn (category_embedding c) training g x = Ok (y, g')
                          /\ shape y = [b; 8] /\ valid y)
      /\ layer_maps (category_encoder c) (fun b => [b; 8]) (z_category sz)
      /\ layer_maps (category_attention c)
           (fun b => [b; z_img sz + z_category sz]) (att_size sz)
      /\ layer_maps (mu_category_encoder c) (fun b => [b; att_size sz]) (z_size sz)
      /\ layer_maps (logvar_category_encoder c) (fun b => [b; att_size sz]) (z_size sz);
  wf_alpha : shape (alpha self) = [z_size sz] /\ valid (alpha self);
  wf_t_decoder : layer_maps (t_decoder self) (fun b => [b; z_size sz]) (z_img sz);
  wf_gen_decoder :
    layer_maps (gen_decoder self) (fun b => [b; z_img sz]) (2 * hidden_size self);
  wf_decoder : cell_maps (decoder self);
  wf_decoder_layers : n_layers (decoder self) = num_layers self;
  wf_decoder_hidden : dec_hidden_size (decoder self) = 2 * hidden_size self;
  wf_sos : (0 <= sos_id (decoder self) < Z.of_nat (vocab_size (decoder self)))%Z;
  wf_max_len : 1 <= max_len (decoder self)
}.
#[global] Arguments wf_encoder_cnn {self sz}.
#[global] Arguments wf_category {self sz}.
#[global] Arguments wf_alpha {self sz}.
#[global] Arguments wf_t_decoder {self sz}.
#[global] Arguments wf_gen_decoder {self sz}.
#[global] Arguments wf_decoder {self sz}.
#[global] Arguments wf_decoder_layers {self sz}.
#[global] Arguments wf_decoder_hidden {self sz}.
#[global] Arguments wf_sos {self sz}.
#[global] Arguments wf_max_len {self sz}.

(** A batch the model can take: images of the size the encoder expects
    and one category id per image. *)
Definition batch_fits (self : IQ) (sz : sizes) (b : nat)
    (images : tensor f32) (categories : tensor Z) : Prop :=
  shape images = b :: image_dims sz
  /\ shape categories = [b]
  /\ in_range (num_categories self) categories.

(** The sampling step can run: in scaled-noise mode a CUDA device is
    present and every noise scale is accepted by [Normal]. *)
Definition can_sample (self : IQ) (w : world) : Prop :=
  bayes self = true ->
  cuda_available w = true
  /\ Forall (fun a => is_pos (noise_scale a) = true) (data (alpha self)).

(** A decode function that keeps the shape of a matrix of scores. *)
Definition keeps_shape (f : tensor f32 -> result (tensor f32)) : Prop :=
  forall t b v, shape t = [b; v] -> exists t', f t = Ok t' /\ shape t' = [b; v].

End Shapes.
End Shapes.

Import Shapes.

(** ** A small concrete model

    Used to run the definitions above on explicit inputs. *)

Module Demo.

(** A runtime whose generator always yields the deviate [2.0]. *)
Definition runtime : Runtime := {|
  expf := fun _ _ _ => one;
  logsumexp := fun _ => zero;
  unit_normal := fun _ _ => of_Z 2;
  py_random_bits := fun _ _ => 0%N
|}.

(** A layer with constant output [x] in each of [out] columns. *)
Definition constant {A} (x : f32) (out : nat) : layer A :=
  Layer (fun _ g t =>
           match shape t with
           | b :: _ => Ok (Tensor [b; out] (replicate (b * out) x) false, g)
           | [] => Raise (RuntimeError "expected a batch")
           end) true.

Definition dot (bias : f32) (row weights : list f32) : f32 :=
  foldl add bias (zip_with mul row weights).

(** [nn.Linear] with the weight matrix [weights] (one row per output)
    and a bias, products accumulated from left to right. *)
Definition linear (weights : list (list f32)) (bias : list f32) : layer f32 :=
  Layer (fun _ g t =>
           match shape t with
           | [b; n] =>
               Ok (Tensor [b; length weights]
                     (mjoin ((fun row => zip_with (fun wj bj => dot bj row wj) weights bias)
                             <$> chunks n b (data t)))
                     false, g)
           | _ => Raise (RuntimeError "mat1 and mat2 shapes cannot be multiplied")
           end) true.

Definition cell (vocab : nat) : bool -> generator -> tensor Z -> hidden ->
                                result (tensor f32 * hidden * generator) :=
  fun _ g input h =>
    match shape input with
    | [b] => Ok (Tensor [b; vocab] (replicate (b * vocab) zero) false, h, g)
    | _ => Raise (RuntimeError "expected a vector of tokens")
    end.

Definition small_decoder : DecoderRNN := {|
  vocab_size := 4; max_len := 3; dec_hidden_size := 2; sos_id := 1; eos_id := 2;
  n_layers := 2; rnn_cell := LSTM; cell_step := cell 4; cell_trainable := true
|}.

Definition category_part (attention mu : layer f32) : category_modules := {|
  category_embedding := constant zero 8;
  category_encoder := constant one 1;
  category_attention := attention;
  mu_category_encoder := mu;
  logvar_category_encoder := constant zero 1;
  category_reconstructor := constant zero 1
|}.

(** A model of the sizes [small_sizes] below, with [hidden_size = 1] and
    two decoder layers. *)
Definition model (scaled : bool) (a : f32) (attention mu : layer f32) : IQ := {|
  num_categories := 16; hidden_size := 1; num_layers := 2;
  bayes := scaled; training := true;
  encoder_cnn := constant one 1;
  category := Some (category_part attention mu);
  alpha := Tensor [1] [a] true;
  t_decoder := constant zero 1;
  gen_decoder := constant one 2;
  decoder := small_decoder;
  image_reconstructor := Some (constant zero 1)
|}.

(** The standard-normal model, and the scaled-noise model whose learned
    scale is [0.0]. *)
Definition plain : IQ := model false one (constant zero 2) (constant zero 1).
Definition scaled_zero : IQ := model true zero (constant zero 2) (constant zero 1).
(** The scaled-noise model whose learned scale is [1.0]. *)
Definition scaled_one : IQ := model true one (constant zero 2) (constant zero 1).
(** A model whose attention is the identity and whose mean projection
    is the linear map [x1 - x2]. *)
Definition difference : IQ :=
  model false one (linear [[one; zero]; [zero; one]] [zero; zero])
    (linear [[one; of_Z (-1)]] [zero]).

Definition small_sizes : sizes := {|
  image_dims := [1; 1; 1]; z_img := 1; z_category := 1; att_size := 2; z_size := 1
|}.

Definition pictures : tensor f32 := Tensor [2; 1; 1; 1] [one; one] false.
Definition kinds : tensor Z := Tensor [2] [3; 5]%Z false.

Definition one_batch : batch := {|
  images := pictures;
  questions := Tensor [2; 3] [1; 7; 2; 1; 8; 2]%Z false;
  answers := Tensor [2; 2] [4; 2; 5; 2]%Z false;
  categories := kinds
|}.

Definition utils : Utils := {|
  process_lengths := fun t => Ok (Tensor [2] [2; 2]%Z false);
  tokens_to_words := fun _ => Ok "what is this"%string;
  compute_metrics := fun _ _ => Ok []
|}.

Definition from_category_args : Args := {| from_answer := false; num_show := 10 |}.
Definition from_answer_args : Args := {| from_answer := true; num_show := 10 |}.

(** A one-element batch of features for the encode step. *)
Definition feature (x : f32) : tensor f32 := Tensor [1; 1] [x] false.

End Demo.


(** ** The other methods of [IQ]

    [modify_hidden], [flatten_parameters], [info_parameters], the two
    question encoders and [reconstruct_inputs].  What they read beyond
    the attributes of the record [IQ] is passed to them: the question
    encoder and [q_to_c] of the instance, and the parameters a submodule
    holds. *)

Module Methods.
Section Methods.
Context `{Runtime}.

(** What [modify_hidden] is given as [hidden]: a tensor, or a tuple. *)
#[warnings="-register-all"]
Inductive pyval : Type :=
| PTensor (t : tensor f32)
| PTuple (items : list pyval).

(** [v[i]] for a non-negative [i]. *)
Definition getitem (v : pyval) (i : nat) : result pyval :=
  match v with
  | PTuple items =>
      match items !! i with
      | Some x => Ok x
      | None => Raise (IndexError "tuple index out of range")
      end
  | PTensor t =>
      match select0 i t with
      | Ok t' => Ok (PTensor t')
      | Raise e => Raise e
      end
  end.

Definition modify_hidden (func : pyval -> result pyval) (hidden : pyval)
    (rnn_cell : rnn_kind) : result pyval :=
  match rnn_cell with
  | LSTM =>
      match getitem hidden 0 with
      | Raise e => Raise e
      | Ok h0 =>
          match func h0 with
          | Raise e => Raise e
          | Ok a =>
              match getitem hidden 1 with
              | Raise e => Raise e
              | Ok h1 =>
                  match func h1 with
                  | Raise e => Raise e
                  | Ok b => Ok (PTuple [a; b])
                  end
              end
          end
      end
  | _ => func hidden
  end.

(** [flatten_parameters]: the attributes whose [rnn] it flattens, in
    order. *)
Definition flatten_parameters (self : IQ) : list string :=
  (if has_attribute self "decoder" then ["decoder"%string] else [])
  ++ (if has_attribute self "encoder" then ["encoder"%string] else []).

(** [self.image_reconstructor]. *)
Definition image_reconstructor_attr (self : IQ) : M (layer f32) :=
  match image_reconstructor self with
  | Some l => ret l
  | None => raise (AttributeError "IQ" "image_reconstructor")
  end.

(** [info_parameters]; [parameters l] stands for [list(l.parameters())]. *)
Definition info_parameters (parameters : layer f32 -> list (tensor f32))
    (self : IQ) : M (list (tensor f32)) :=
  let* attention := category_attr self "category_attention" category_attention in
  let* mu_encoder := category_attr self "mu_category_encoder" mu_category_encoder in
  let* logvar_encoder :=
    category_attr self "logvar_category_encoder" logvar_category_encoder in
  let params :=
    parameters attention ++ parameters mu_encoder ++ parameters logvar_encoder in
  (* Reconstruction parameters. *)
  let* params :=
    if image_recon self then
      let* reconstructor := image_reconstructor_attr self in
      ret (params ++ parameters reconstructor)
    else ret params in
  let* params :=
    if category_space self then
      let* reconstructor :=
        category_attr self "category_reconstructor" category_reconstructor in
      ret (params ++ parameters reconstructor)
    else ret params in
  ret (filter (fun p => requires_grad p = true) params).

(** The question encoder: its cell kind and its forward function, from
    the padded questions and their lengths to the outputs and the final
    state. *)
Record EncoderRNN : Type := {
  enc_rnn_cell : rnn_kind;
  enc_forward : bool -> generator -> tensor Z -> tensor Z ->
                result (tensor f32 * hidden * generator);
  enc_trainable : bool
}.

(** The attributes [question_encoder] and [q_to_c] of an instance. *)
Record question_modules : Type := {
  question_encoder : EncoderRNN;
  q_to_c : layer f32
}.

(** [self.question_encoder(questions, qlengths, None)]. *)
Definition call_encoder (enc : EncoderRNN) (training : bool)
    (questions qlengths : tensor Z) : M (tensor f32 * hidden) :=
  fun w =>
    match enc_forward enc training (torch_gen w) questions qlengths with
    | Ok (out, h, g) =>
        let tracked := grad_enabled w && enc_trainable enc in
        Ok ((with_grad tracked out, hidden_with_grad tracked h), set_torch_gen g w)
    | Raise e => Raise e
    end.

(** [t[-1, :, :]]: the last slice along the first of at least three
    dimensions. *)
Definition last_layer {A} (t : tensor A) : result (tensor A) :=
  match shape t with
  | l :: _ :: _ :: _ =>
      if l =? 0 then Raise (IndexError "index -1 is out of bounds for dimension 0 with size 0")
      else select0 (l - 1) t
  | _ => Raise (IndexError "too many indices for tensor")
  end.

(** [t.squeeze()]: the dimensions of size one are dropped. *)
Definition squeeze {A} (t : tensor A) : tensor A :=
  Tensor (filter (fun n => n <> 1) (shape t)) (data t) (requires_grad t).

(** The lines the two question encoders share: the state of an LSTM is
    its first component; then the last layer, squeezed. *)
Definition final_question_state (kind : rnn_kind) (encoder_hidden : hidden)
    : result (tensor f32) :=
  match
    match kind, encoder_hidden with
    | LSTM, HPair h _ => Ok h
    | LSTM, HSingle t => select0 0 t
    | _, HSingle t => Ok t
    | _, HPair _ _ => Raise (TypeError "tuple indices must be integers or slices, not tuple")
    end
  with
  | Ok t =>
      match last_layer t with
      | Ok t' => Ok (squeeze t')
      | Raise e => Raise e
      end
  | Raise e => Raise e
  end.

Definition encode_questions_discriminator (self : IQ) (qm : question_modules)
    (questions qlengths : tensor Z) : M (tensor f32) :=
  let* '(_, encoder_hidden) :=
    call_encoder (question_encoder qm) (training self) questions qlengths in
  lift (final_question_state (enc_rnn_cell (question_encoder qm)) encoder_hidden).

Definition encode_questions (self : IQ) (qm : question_modules)
    (questions qlengths : tensor Z) : M (tensor f32) :=
  let* '(_, encoder_hidden) :=
    call_encoder (question_encoder qm) (training self) questions qlengths in
  let* encoder_hidden :=
    lift (final_question_state (enc_rnn_cell (question_encoder qm)) encoder_hidden) in
  call (q_to_c qm) (training self) encoder_hidden.

Definition reconstruct_inputs (self : IQ) (image_features category_features : tensor f32)
    : M (option (tensor f32) * option (tensor f32)) :=
  let* '(t_mus, t_logvars, ts) :=
    encode_into_t self image_features category_features in
  let* recon_image_features :=
    if image_recon self then
      let* reconstructor := image_reconstructor_attr self in
      let* y := call reconstructor (training self) ts in
      ret (Some y)
    else ret None in
  let* recon_category_features :=
    if category_space self then
      let* reconstructor :=
        category_attr self "category_reconstructor" category_reconstructor in
      let* y := call reconstructor (training self) ts in
      ret (Some y)
    else ret None in
  ret (recon_image_features, recon_category_features).

End Methods.
End Methods.

Import Methods.

(** ** More of the concrete model *)

Module Demo2.

(** A two-layer LSTM question encoder for a batch of [b] questions with
    [h] features. *)
Definition encoder (b h : nat) : EncoderRNN := {|
  enc_rnn_cell := LSTM;
  enc_forward := fun _ g _ _ =>
    let state := Tensor [2; b; h] (replicate (2 * b * h) one) false in
    Ok (Tensor [b; 1; h] (replicate (b * h) zero) false, HPair state state, g);
  enc_trainable := true
|}.

Definition questions_part (b h : nat) : question_modules := {|
  question_encoder := encoder b h;
  q_to_c := Demo.constant zero 16
|}.

(** The standard-normal model without the category space. *)
Definition no_category_space : IQ := {|
  num_categories := 16; hidden_size := 1; num_layers := 2;
  bayes := false; training := true;
  encoder_cnn := Demo.constant one 1;
  category := None;
  alpha := Tensor [1] [one] true;
  t_decoder := Demo.constant zero 1;
  gen_decoder := Demo.constant one 2;
  decoder := Demo.small_decoder;
  image_reconstructor := Some (Demo.constant zero 1)
|}.

(** Scores of two steps for a batch of two examples over three words. *)
Definition scores : list (tensor f32) :=
  [Tensor [2; 3] [zero; one; zero; one; zero; zero] false;
   Tensor [2; 3] [zero; zero; one; zero; one; zero] false].

(** Scores of two steps with a trailing dimension of size one. *)
Definition deep_scores : list (tensor f32) :=
  [Tensor [2; 3; 1] [zero; one; zero; one; zero; zero] false;
   Tensor [2; 3; 1] [zero; zero; one; zero; one; zero] false].

End Demo2.

(** * Properties *)

(** ** Binary32 comparisons, [clamp] and the noise scale *)

Section FloatFacts.

Lemma SFcompare_antisym x y c :
  SFcompare x y = Some c -> SFcompare y x = Some (CompOpp c).
Proof.
  destruct x as [sx|sx| |sx mx ex], y as [sy|sy| |sy my ey]; simpl;
    try discriminate; intros [= <-];
    try (destruct sx; reflexivity); try (destruct sy; reflexivity);
    try (destruct sx, sy; reflexivity).
  destruct sx, sy; try reflexivity;
    rewrite (Z.compare_antisym ex ey);
    destruct (ex ?= ey)%Z; simpl; try reflexivity;
    rewrite (Pos.compare_cont_antisym mx my Eq); reflexivity.
Qed.

Lemma SFcompare_defined x y :
  is_nan x = false -> is_nan y = false -> exists c, SFcompare x y = Some c.
Proof.
  destruct x, y; simpl; try discriminate; intros _ _; eauto.
Qed.

Lemma not_ltb_leb x y :
  is_nan x = false -> is_nan y = false -> ltb x y = false -> leb y x = true.
Proof.
  intros Hx Hy Hlt. destruct (SFcompare_defined x y Hx Hy) as [c Hc].
  unfold ltb, SFltb in Hlt. unfold leb, SFleb.
  rewrite (SFcompare_antisym _ _ _ Hc). rewrite Hc in Hlt.
  destruct c; simpl; congruence.
Qed.

Lemma leb_refl x : is_nan x = false -> leb x x = true.
Proof.
  intros Hx. apply not_ltb_leb; try assumption.
  destruct (SFcompare_defined x x Hx Hx) as [c Hc].
  pose proof (SFcompare_antisym _ _ _ Hc) as Hc'.
  unfold ltb, SFltb. rewrite Hc. rewrite Hc in Hc'.
  destruct c; simpl in *; congruence.
Qed.

(** A clamped element that is not NaN lies between the bounds. *)
Lemma clamp_within lo hi x :
  is_nan lo = false -> is_nan hi = false -> leb lo hi = true ->
  is_nan x = false -> within lo hi (clamp lo hi x) = true.
Proof.
  intros Hlo Hhi Hle Hx. unfold clamp, within. rewrite Hx.
  destruct (ltb x lo) eqn:H1.
  - rewrite (leb_refl lo Hlo), Hle. reflexivity.
  - destruct (ltb hi x) eqn:H2.
    + rewrite Hle, (leb_refl hi Hhi). reflexivity.
    + rewrite (not_ltb_leb x lo), (not_ltb_leb hi x); auto.
Qed.

(** A NaN goes through [clamp] unchanged, and nothing else becomes NaN. *)
Lemma clamp_nan lo hi x :
  is_nan lo = false -> is_nan hi = false ->
  is_nan (clamp lo hi x) = is_nan x.
Proof.
  intros Hlo Hhi. unfold clamp. destruct (is_nan x) eqn:Hx; [exact Hx|].
  destruct (ltb x lo); [exact Hlo|]. destruct (ltb hi x); [exact Hhi|exact Hx].
Qed.

Lemma clamp_within_or_nan lo hi x :
  is_nan lo = false -> is_nan hi = false -> leb lo hi = true ->
  within lo hi (clamp lo hi x) = true \/ is_nan x = true.
Proof.
  intros Hlo Hhi Hle. destruct (is_nan x) eqn:Hx; [right; reflexivity|].
  left. apply clamp_within; assumption.
Qed.

Lemma within_not_nan lo hi x : within lo hi x = true -> is_nan x = false.
Proof.
  unfold within, leb, SFleb. destruct x; try reflexivity.
  destruct lo; simpl; discriminate.
Qed.

Lemma within_finite lo hi x :
  is_finite lo = true -> is_finite hi = true ->
  within lo hi x = true -> is_finite x = true.
Proof.
  unfold within, leb, SFleb.
  destruct x as [|[]| |]; try reflexivity;
    destruct lo as [|[]| |[]], hi as [|[]| |[]]; simpl; discriminate.
Qed.

(** The scale is what [reparameterize] computes in three passes. *)
Lemma noise_scale_finite a : is_finite (noise_scale a) = true.
Proof.
  unfold noise_scale. destruct (pow_neg1 a) as [|[]| |]; reflexivity.
Qed.

Lemma noise_scale_nonneg a : leb zero (noise_scale a) = true.
Proof.
  unfold noise_scale. destruct (pow_neg1 a) as [|[]| |]; reflexivity.
Qed.

Lemma noise_scale_of_zero a : is_zero a = true -> noise_scale a = max_float.
Proof. destruct a as [[]| | |]; try discriminate; reflexivity. Qed.

Lemma noise_scale_of_nan a : is_nan a = true -> noise_scale a = zero.
Proof. destruct a; try discriminate; reflexivity. Qed.

(** An infinite noise term makes the latent element infinite. *)
Lemma infinite_noise_infinite_sample s std mu :
  is_pos std = true -> is_finite mu = true ->
  add (add (mul (S754_infinity s) std) mu) tiny = S754_infinity s.
Proof.
  destruct std as [| [] | | []]; try discriminate; intros _;
    destruct mu as [| [] | |]; try discriminate; intros _;
    destruct s; reflexivity.
Qed.

End FloatFacts.

(** ** Sequencing *)

Section MonadFacts.
Context {A B : Type}.

Lemma bind_Ok (c : M A) (k : A -> M B) w a w1 :
  c w = Ok (a, w1) -> bind c k w = k a w1.
Proof. unfold bind. intros ->. reflexivity. Qed.

Lemma bind_Raise (c : M A) (k : A -> M B) w e :
  c w = Raise e -> bind c k w = Raise e.
Proof. unfold bind. intros ->. reflexivity. Qed.

Lemma bind_Ok_inv (c : M A) (k : A -> M B) w r :
  bind c k w = Ok r -> exists a w1, c w = Ok (a, w1) /\ k a w1 = Ok r.
Proof.
  unfold bind. destruct (c w) as [[a w1]|e]; [eauto|discriminate].
Qed.

Lemma lift_Ok_inv (r : result A) w a w' :
  lift r w = Ok (a, w') -> r = Ok a /\ w' = w.
Proof. unfold lift. destruct r; [intros [= -> ->]; auto|discriminate]. Qed.

Lemma lift_Ok (r : result A) w a : r = Ok a -> lift r w = Ok (a, w).
Proof. intros ->. reflexivity. Qed.

Lemma ret_Ok_inv (x : A) w a w' : ret x w = Ok (a, w') -> a = x /\ w' = w.
Proof. unfold ret. intros [= -> ->]. auto. Qed.

End MonadFacts.

(** Decompose a successful run of a sequence into the runs of its parts. *)
Ltac run_inv H :=
  repeat
    (cbv beta iota in H;
     match type of H with
     | bind _ _ _ = Ok _ =>
         let a := fresh "a" in
         let w := fresh "w" in
         let E := fresh "E" in
         apply bind_Ok_inv in H as (a & w & E & H)
     | (match ?x with (_, _) => _ end) _ = Ok _ => destruct x
     | (let '(_, _) := ?x in _) _ = Ok _ => destruct x
     end).

(** ** The modes of the process are never changed *)

Create HintDb modes.

Section Modes.
Context `{Runtime}.

Lemma same_modes_refl w : same_modes w w.
Proof. split; reflexivity. Qed.

Lemma same_modes_trans w1 w2 w3 :
  same_modes w1 w2 -> same_modes w2 w3 -> same_modes w1 w3.
Proof. intros [? ?] [? ?]. split; congruence. Qed.

Lemma keeps_modes_ret {A} (a : A) : keeps_modes (ret a).
Proof. intros w a' w' [= _ <-]. apply same_modes_refl. Qed.

Lemma keeps_modes_raise {A} e : keeps_modes (@raise A e).
Proof. intros w a w' [=]. Qed.

Lemma keeps_modes_lift {A} (r : result A) : keeps_modes (lift r).
Proof.
  intros w a w' Hr. apply lift_Ok_inv in Hr as [_ ->]. apply same_modes_refl.
Qed.

Lemma recorded_Ok r t w :
  r = Ok t ->
  recorded r w = Ok (Tensor (shape t) (data t) (grad_enabled w && requires_grad t), w).
Proof. intros ->. reflexivity. Qed.

Lemma recorded_Ok_inv r w a w' :
  recorded r w = Ok (a, w') ->
  exists t, r = Ok t /\ w' = w
            /\ a = Tensor (shape t) (data t) (grad_enabled w && requires_grad t).
Proof.
  unfold recorded. destruct r as [t|]; [|discriminate].
  intros [= <- <-]. eauto.
Qed.

Lemma keeps_modes_recorded r : keeps_modes (recorded r).
Proof.
  intros w a w' Hr. apply recorded_Ok_inv in Hr as (t & _ & -> & _).
  apply same_modes_refl.
Qed.

Lemma keeps_modes_bind {A B} (c : M A) (k : A -> M B) :
  keeps_modes c -> (forall a, keeps_modes (k a)) -> keeps_modes (bind c k).
Proof.
  intros Hc Hk w b w' Hr. apply bind_Ok_inv in Hr as (a & w1 & H1 & H2).
  eapply same_modes_trans; [eapply Hc|eapply Hk]; eassumption.
Qed.

Lemma keeps_modes_call {A} (l : layer A) training x :
  keeps_modes (call l training x).
Proof.
  intros w a w'. unfold call.
  destruct (forward_fn l training (torch_gen w) x) as [[y g]|]; [|discriminate].
  intros [= _ <-]. split; reflexivity.
Qed.

Lemma keeps_modes_cuda {A} (t : tensor A) : keeps_modes (cuda t).
Proof.
  intros w a w'. unfold cuda. destruct (cuda_available w); [|discriminate].
  intros [= _ <-]. split; reflexivity.
Qed.

Lemma keeps_modes_draw_normals n : keeps_modes (draw_normals n).
Proof. intros w a w' [= _ <-]. split; reflexivity. Qed.

Lemma keeps_modes_py_random : keeps_modes py_random.
Proof. intros w a w' [= _ <-]. split; reflexivity. Qed.

Lemma keeps_modes_step dec training input h :
  keeps_modes (step dec training input h).
Proof.
  intros w a w'. unfold step.
  destruct (cell_step dec training (torch_gen w) input h) as [[[sc h'] g]|];
    [|discriminate].
  intros [= _ <-]. split; reflexivity.
Qed.

Lemma keeps_modes_category_attr {A} self name (field : category_modules -> A) :
  keeps_modes (category_attr self name field).
Proof.
  unfold category_attr. destruct (category self);
    [apply keeps_modes_ret|apply keeps_modes_raise].
Qed.

End Modes.

#[export] Hint Resolve keeps_modes_ret keeps_modes_raise keeps_modes_lift
  keeps_modes_recorded keeps_modes_call keeps_modes_cuda keeps_modes_draw_normals
  keeps_modes_py_random keeps_modes_step keeps_modes_category_attr : modes.

(** Prove [keeps_modes] of a sequence from its parts. *)
Ltac modes :=
  repeat first
    [ solve [auto with modes]
    | apply keeps_modes_bind; [|intro]
    | match goal with
      | |- keeps_modes (match ?x with (_, _) => _ end) => destruct x
      | |- keeps_modes (let '(_, _) := ?x in _) => destruct x
      | |- keeps_modes (if ?b then _ else _) => destruct b
      | |- keeps_modes (match ?x with Some _ => _ | None => _ end) => destruct x
      end ].

Section ModesOfTheModel.
Context `{Runtime}.

Lemma keeps_modes_randn_like t : keeps_modes (randn_like t).
Proof. unfold randn_like. modes. Qed.

Lemma keeps_modes_sample d : keeps_modes (sample d).
Proof. unfold sample. modes. Qed.

Hint Resolve keeps_modes_randn_like keeps_modes_sample : modes.

Lemma keeps_modes_reparameterize self mu logvar :
  keeps_modes (reparameterize self mu logvar).
Proof. unfold reparameterize. modes. Qed.

Lemma keeps_modes_reparameterize_prev self mu logvar :
  keeps_modes (reparameterize_prev self mu logvar).
Proof. unfold reparameterize_prev. modes. Qed.

Hint Resolve keeps_modes_reparameterize keeps_modes_reparameterize_prev : modes.

Lemma keeps_modes_encode_images self images : keeps_modes (encode_images self images).
Proof. unfold encode_images. modes. Qed.

Lemma keeps_modes_encode_categories self categories :
  keeps_modes (encode_categories self categories).
Proof. unfold encode_categories. modes. Qed.

Lemma keeps_modes_encode_into_t self f c : keeps_modes (encode_into_t self f c).
Proof. unfold encode_into_t. modes. Qed.

Hint Resolve keeps_modes_encode_images keeps_modes_encode_categories
  keeps_modes_encode_into_t : modes.

Lemma keeps_modes_encode_from_category self images categories :
  keeps_modes (encode_from_category self images categories).
Proof. unfold encode_from_category. modes. Qed.

Lemma keeps_modes_initial_hidden self f ts : keeps_modes (initial_hidden self f ts).
Proof. unfold initial_hidden. modes. Qed.

Lemma keeps_modes_decode_steps dec training inputs function ratio steps :
  forall t prev h,
    keeps_modes (decode_steps dec training inputs function ratio steps t prev h).
Proof.
  induction steps as [|steps IH]; intros t prev h; simpl; modes.
Qed.

Hint Resolve keeps_modes_decode_steps : modes.

Lemma keeps_modes_decoder_forward dec training inputs h function ratio :
  keeps_modes (decoder_forward dec training inputs h function ratio).
Proof. unfold decoder_forward. modes. Qed.

Hint Resolve keeps_modes_encode_from_category keeps_modes_initial_hidden
  keeps_modes_decoder_forward : modes.

Lemma keeps_modes_decode_questions self f ts q ratio function :
  keeps_modes (decode_questions self f ts q ratio function).
Proof. unfold decode_questions. modes. Qed.

Hint Resolve keeps_modes_decode_questions : modes.

Lemma keeps_modes_predict_from_category self images categories q ratio function :
  keeps_modes (predict_from_category self images categories q ratio function).
Proof. unfold predict_from_category. modes. Qed.

End ModesOfTheModel.

#[export] Hint Resolve keeps_modes_randn_like keeps_modes_sample
  keeps_modes_reparameterize keeps_modes_reparameterize_prev
  keeps_modes_encode_images keeps_modes_encode_categories
  keeps_modes_encode_into_t keeps_modes_encode_from_category
  keeps_modes_initial_hidden keeps_modes_decode_steps
  keeps_modes_decoder_forward keeps_modes_decode_questions
  keeps_modes_predict_from_category : modes.

(** From the successful runs in the context, the equalities of modes
    between their initial and final states. *)
Ltac track_modes :=
  repeat match goal with
    | E : ?c ?w = Ok (_, ?w') |- _ =>
        lazymatch goal with
        | _ : same_modes w w' |- _ => fail
        | _ =>
            let K := fresh "K" in
            assert (K : keeps_modes c) by modes;
            pose proof (K _ _ _ E); clear K
        end
    end.

(** ** The variational encode step *)

Section EncodeIntoT.
Context `{Runtime}.

Lemma category_attr_Ok_inv {A} self name (field : category_modules -> A) w a w' :
  category_attr self name field w = Ok (a, w') ->
  exists cm, category self = Some cm /\ a = field cm /\ w' = w.
Proof.
  unfold category_attr. destruct (category self) as [cm|]; [|discriminate].
  intros [= <- <-]. eauto.
Qed.

(** An element and its clamp: the clamp of a NaN is NaN, the clamp of
    anything else lies between the bounds. *)
Lemma clamp_pointwise lo hi (raw : list f32) :
  is_nan lo = false -> is_nan hi = false -> leb lo hi = true ->
  Forall2 (fun r x => if is_nan r then is_nan x = true else within lo hi x = true)
    raw (clamp lo hi <$> raw).
Proof.
  intros Hlo Hhi Hle. apply Forall2_fmap_r, Forall_Forall2_diag, Forall_forall.
  intros r _. cbv beta. destruct (is_nan r) eqn:Hr; unfold compose.
  - rewrite clamp_nan; assumption.
  - apply clamp_within; assumption.
Qed.

(** C4 (as amended).  The [mus] returned by [encode_into_t] are the
    clamp of what the mu projection [mu_category_encoder] produced for
    the attended features, element by element: each lies in [-2, 2]
    whatever the magnitude of the projection, unless the projection is
    NaN there, in which case it is NaN; likewise the [logvars], the
    logvar projection and [-20, 20].  The sampling step is run on these
    clamped tensors. *)
Theorem encode_into_t_clamps self image_features category_features w
    mus logvars zs w' :
  encode_into_t self image_features category_features w
    = Ok ((mus, logvars, zs), w') ->
  exists cm together attended w1 raw_mus w2 raw_logvars w3,
    category self = Some cm
    /\ cat1 image_features category_features = Ok together
    /\ call (category_attention cm) (training self) together w = Ok (attended, w1)
    /\ call (mu_category_encoder cm) (training self) attended w1 = Ok (raw_mus, w2)
    /\ call (logvar_category_encoder cm) (training self) attended w2
       = Ok (raw_logvars, w3)
    /\ mus = map1 (clamp (of_Z (-2)) (of_Z 2)) raw_mus
    /\ logvars = map1 (clamp (of_Z (-20)) (of_Z 20)) raw_logvars
    /\ Forall2 (fun r x => if is_nan r then is_nan x = true
                           else within (of_Z (-2)) (of_Z 2) x = true)
         (data raw_mus) (data mus)
    /\ Forall2 (fun r x => if is_nan r then is_nan x = true
                           else within (of_Z (-20)) (of_Z 20) x = true)
         (data raw_logvars) (data logvars)
    /\ (if bayes self then reparameterize self mus logvars w3
        else reparameterize_prev self mus logvars w3) = Ok (zs, w').
Proof.
  intros Hrun. unfold encode_into_t in Hrun. run_inv Hrun.
  apply ret_Ok_inv in Hrun as [[= -> -> ->] ->].
  match goal with
  | E : lift (cat1 _ _) _ = Ok _ |- _ => apply lift_Ok_inv in E as [Hcat ->]
  end.
  repeat match goal with
         | E : category_attr _ _ _ _ = Ok _ |- _ =>
             let cm := fresh "cm" in
             let Hcm := fresh "Hcm" in
             apply category_attr_Ok_inv in E as (cm & Hcm & -> & ->)
         end.
  repeat match goal with
         | E1 : category self = Some ?c1, E2 : category self = Some ?c2 |- _ =>
             rewrite E1 in E2; injection E2 as <-
         end.
  do 8 eexists. split; [eassumption|]. split; [exact Hcat|].
  split; [eassumption|]. split; [eassumption|]. split; [eassumption|].
  split; [reflexivity|]. split; [reflexivity|].
  split; [apply clamp_pointwise; reflexivity|].
  split; [apply clamp_pointwise; reflexivity|].
  destruct (bayes self); eassumption.
Qed.

(** Without a CUDA device [reparameterize] stops at [.cuda()]. *)
Lemma reparameterize_no_cuda self mu logvar w :
  cuda_available w = false ->
  reparameterize self mu logvar w = Raise CudaUnavailable.
Proof.
  intros Hw. unfold reparameterize. apply bind_Raise. unfold cuda.
  rewrite Hw. reflexivity.
Qed.

Lemma encode_into_t_no_cuda self f c w :
  bayes self = true -> cuda_available w = false ->
  exists e, encode_into_t self f c w = Raise e.
Proof.
  intros Hb Hw.
  destruct (encode_into_t self f c w) as [[[[mus logvars] zs] w']|e] eqn:Hrun;
    [exfalso|eauto].
  unfold encode_into_t in Hrun. run_inv Hrun. track_modes.
  match goal with
  | E : (if bayes self then _ else _) _ = Ok _ |- _ =>
      rewrite Hb, reparameterize_no_cuda in E; [discriminate|]
  end.
  repeat match goal with S : same_modes _ _ |- _ => destruct S as [? _] end.
  congruence.
Qed.

Lemma encode_from_category_no_cuda self images categories w :
  bayes self = true -> cuda_available w = false ->
  exists e, encode_from_category self images categories w = Raise e.
Proof.
  intros Hb Hw.
  destruct (encode_from_category self images categories w)
    as [[[feats ts] w']|e] eqn:Hrun; [exfalso|eauto].
  unfold encode_from_category in Hrun. run_inv Hrun.
  track_modes.
  match goal with
  | E : encode_into_t self ?f ?c ?w1 = Ok _ |- _ =>
      destruct (encode_into_t_no_cuda self f c w1 Hb) as [e He]; [|congruence]
  end.
  repeat match goal with S : same_modes _ _ |- _ => destruct S as [? _] end.
  congruence.
Qed.

Lemma predict_from_category_no_cuda self images categories q ratio fn w :
  bayes self = true -> cuda_available w = false ->
  exists e, predict_from_category self images categories q ratio fn w = Raise e.
Proof.
  intros Hb Hw.
  destruct (encode_from_category_no_cuda self images categories w Hb Hw) as [e He].
  exists e. unfold predict_from_category. apply bind_Raise. exact He.
Qed.

End EncodeIntoT.

(** ** Shapes of the tensor operations *)

Section TensorFacts.
Context {A : Type}.

Lemma broadcast_rev_refl (s : list nat) : broadcast_rev s s = Ok s.
Proof.
  induction s as [|a s IH]; simpl; [reflexivity|].
  unfold broadcast_dim. rewrite Nat.eqb_refl, IH. reflexivity.
Qed.

Lemma broadcast_shapes_refl (s : list nat) : broadcast_shapes s s = Ok s.
Proof.
  unfold broadcast_shapes. rewrite broadcast_rev_refl, rev_involutive.
  reflexivity.
Qed.

Lemma broadcast_shapes_row b n : broadcast_shapes [b; n] [n] = Ok [b; n].
Proof.
  unfold broadcast_shapes. simpl. unfold broadcast_dim.
  rewrite Nat.eqb_refl. reflexivity.
Qed.

Lemma broadcast_shapes_layers l b n :
  broadcast_shapes [1; b; n] [l; b; n] = Ok [l; b; n].
Proof.
  unfold broadcast_shapes. simpl. unfold broadcast_dim.
  rewrite !Nat.eqb_refl. destruct (1 =? l) eqn:E; simpl.
  - apply Nat.eqb_eq in E. subst l. reflexivity.
  - reflexivity.
Qed.

Lemma map2_same_shape (f : A -> A -> A) (t1 t2 : tensor A) s :
  shape t1 = s -> shape t2 = s ->
  exists t, map2 f t1 t2 = Ok t /\ shape t = s
            /\ requires_grad t = requires_grad t1 || requires_grad t2.
Proof.
  intros H1 H2. unfold map2. rewrite H1, H2, broadcast_shapes_refl.
  eexists. repeat split.
Qed.

Lemma map2__same_shape (f : A -> A -> A) (t1 t2 : tensor A) s :
  shape t1 = s -> shape t2 = s ->
  exists t, map2_ f t1 t2 = Ok t /\ shape t = s
            /\ requires_grad t = requires_grad t1 || requires_grad t2.
Proof.
  intros H1 H2. unfold map2_.
  destruct (map2_same_shape f t1 t2 s H1 H2) as (t & -> & Hs & Hg).
  rewrite bool_decide_eq_true_2 by congruence. eauto.
Qed.

Lemma map2__Ok_inv (f : A -> A -> A) (t1 t2 t : tensor A) :
  map2_ f t1 t2 = Ok t ->
  shape t = shape t1 /\ requires_grad t = requires_grad t1 || requires_grad t2.
Proof.
  unfold map2_, map2.
  destruct (broadcast_shapes (shape t1) (shape t2)); [|discriminate].
  case_bool_decide; [|discriminate]. intros [= <-]. simpl in *. auto.
Qed.

Lemma cat1_shape (t1 t2 : tensor A) b n1 n2 :
  shape t1 = [b; n1] -> shape t2 = [b; n2] ->
  exists t, cat1 t1 t2 = Ok t /\ shape t = [b; n1 + n2].
Proof.
  intros H1 H2. unfold cat1. rewrite H1, H2, Nat.eqb_refl.
  rewrite bool_decide_eq_true_2 by reflexivity. simpl. eauto.
Qed.

Lemma view_shape (t : tensor A) s :
  numel (shape t) = numel s ->
  view s t = Ok (Tensor s (data t) (requires_grad t)).
Proof.
  intros Hn. unfold view. rewrite Hn, Nat.eqb_refl. reflexivity.
Qed.

Lemma view_Ok_inv (t t' : tensor A) s :
  view s t = Ok t' ->
  t' = Tensor s (data t) (requires_grad t) /\ numel s = numel (shape t).
Proof.
  unfold view. destruct (numel s =? numel (shape t)) eqn:E; [|discriminate].
  apply Nat.eqb_eq in E. intros [= <-]. auto.
Qed.

Lemma expand_layers (t : tensor A) l b n :
  shape t = [1; b; n] ->
  expand [l; b; n] t
  = Ok (Tensor [l; b; n] (expand_data [1; b; n] [l; b; n] (data t))
          (requires_grad t)).
Proof.
  intros Hs. unfold expand. rewrite Hs, broadcast_shapes_layers.
  rewrite bool_decide_eq_true_2 by reflexivity. reflexivity.
Qed.

Lemma expand_Ok_inv (t t' : tensor A) s :
  expand s t = Ok t' ->
  t' = Tensor s (expand_data (shape t) s (data t)) (requires_grad t).
Proof.
  unfold expand. destruct (broadcast_shapes (shape t) s); [|discriminate].
  case_bool_decide; [|discriminate]. intros [= <-]. reflexivity.
Qed.

(** *** Layout of the elements *)

Lemma mjoin_chunks n k (d : list A) :
  length d = k * n -> mjoin (chunks n k d) = d.
Proof.
  revert d. induction k as [|k IH]; intros d Hd; simpl in *.
  - destruct d; [reflexivity|discriminate].
  - rewrite IH; [apply take_drop|]. rewrite length_drop. lia.
Qed.

Lemma fmap_chunks_id (f : list A -> list A) n k (d : list A) :
  (forall c, length c = n -> f c = c) ->
  length d = k * n -> f <$> chunks n k d = chunks n k d.
Proof.
  intros Hf. revert d. induction k as [|k IH]; intros d Hd; simpl in *.
  - reflexivity.
  - rewrite Hf, IH; [reflexivity| |].
    + rewrite length_drop. lia.
    + rewrite length_take. lia.
Qed.

(** A tensor expanded to its own shape keeps its elements. *)
Lemma expand_data_id (s : list nat) :
  forall d : list A, length d = numel s -> expand_data s s d = d.
Proof.
  induction s as [|k s IH]; intros d Hd; [reflexivity|].
  cbn [expand_data]. rewrite Nat.ltb_irrefl, Nat.eqb_refl.
  cbn [numel foldr] in Hd. fold (numel s) in Hd.
  rewrite (fmap_chunks_id _ (numel s) k d); auto using mjoin_chunks.
Qed.

Lemma Forall_chunks (P : A -> Prop) n k (d : list A) :
  Forall P d -> Forall (Forall P) (chunks n k d).
Proof.
  revert d. induction k as [|k IH]; intros d Hd; simpl; constructor.
  - apply Forall_take. exact Hd.
  - apply IH, Forall_drop. exact Hd.
Qed.

(** Broadcasting adds no element of its own. *)
Lemma Forall_expand_data (P : A -> Prop) (src dst : list nat) (d : list A) :
  Forall P d -> Forall P (expand_data src dst d).
Proof.
  revert src d. induction dst as [|k dst IH]; intros src d Hd; [exact Hd|].
  cbn [expand_data]. destruct (length src <? length (k :: dst)).
  - apply Forall_join, Forall_replicate, IH, Hd.
  - destruct src as [|n src]; [exact Hd|]. destruct (n =? k).
    + apply Forall_join, Forall_fmap.
      eapply Forall_impl; [apply (Forall_chunks P), Hd|].
      intros c Hc. apply IH, Hc.
    + apply Forall_join, Forall_replicate, IH, Hd.
Qed.

Lemma drop_mjoin_replicate i l (d : list A) :
  i <= l ->
  drop (i * length d) (mjoin (replicate l d)) = mjoin (replicate (l - i) d).
Proof.
  revert l. induction i as [|i IH]; intros l Hl.
  - simpl. rewrite Nat.sub_0_r. reflexivity.
  - destruct l as [|l]; [lia|]. simpl.
    rewrite drop_app_add'; [|reflexivity]. apply IH. lia.
Qed.

(** Every layer of a state expanded from one layer is that layer. *)
Lemma select0_expand_layers (d : list A) l b n g i :
  length d = b * n -> i < l ->
  select0 i (Tensor [l; b; n] (expand_data [1; b; n] [l; b; n] d) g)
  = Ok (Tensor [b; n] d g).
Proof.
  intros Hd Hi. unfold select0. cbn [shape data requires_grad].
  apply Nat.ltb_lt in Hi as Hi'. rewrite Hi'.
  assert (Hn : numel [b; n] = length d) by (simpl; lia).
  assert (He : expand_data [b; n] [b; n] d = d)
    by (apply expand_data_id; congruence).
  f_equal. f_equal. rewrite Hn.
  change (expand_data [1; b; n] [l; b; n] d)
    with (if 1 =? l
          then mjoin (expand_data [b; n] [b; n] <$> chunks (numel [b; n]) 1 d)
          else mjoin (replicate l (expand_data [b; n] [b; n] d))).
  destruct (1 =? l) eqn:E.
  - apply Nat.eqb_eq in E. subst l. assert (i = 0) as -> by lia.
    cbn [chunks fmap list_fmap mjoin list_join]. rewrite Hn, firstn_all, He.
    simpl. rewrite app_nil_r. apply firstn_all.
  - rewrite He, drop_mjoin_replicate by lia.
    destruct (l - i) as [|k] eqn:Ek; [lia|]. simpl.
    rewrite take_app_length. reflexivity.
Qed.

End TensorFacts.

(** Advance a sequence by the known result of its first part. *)
Ltac run_with E := erewrite bind_Ok by exact E; cbv beta iota.
Ltac run_lift E := erewrite bind_Ok by (apply lift_Ok; exact E); cbv beta iota.
Ltac run_recorded E := erewrite bind_Ok by (apply recorded_Ok; exact E); cbv beta iota.

(** ** The prediction path returns, and the shapes of what it returns *)

Section Returns.
Context `{Runtime}.

Lemma call_maps {A} (l : layer A) input out training (x : tensor A) b w :
  layer_maps l input out -> shape x = input b ->
  exists y w', call l training x w = Ok (y, w')
               /\ shape y = [b; out] /\ valid y /\ same_modes w w'.
Proof.
  intros Hl Hx.
  destruct (Hl training (torch_gen w) x b Hx) as (y & g & Hy & Hs & Hv).
  unfold call. rewrite Hy. do 2 eexists. split; [reflexivity|].
  repeat split; assumption.
Qed.

Lemma forallb_replicate {B} (p : B -> bool) n x :
  p x = true -> forallb p (replicate n x) = true.
Proof. intros Hp. induction n; simpl; [reflexivity|]. rewrite Hp. assumption. Qed.

Lemma forallb_Forall {B} (p : B -> bool) l :
  Forall (fun x => p x = true) l -> forallb p l = true.
Proof. induction 1 as [|x l Hx _ IH]; simpl; [reflexivity|]. rewrite Hx. assumption. Qed.

(** The three passes of [reparameterize] over [alpha] compute
    [noise_scale] on each element. *)
Lemma noise_scale_tensor (a : tensor f32) :
  map1 nan_to_num (map1 F32.abs (map1 pow_neg1 (detach a)))
  = Tensor (shape a) (noise_scale <$> data a) false.
Proof.
  unfold map1, detach. simpl. f_equal. rewrite <- !list_fmap_compose.
  reflexivity.
Qed.

Lemma reparameterize_prev_returns self mu logvar b z w :
  shape mu = [b; z] -> shape logvar = [b; z] ->
  exists zs w', reparameterize_prev self mu logvar w = Ok (zs, w')
                /\ shape zs = [b; z] /\ same_modes w w'.
Proof.
  intros Hmu Hlv. unfold reparameterize_prev.
  set (std := map1 exp (map1 (mul half) logvar)).
  destruct (randn_like std w) as [[eps w1]|] eqn:Heps; [|discriminate].
  assert (Hse : shape eps = [b; z]).
  { unfold randn_like in Heps. run_inv Heps.
    apply ret_Ok_inv in Heps as [-> _]. exact Hlv. }
  destruct (map2_same_shape mul eps std [b; z] Hse Hlv) as (sc & Hsc & Hss & _).
  destruct (map2__same_shape add
              (Tensor (shape sc) (data sc) (grad_enabled w1 && requires_grad sc))
              mu [b; z] Hss Hmu) as (zs & Hzs & Hsz & _).
  run_with Heps. run_recorded Hsc. do 2 eexists.
  split; [apply recorded_Ok, Hzs|].
  split; [exact Hsz|]. eapply keeps_modes_randn_like, Heps.
Qed.

Lemma reparameterize_returns self mu logvar b z w :
  shape mu = [b; z] -> shape logvar = [b; z] -> shape (alpha self) = [z] ->
  cuda_available w = true ->
  Forall (fun a => is_pos (noise_scale a) = true) (data (alpha self)) ->
  exists zs w', reparameterize self mu logvar w = Ok (zs, w')
                /\ shape zs = [b; z] /\ same_modes w w'.
Proof.
  intros Hmu Hlv Ha Hcuda Hpos. unfold reparameterize.
  rewrite noise_scale_tensor.
  set (std := map1 exp (map1 (mul half) logvar)).
  assert (Hz : cuda (zeros_like mu) w = Ok (zeros_like mu, w))
    by (unfold cuda; rewrite Hcuda; reflexivity).
  run_with Hz.
  assert (Hn : exists dist, Normal (zeros_like mu)
                              (Tensor (shape (alpha self))
                                 (noise_scale <$> data (alpha self)) false)
                            = Ok dist /\ shape (loc dist) = [b; z]).
  { unfold Normal. cbn [shape data zeros_like]. rewrite Hmu, Ha.
    rewrite broadcast_shapes_row.
    rewrite forallb_Forall
      by (apply Forall_expand_data, Forall_replicate; reflexivity).
    rewrite forallb_Forall by (apply Forall_expand_data, Forall_fmap; exact Hpos).
    eexists. split; reflexivity. }
  destruct Hn as (dist & Hdist & Hsl). run_lift Hdist.
  destruct (sample dist w) as [[eps w1]|] eqn:Heps; [|discriminate].
  assert (Hse : shape eps = [b; z]).
  { unfold sample in Heps. run_inv Heps.
    apply ret_Ok_inv in Heps as [-> _]. exact Hsl. }
  destruct (map2_same_shape mul eps std [b; z] Hse Hlv) as (sc & Hsc & Hss & _).
  destruct (map2__same_shape add
              (Tensor (shape sc) (data sc) (grad_enabled w1 && requires_grad sc))
              mu [b; z] Hss Hmu) as (sh & Hsh & Hsz & _).
  run_with Heps. run_recorded Hsc. run_recorded Hsh.
  do 2 eexists. split; [reflexivity|]. split; [exact Hsz|].
  eapply keeps_modes_sample, Heps.
Qed.

Section WellFormed.
Variables (self : IQ) (sz : sizes).
Hypothesis Hwf : well_formed self sz.

Lemma encode_images_returns images b w :
  shape images = b :: image_dims sz ->
  exists y w', encode_images self images w = Ok (y, w')
               /\ shape y = [b; z_img sz] /\ valid y /\ same_modes w w'.
Proof.
  intros Hs. unfold encode_images.
  exact (call_maps _ _ _ (training self) images b w (wf_encoder_cnn Hwf) Hs).
Qed.

Lemma encode_categories_returns categories b w :
  shape categories = [b] -> in_range (num_categories self) categories ->
  exists y w', encode_categories self categories w = Ok (y, w')
               /\ shape y = [b; z_category sz] /\ same_modes w w'.
Proof.
  intros Hs Hr. destruct (wf_category Hwf) as (c & Hc & He & Hn & _).
  unfold encode_categories, category_attr. rewrite Hc.
  destruct (He (training self) (torch_gen w) categories b Hs Hr)
    as (e0 & g & He0 & Hse0 & _).
  assert (Hcall : exists e w1, call (category_embedding c) (training self)
                                 categories w = Ok (e, w1)
                               /\ shape e = [b; 8] /\ same_modes w w1).
  { unfold call. rewrite He0. do 2 eexists. split; [reflexivity|].
    split; [exact Hse0|]. split; reflexivity. }
  destruct Hcall as (e & w1 & Hcall & Hse & Hm1).
  destruct (call_maps _ _ _ (training self) e b w1 Hn Hse)
    as (y & w2 & Hcall2 & Hsy & _ & Hm2).
  exists y, w2. erewrite bind_Ok by reflexivity. cbv beta iota.
  run_with Hcall. erewrite bind_Ok by reflexivity. cbv beta iota.
  split; [exact Hcall2|]. split; [exact Hsy|].
  eapply same_modes_trans; eassumption.
Qed.

Lemma encode_into_t_returns image_features category_features b w :
  shape image_features = [b; z_img sz] ->
  shape category_features = [b; z_category sz] ->
  can_sample self w ->
  exists mus logvars zs w',
    encode_into_t self image_features category_features w
      = Ok ((mus, logvars, zs), w')
    /\ shape zs = [b; z_size sz] /\ same_modes w w'.
Proof.
  intros Hi Hc Hsample.
  destruct (wf_category Hwf) as (c & Hcat & _ & _ & Hatt & Hmu & Hlv).
  destruct (cat1_shape image_features category_features b _ _ Hi Hc)
    as (together & Hcat1 & Hst).
  unfold encode_into_t, category_attr. rewrite Hcat.
  run_lift Hcat1. erewrite bind_Ok by reflexivity. cbv beta iota.
  destruct (call_maps _ _ _ (training self) together b w Hatt Hst)
    as (attended & w1 & Hcall1 & Hsa & _ & Hm1).
  run_with Hcall1. erewrite bind_Ok by reflexivity. cbv beta iota.
  destruct (call_maps _ _ _ (training self) attended b w1 Hmu Hsa)
    as (mus & w2 & Hcall2 & Hsm & _ & Hm2).
  run_with Hcall2. erewrite bind_Ok by reflexivity. cbv beta iota.
  destruct (call_maps _ _ _ (training self) attended b w2 Hlv Hsa)
    as (logvars & w3 & Hcall3 & Hsl & _ & Hm3).
  run_with Hcall3.
  assert (Hm : same_modes w w3)
    by (eapply same_modes_trans; [eapply same_modes_trans|]; eassumption).
  set (cmus := map1 (clamp (of_Z (-2)) (of_Z 2)) mus).
  set (clogvars := map1 (clamp (of_Z (-20)) (of_Z 20)) logvars).
  assert (Hz : exists zs w',
             (if bayes self then reparameterize self cmus clogvars
              else reparameterize_prev self cmus clogvars) w3 = Ok (zs, w')
             /\ shape zs = [b; z_size sz] /\ same_modes w3 w').
  { destruct (bayes self) eqn:Hb.
    - destruct (Hsample Hb) as [Hcuda Hpos].
      apply reparameterize_returns; auto.
      + apply (wf_alpha Hwf).
      + destruct Hm as [-> _]. exact Hcuda.
    - apply reparameterize_prev_returns; auto. }
  destruct Hz as (zs & w4 & Hzs & Hsz & Hm4).
  run_with Hzs. do 4 eexists. split; [reflexivity|]. split; [exact Hsz|].
  eapply same_modes_trans; eassumption.
Qed.

Lemma encode_from_category_returns images categories b w :
  batch_fits self sz b images categories ->
  can_sample self w ->
  exists image_features ts w',
    encode_from_category self images categories w = Ok ((image_features, ts), w')
    /\ shape image_features = [b; z_img sz] /\ shape ts = [b; z_size sz]
    /\ same_modes w w'.
Proof.
  intros (Hi & Hc & Hr) Hsample. unfold encode_from_category.
  destruct (encode_images_returns images b w Hi)
    as (feats & w1 & Hf & Hsf & _ & Hm1).
  destruct (encode_categories_returns categories b w1 Hc Hr)
    as (cats & w2 & Hcs & Hsc & Hm2).
  assert (Hm : same_modes w w2) by (eapply same_modes_trans; eassumption).
  destruct (encode_into_t_returns feats cats b w2 Hsf Hsc)
    as (mus & logvars & ts & w3 & Ht & Hst & Hm3).
  { intros Hb. destruct (Hsample Hb) as [Hcuda Hpos]. split; [|exact Hpos].
    destruct Hm as [-> _]. exact Hcuda. }
  run_with Hf. run_with Hcs. run_with Ht.
  do 3 eexists. split; [reflexivity|]. repeat split; try assumption;
    destruct Hm as [? ?], Hm3 as [? ?]; congruence.
Qed.

End WellFormed.

End Returns.

Section DecodeReturns.
Context `{Runtime}.

(** A draw of [random.random()] is never below a ratio of zero. *)
Lemma py_random_not_below_zero w u w' :
  py_random w = Ok (u, w') -> Qltb u 0 = false.
Proof.
  unfold py_random. intros [= <- _]. unfold Qltb, Qle_bool. simpl.
  apply negb_false_iff, Z.leb_le. lia.
Qed.

Lemma py_random_returns w : exists u w', py_random w = Ok (u, w').
Proof. unfold py_random. eauto. Qed.

(** Without ground truth, or at ratio zero, a step feeds the previous
    prediction. *)
Lemma fed_input_autoregressive (inputs : option (tensor Z)) ratio u t prev :
  inputs = None \/ ratio = 0%Q -> Qltb u 0 = false ->
  match inputs with
  | Some truth => if Qltb u ratio then lift (column t truth) else ret prev
  | None => ret prev
  end = ret prev.
Proof.
  intros [->| ->] Hu; [reflexivity|]. destruct inputs; [|reflexivity].
  rewrite Hu. reflexivity.
Qed.

Lemma chunks_length_le {A} n k (d : list A) :
  Forall (fun r => length r <= n) (chunks n k d).
Proof.
  revert d. induction k as [|k IH]; intros d; simpl; constructor; [|apply IH].
  rewrite length_take. lia.
Qed.

(** The only column of a list cut into pieces of one element. *)
Lemma column_of_singletons {A} v (block : list A) :
  length block <= v ->
  mjoin ((fun r => option_list (r !! 0)) <$> chunks 1 v block) = block.
Proof.
  revert block. induction v as [|v IH]; intros block Hl.
  - destruct block; [reflexivity|simpl in Hl; lia].
  - destruct block as [|x block].
    + change (mjoin ((fun r : list A => option_list (r !! 0)) <$> chunks 1 v []) = []).
      apply IH. simpl. lia.
    + change (x :: mjoin ((fun r : list A => option_list (r !! 0)) <$> chunks 1 v block)
              = x :: block).
      rewrite IH by (simpl in Hl; lia). reflexivity.
Qed.

Lemma mjoin_singletons {A B} (g : A -> B) (l : list A) :
  mjoin ((fun x => [g x]) <$> l) = g <$> l.
Proof. induction l as [|x l IH]; [reflexivity|]. simpl. f_equal. exact IH. Qed.

(** On a matrix [max1_indices] is the arg-max of each row. *)
Lemma max1_indices_matrix (t : tensor f32) b v :
  shape t = [b; v] ->
  max1_indices t
  = if v =? 0
    then Raise (IndexError "max(): Expected reduction dim 1 to have non-zero size")
    else Ok (Tensor [b] ((fun r => Z.of_nat (argmax r)) <$> chunks v b (data t)) false).
Proof.
  intros Hs. unfold max1_indices. rewrite Hs.
  destruct (v =? 0); [reflexivity|]. cbn [numel foldr]. rewrite Nat.mul_1_r.
  f_equal. f_equal.
  rewrite <- (mjoin_singletons (fun r => Z.of_nat (argmax r))). f_equal.
  apply Forall_fmap_ext_1.
  eapply Forall_impl; [apply (chunks_length_le v b (data t))|].
  intros r Hr. change (seq 0 1) with [0]. cbn [fmap list_fmap].
  rewrite (column_of_singletons v r Hr). reflexivity.
Qed.

Lemma max1_indices_shape (t : tensor f32) b v :
  shape t = [b; v] -> 1 <= v ->
  exists idx, max1_indices t = Ok idx /\ shape idx = [b].
Proof.
  intros Hs Hv. unfold max1_indices. rewrite Hs.
  destruct v; [lia|]. simpl. eauto.
Qed.

Lemma argmax_from_bound l :
  forall best ibest i, ibest < i -> argmax_from best ibest i l < i + length l.
Proof.
  induction l as [|x l IH]; intros best ibest i Hi; simpl; [lia|].
  destruct (negb (is_nan best) && (is_nan x || ltb best x)).
  - specialize (IH x i (S i)). lia.
  - specialize (IH best ibest (S i)). lia.
Qed.

Lemma argmax_bound l v : length l <= v -> 1 <= v -> argmax l < v.
Proof.
  intros Hl Hv. destruct l as [|x l]; simpl in *; [lia|].
  pose proof (argmax_from_bound l x 0 1). lia.
Qed.

(** The arg-max of scores over a vocabulary is a token of the vocabulary. *)
Lemma max1_indices_in_range (t : tensor f32) b v idx :
  shape t = [b; v] -> 1 <= v -> max1_indices t = Ok idx -> in_range v idx.
Proof.
  intros Hs Hv. rewrite (max1_indices_matrix t b v Hs).
  destruct (v =? 0); [discriminate|]. intros [= <-].
  unfold in_range. cbn [data]. apply Forall_fmap.
  eapply Forall_impl; [apply chunks_length_le|].
  intros r Hr. simpl. pose proof (argmax_bound r v Hr Hv). lia.
Qed.

Lemma hidden_fits_with_grad dec b g h :
  hidden_fits dec b h -> hidden_fits dec b (hidden_with_grad g h).
Proof. unfold hidden_fits. destruct (rnn_cell dec), h; simpl; auto. Qed.

Lemma decode_steps_returns dec training inputs function ratio :
  cell_maps dec -> keeps_shape function -> 1 <= vocab_size dec ->
  inputs = None \/ ratio = 0%Q ->
  forall steps t prev h w b,
    shape prev = [b] -> in_range (vocab_size dec) prev -> hidden_fits dec b h ->
    exists outs h' w',
      decode_steps dec training inputs function ratio steps t prev h w
        = Ok ((outs, h'), w')
      /\ length outs = steps
      /\ Forall (fun o => shape o = [b; vocab_size dec]) outs.
Proof.
  intros Hcell Hfn Hv Hauto.
  induction steps as [|steps IH]; intros t prev h w b Hprev Hrange Hfits.
  - simpl. do 3 eexists. split; [reflexivity|]. split; [reflexivity|constructor].
  - cbn [decode_steps].
    destruct (py_random_returns w) as (u & w1 & Hu). run_with Hu.
    rewrite (fed_input_autoregressive inputs ratio u t prev Hauto
               (py_random_not_below_zero _ _ _ Hu)).
    erewrite bind_Ok by reflexivity. cbv beta iota.
    destruct (Hcell training (torch_gen w1) prev h b Hprev Hrange Hfits)
      as (scores & h' & g & Hstep & Hss & Hfits').
    assert (Hrun : exists sc hx w2,
               step dec training prev h w1 = Ok ((sc, hx), w2)
               /\ shape sc = [b; vocab_size dec] /\ hidden_fits dec b hx).
    { unfold step. rewrite Hstep. do 3 eexists. split; [reflexivity|].
      split; [exact Hss|]. apply hidden_fits_with_grad, Hfits'. }
    clear Hstep. destruct Hrun as (sc & hx & w2 & Hrun & Hsc & Hfx). run_with Hrun.
    destruct (Hfn sc b _ Hsc) as (out & Hout & Hso).
    run_lift Hout.
    destruct (max1_indices_shape out b _ Hso Hv) as (sym & Hsym & Hssym).
    run_lift Hsym.
    destruct (IH (S t) sym hx w2 b Hssym
                (max1_indices_in_range out b _ sym Hso Hv Hsym) Hfx)
      as (outs & hl & w3 & Hrest & Hlen & Hall).
    run_with Hrest. do 3 eexists. split; [reflexivity|].
    split; [simpl; congruence|]. constructor; assumption.
Qed.

Lemma traverse_max1_indices outs b v :
  1 <= v -> Forall (fun o : tensor f32 => shape o = [b; v]) outs ->
  exists idx, traverse max1_indices outs = Ok idx
              /\ length idx = length outs
              /\ Forall (fun i : tensor Z => shape i = [b]) idx.
Proof.
  intros Hv. induction 1 as [|o outs Ho _ (idx & Hidx & Hlen & Hall)]; simpl.
  - eexists. split; [reflexivity|]. split; [reflexivity|constructor].
  - destruct (max1_indices_shape o b v Ho Hv) as (i & -> & Hi). rewrite Hidx.
    eexists. split; [reflexivity|]. split; [simpl; congruence|].
    constructor; assumption.
Qed.

Lemma stack_shape {A} (ts : list (tensor A)) s :
  ts <> [] -> Forall (fun t => shape t = s) ts ->
  exists t, stack ts = Ok t /\ shape t = length ts :: s.
Proof.
  intros Hne Hall. destruct ts as [|t ts]; [congruence|].
  unfold stack. inversion Hall as [|? ? Ht Hts]; subst.
  rewrite forallb_Forall.
  - eexists. split; reflexivity.
  - eapply Forall_impl; [exact Hall|]. intros t' Ht'. simpl in Ht'.
    apply bool_decide_eq_true_2. exact Ht'.
Qed.

(** The list of per-step scores becomes a matrix with one row per
    example and one column per step. *)
Lemma parse_outputs_to_tokens_returns outs b v :
  1 <= v -> outs <> [] ->
  Forall (fun o : tensor f32 => shape o = [b; v]) outs ->
  exists tokens, parse_outputs_to_tokens outs = Ok tokens
                 /\ shape tokens = [b; length outs].
Proof.
  intros Hv Hne Hall.
  destruct (traverse_max1_indices outs b v Hv Hall) as (idx & Hidx & Hlen & Hsi).
  destruct (stack_shape idx [b]) as (st & Hst & Hss); [|exact Hsi|].
  { intros ->. destruct outs; [congruence|discriminate]. }
  unfold parse_outputs_to_tokens. rewrite Hidx, Hst.
  unfold transpose01. rewrite Hss. eexists. split; [reflexivity|].
  simpl. congruence.
Qed.

Section DecodeWellFormed.
Variables (self : IQ) (sz : sizes).
Hypothesis Hwf : well_formed self sz.

Lemma wf_vocab : 1 <= vocab_size (decoder self).
Proof. pose proof (wf_sos Hwf). lia. Qed.

Lemma initial_hidden_returns image_features ts b w :
  shape image_features = [b; z_img sz] -> shape ts = [b; z_size sz] ->
  exists h w', initial_hidden self (Some image_features) ts w = Ok (h, w')
               /\ hidden_batch h = Ok b /\ hidden_fits (decoder self) b h
               /\ same_modes w w'.
Proof.
  intros Hi Hts. unfold initial_hidden.
  assert (Hsz : size0 ts = Ok b) by (unfold size0; rewrite Hts; reflexivity).
  run_lift Hsz.
  destruct (call_maps _ _ _ (training self) ts b w (wf_t_decoder Hwf) Hts)
    as (th & w1 & Hth & Hsth & _ & Hm1).
  run_with Hth.
  destruct (map2_same_shape add image_features th _ Hi Hsth) as (both & Hboth & Hsb & _).
  destruct (call_maps _ _ _ (training self) both b w1 (wf_gen_decoder Hwf) Hsb)
    as (hd & w2 & Hhd & Hshd & _ & Hm2).
  assert (Hin : (let* both := lift (map2 add image_features th) in
                 call (gen_decoder self) (training self) both) w1
                = Ok (hd, w2))
    by (run_lift Hboth; exact Hhd).
  run_with Hin.
  assert (Hview : view [1; b; 2 * hidden_size self] hd
                  = Ok (Tensor [1; b; 2 * hidden_size self] (data hd) (requires_grad hd))).
  { apply view_shape. rewrite Hshd. cbn [numel foldr]. lia. }
  run_lift Hview.
  erewrite bind_Ok by (apply lift_Ok, expand_layers; reflexivity).
  cbv beta iota.
  do 2 eexists. split; [reflexivity|]. split; [|split].
  - destruct (rnn_cell (decoder self)); reflexivity.
  - unfold hidden_fits.
    rewrite (wf_decoder_layers Hwf), (wf_decoder_hidden Hwf).
    destruct (rnn_cell (decoder self)); cbn [shape]; auto.
  - eapply same_modes_trans; eassumption.
Qed.

Lemma decode_questions_returns image_features ts questions ratio function b w :
  shape image_features = [b; z_img sz] -> shape ts = [b; z_size sz] ->
  keeps_shape function -> questions = None \/ ratio = 0%Q ->
  exists result tokens w',
    decode_questions self (Some image_features) ts questions ratio function w
      = Ok ((result, tokens), w')
    /\ length (fst result) = max_len (decoder self)
    /\ shape tokens = [b; max_len (decoder self)].
Proof.
  intros Hi Hts Hfn Hauto. unfold decode_questions.
  destruct (initial_hidden_returns image_features ts b w Hi Hts)
    as (h & w1 & Hh & Hhb & Hfits & _).
  run_with Hh.
  assert (Hsos : in_range (vocab_size (decoder self))
                   (full [b] (sos_id (decoder self)))).
  { unfold in_range, full. cbn [data]. apply Forall_replicate, (wf_sos Hwf). }
  destruct (decode_steps_returns (decoder self) (training self) questions
              function ratio (wf_decoder Hwf) Hfn wf_vocab Hauto
              (max_len (decoder self)) 0
              (full [b] (sos_id (decoder self))) h w1 b eq_refl Hsos Hfits)
    as (outs & hl & w2 & Hdec & Hlen & Hall).
  assert (Hfwd : decoder_forward (decoder self) (training self) questions h
                   function ratio w1 = Ok ((outs, hl), w2))
    by (unfold decoder_forward; run_lift Hhb; exact Hdec).
  run_with Hfwd. cbn [fst].
  destruct (parse_outputs_to_tokens_returns outs b _ wf_vocab)
    as (tokens & Htok & Hst); [|exact Hall|].
  { intros ->. pose proof (wf_max_len Hwf). simpl in Hlen. lia. }
  run_lift Htok. do 3 eexists. split; [reflexivity|].
  split; [exact Hlen|]. rewrite Hst, Hlen. reflexivity.
Qed.

(** On a well-formed model and a fitting batch the prediction path
    returns a matrix of tokens with one row per example and [max_len]
    columns. *)
Lemma predict_from_category_returns images categories questions ratio
    function b w :
  batch_fits self sz b images categories ->
  can_sample self w -> keeps_shape function ->
  questions = None \/ ratio = 0%Q ->
  exists tokens w',
    predict_from_category self images categories questions ratio function w
      = Ok (tokens, w')
    /\ shape tokens = [b; max_len (decoder self)].
Proof.
  intros Hfit Hsample Hfn Hauto. unfold predict_from_category.
  destruct (encode_from_category_returns self sz Hwf images categories
              b w Hfit Hsample)
    as (feats & zs & w1 & Henc & Hsf & Hsz & _).
  run_with Henc.
  destruct (decode_questions_returns feats zs questions ratio function b w1
              Hsf Hsz Hfn Hauto)
    as (result & tokens & w2 & Hdec & _ & Hst).
  run_with Hdec. do 2 eexists. split; [reflexivity|exact Hst].
Qed.

End DecodeWellFormed.

Lemma log_softmax_keeps_shape : keeps_shape log_softmax.
Proof. intros t b v Hs. unfold log_softmax. rewrite Hs. eauto. Qed.

End DecodeReturns.

(** ** Independence of the generator of Python's [random] module *)

Create HintDb pyblind.

Section PyBlind.
Context `{Runtime}.

Lemma with_py_with_py {A} p q (r : result (A * world)) :
  with_py p (with_py q r) = with_py p r.
Proof. destruct r as [[a w]|e]; reflexivity. Qed.

Lemma value_of_with_py {A} p (r : result (A * world)) :
  value_of (with_py p r) = value_of r.
Proof. destruct r as [[a w]|e]; reflexivity. Qed.

Lemma py_blind_ret {A} (a : A) : py_blind (ret a).
Proof. intros w p. exists p. reflexivity. Qed.

Lemma py_blind_raise {A} e : py_blind (@raise A e).
Proof. intros w p. exists p. reflexivity. Qed.

Lemma py_blind_lift {A} (r : result A) : py_blind (lift r).
Proof. intros w p. exists p. destruct r; reflexivity. Qed.

Lemma py_blind_recorded r : py_blind (recorded r).
Proof. intros w p. exists p. destruct r; reflexivity. Qed.

Lemma py_blind_bind {A B} (c : M A) (k : A -> M B) :
  py_blind c -> (forall a, py_blind (k a)) -> py_blind (bind c k).
Proof.
  intros Hc Hk w p. destruct (Hc w p) as [p1 H1]. unfold bind. rewrite H1.
  destruct (c w) as [[a w1]|e]; simpl; [|exists p; reflexivity].
  apply Hk.
Qed.

Lemma py_blind_call {A} (l : layer A) training x : py_blind (call l training x).
Proof.
  intros w p. exists p. unfold call. simpl.
  destruct (forward_fn l training (torch_gen w) x) as [[y g]|]; reflexivity.
Qed.

Lemma py_blind_cuda {A} (t : tensor A) : py_blind (cuda t).
Proof.
  intros w p. exists p. unfold cuda. simpl.
  destruct (cuda_available w); reflexivity.
Qed.

Lemma py_blind_draw_normals n : py_blind (draw_normals n).
Proof. intros w p. exists p. reflexivity. Qed.

Lemma py_blind_step dec training input h : py_blind (step dec training input h).
Proof.
  intros w p. exists p. unfold step. simpl.
  destruct (cell_step dec training (torch_gen w) input h) as [[[sc h'] g]|];
    reflexivity.
Qed.

Lemma py_blind_category_attr {A} self name (field : category_modules -> A) :
  py_blind (category_attr self name field).
Proof.
  unfold category_attr. destruct (category self);
    [apply py_blind_ret|apply py_blind_raise].
Qed.

(** A draw whose value the rest of the computation ignores. *)
Lemma py_blind_ignored_draw {A} (k : Q -> M A) (rest : M A) :
  (forall u, Qltb u 0 = false -> k u = rest) -> py_blind rest ->
  py_blind (bind py_random k).
Proof.
  intros Hk Hrest w p.
  destruct (py_random w) as [[u w1]|] eqn:Hu; [|discriminate].
  destruct (py_random (set_py_gen p w)) as [[u' w1']|] eqn:Hu'; [|discriminate].
  rewrite (bind_Ok _ _ _ _ _ Hu), (bind_Ok _ _ _ _ _ Hu').
  rewrite (Hk u (py_random_not_below_zero _ _ _ Hu)).
  rewrite (Hk u' (py_random_not_below_zero _ _ _ Hu')).
  unfold py_random in Hu, Hu'. injection Hu as _ <-. injection Hu' as _ <-.
  destruct (Hrest w (Generator (gen_seed (py_gen w)) (S (gen_offset (py_gen w)))))
    as [q Hq].
  destruct (Hrest w (Generator (gen_seed p) (S (gen_offset p)))) as [q' Hq'].
  exists q'. simpl. simpl in Hq, Hq'.
  unfold set_py_gen in *. simpl in *. rewrite Hq', Hq, with_py_with_py. reflexivity.
Qed.

End PyBlind.

#[export] Hint Resolve py_blind_ret py_blind_raise py_blind_lift py_blind_recorded
  py_blind_call
  py_blind_cuda py_blind_draw_normals py_blind_step py_blind_category_attr : pyblind.

Ltac pyblind :=
  repeat first
    [ solve [auto with pyblind]
    | apply py_blind_bind; [|intro]
    | match goal with
      | |- py_blind (match ?x with (_, _) => _ end) => destruct x
      | |- py_blind (let '(_, _) := ?x in _) => destruct x
      | |- py_blind (if ?b then _ else _) => destruct b
      | |- py_blind (match ?x with Some _ => _ | None => _ end) => destruct x
      end ].

Section PyBlindModel.
Context `{Runtime}.

Lemma py_blind_encode_from_category self images categories :
  py_blind (encode_from_category self images categories).
Proof.
  unfold encode_from_category, encode_into_t, encode_images, encode_categories,
    reparameterize, reparameterize_prev, randn_like, sample.
  pyblind.
Qed.

Lemma py_blind_initial_hidden self f ts : py_blind (initial_hidden self f ts).
Proof. unfold initial_hidden. pyblind. Qed.

(** At ratio zero the decoder draws from Python's generator at every
    step and never looks at what it drew. *)
Lemma py_blind_decode_steps dec training inputs function steps :
  forall t prev h,
    py_blind (decode_steps dec training inputs function 0 steps t prev h).
Proof.
  induction steps as [|steps IH]; intros t prev h; cbn [decode_steps].
  - apply py_blind_ret.
  - eapply py_blind_ignored_draw.
    + intros u Hu.
      rewrite (fed_input_autoregressive inputs 0 u t prev (or_intror eq_refl) Hu).
      reflexivity.
    + pyblind.
Qed.

Lemma py_blind_decode_questions self f ts questions function :
  py_blind (decode_questions self f ts questions 0 function).
Proof.
  unfold decode_questions, decoder_forward.
  pose proof py_blind_initial_hidden. pose proof py_blind_decode_steps.
  pyblind.
Qed.

Lemma py_blind_predict_from_category self images categories questions function :
  py_blind (predict_from_category self images categories questions 0 function).
Proof.
  unfold predict_from_category.
  pose proof py_blind_encode_from_category. pose proof py_blind_decode_questions.
  pyblind.
Qed.

End PyBlindModel.

(** ** The concrete model is well formed *)

Section DemoFacts.

Lemma constant_maps {A} x (input : nat -> list nat) out :
  (forall b, exists rest, input b = b :: rest) ->
  layer_maps (@Demo.constant A x out) input out.
Proof.
  intros Hin training g t b Hs. destruct (Hin b) as [rest Hr].
  unfold Demo.constant. cbn [forward_fn]. rewrite Hs, Hr.
  do 2 eexists. split; [reflexivity|]. split; [reflexivity|].
  unfold valid. cbn [data shape numel foldr]. rewrite length_replicate. lia.
Qed.

Lemma demo_cell_maps : cell_maps Demo.small_decoder.
Proof.
  intros training g input h b Hs _ Hh. cbn [cell_step Demo.small_decoder].
  unfold Demo.cell. rewrite Hs. do 3 eexists. split; [reflexivity|].
  split; [reflexivity|exact Hh].
Qed.

Lemma demo_well_formed scaled a :
  well_formed (Demo.model scaled a (Demo.constant zero 2) (Demo.constant zero 1))
    Demo.small_sizes.
Proof.
  constructor; cbn [Demo.model Demo.small_sizes encoder_cnn category alpha
                    t_decoder gen_decoder decoder hidden_size num_layers
                    image_dims z_img z_category att_size z_size].
  - apply constant_maps; eauto.
  - eexists. split; [reflexivity|].
    cbn [Demo.category_part category_embedding category_encoder
         category_attention mu_category_encoder logvar_category_encoder].
    split; [|repeat split; apply constant_maps; eauto].
    intros training g x b Hs _.
    exact (constant_maps zero (fun b => [b]) 8 (fun b => ex_intro _ [] eq_refl)
             training g x b Hs).
  - split; reflexivity.
  - apply constant_maps; eauto.
  - apply (constant_maps one (fun b => [b; 1]) 2); eauto.
  - apply demo_cell_maps.
  - reflexivity.
  - reflexivity.
  - cbn. lia.
  - cbn. lia.
Qed.

Lemma demo_batch_fits scaled a :
  batch_fits (Demo.model scaled a (Demo.constant zero 2) (Demo.constant zero 1))
    Demo.small_sizes 2 Demo.pictures Demo.kinds.
Proof.
  split; [reflexivity|]. split; [reflexivity|].
  unfold in_range. cbn. repeat constructor; lia.
Qed.

Lemma demo_can_sample_plain w : can_sample Demo.plain w.
Proof. intros Hb. discriminate Hb. Qed.

Lemma demo_can_sample_scaled :
  can_sample Demo.scaled_one (fresh_world true 1234).
Proof. intros _. split; [reflexivity|]. repeat constructor. Qed.

End DemoFacts.

(** ** The forward pass and the prediction path *)

Section Forward.
Context `{Runtime}.

Lemma load_name_mus frame :
  load_name forward_locals frame "mus" = Raise (NameError "mus").
Proof.
  unfold load_name.
  assert (bool_decide ("mus"%string ∈ forward_locals) = false) as ->
    by (vm_compute; reflexivity).
  assert (bool_decide ("mus"%string ∈ iq_globals) = false) as ->
    by (vm_compute; reflexivity).
  assert (bool_decide ("mus"%string ∈ python_builtins) = false) as ->
    by (vm_compute; reflexivity).
  reflexivity.
Qed.

(** [forward] stops at the first use of [mus], unless encoding the
    images has already failed. *)
Lemma forward_raises self images answers categories alengths questions
    ratio function w :
  forward self images answers categories alengths questions ratio function w
  = match encode_images self images w with
    | Ok _ => Raise (NameError "mus")
    | Raise e => Raise e
    end.
Proof.
  unfold forward.
  destruct (encode_images self images w) as [[feats w1]|e] eqn:Henc.
  - run_with Henc. apply bind_Raise.
    destruct (bayes self); apply bind_Raise; rewrite load_name_mus; reflexivity.
  - apply bind_Raise. exact Henc.
Qed.

End Forward.

(** ** Statements of the claims *)

Section Claims.
Context `{Runtime}.

(** C1.  For every model, batch (images, answers, categories, optional
    lengths and questions) and state, [forward] produces no output: it
    raises [NameError] for [mus], the first of the two names its
    sampling step uses without anything in scope defining them (or the
    error of the image encoder, if that one fails first).  The
    encode-then-decode paths [encode_from_category] and
    [predict_from_category], as the harness calls them, do return on a
    well-formed model and a batch that fits it. *)
Theorem forward_never_returns_prediction_paths_do :
  (forall self images answers categories alengths questions ratio function w,
      forward self images answers categories alengths questions ratio function w
      = match encode_images self images w with
        | Ok _ => Raise (NameError "mus")
        | Raise e => Raise e
        end)
  /\ (forall self sz images categories b w,
         well_formed self sz -> batch_fits self sz b images categories ->
         can_sample self w ->
         (exists feats ts w',
             encode_from_category self images categories w = Ok ((feats, ts), w'))
         /\ (exists tokens w',
                predict_from_category self images categories None 0 log_softmax w
                = Ok (tokens, w'))).
Proof.
  split.
  - intros. apply forward_raises.
  - intros self sz images categories b w Hwf Hfit Hs. split.
    + destruct (encode_from_category_returns self sz Hwf images categories
                  b w Hfit Hs) as (f & ts & w' & He & _).
      eauto.
    + destruct (predict_from_category_returns self sz Hwf images categories
                  None 0 log_softmax b w Hfit Hs
                  log_softmax_keeps_shape (or_introl eq_refl))
        as (tokens & w' & Hp & _).
      eauto.
Qed.

(** C2 (as amended).  The noise scale [reparameterize] computes from
    [alpha] is [noise_scale] of each entry; every such scale is finite
    and not negative, never NaN or Inf.  A zero entry of [alpha] gives
    the largest finite binary32 value, not zero; an entry that is NaN or
    infinite gives zero.  The latent sample is not kept finite: with
    that largest scale the deviate [2.0] already gives an infinite noise
    term, and then, for every positive standard deviation, the latent
    element is [+Inf] for every mean in [-2, 2] and is not finite for any
    mean at all, a NaN mean (which the clamp lets through) included. *)
Theorem noise_scale_finite_zero_alpha_gives_max_float :
  (forall self,
      map1 nan_to_num (map1 F32.abs (map1 pow_neg1 (detach (alpha self))))
      = Tensor (shape (alpha self)) (noise_scale <$> data (alpha self)) false)
  /\ (forall a, is_finite (noise_scale a) = true /\ leb zero (noise_scale a) = true)
  /\ (forall a, is_zero a = true ->
                noise_scale a = max_float /\ noise_scale a <> zero)
  /\ (forall a, is_finite a = false -> noise_scale a = zero)
  /\ (forall a std mu,
         is_zero a = true -> is_pos std = true ->
         within (of_Z (-2)) (of_Z 2) mu = true ->
         add (add (mul (add (mul (of_Z 2) (noise_scale a)) zero) std) mu) tiny
         = S754_infinity false)
  /\ (forall a std mu,
         is_zero a = true -> is_pos std = true ->
         is_finite
           (add (add (mul (add (mul (of_Z 2) (noise_scale a)) zero) std) mu) tiny)
         = false).
Proof.
  split; [intros; apply noise_scale_tensor|].
  split; [intros a; split; [apply noise_scale_finite|apply noise_scale_nonneg]|].
  split.
  { intros a Ha. rewrite (noise_scale_of_zero a Ha). split; [reflexivity|discriminate]. }
  split.
  { intros a Ha. destruct a as [| [] | |]; try discriminate; reflexivity. }
  split.
  - intros a std mu Ha Hstd Hmu. rewrite (noise_scale_of_zero a Ha).
    change (add (mul (of_Z 2) max_float) zero) with (S754_infinity false).
    apply infinite_noise_infinite_sample; [exact Hstd|].
    eapply within_finite; [| |exact Hmu]; reflexivity.
  - intros a std mu Ha Hstd. rewrite (noise_scale_of_zero a Ha).
    change (add (mul (of_Z 2) max_float) zero) with (S754_infinity false).
    destruct std as [| [] | | []]; try discriminate;
      destruct mu as [| [] | |]; reflexivity.
Qed.

(** C5.  On a well-formed model, for every batch that fits it (with the
    sampling step able to run), [predict_from_category] returns a matrix
    of tokens whose first dimension is the batch size of the input and
    whose second dimension is the configured maximum length. *)
Theorem predict_from_category_token_matrix
    self sz images categories questions ratio function b w :
  well_formed self sz -> batch_fits self sz b images categories ->
  can_sample self w -> keeps_shape function ->
  questions = None \/ ratio = 0%Q ->
  exists tokens w',
    predict_from_category self images categories questions ratio function w
      = Ok (tokens, w')
    /\ shape tokens = [b; max_len (decoder self)].
Proof.
  intros Hwf Hfit Hs Hfn Hauto.
  exact (predict_from_category_returns self sz Hwf images categories
           questions ratio function b w Hfit Hs Hfn Hauto).
Qed.

(** Two states that agree on the modes are the same state once the
    torch generator is seeded, up to Python's generator. *)
Lemma manual_seed_worlds s w1 w2 :
  same_modes w1 w2 ->
  manual_seed s w2 = set_py_gen (py_gen w2) (manual_seed s w1).
Proof.
  intros [Hc Hg]. destruct w1, w2. simpl in *. subst. reflexivity.
Qed.

Lemma predict_from_category_seeded self images categories questions function
    s w1 w2 :
  same_modes w1 w2 ->
  value_of (predict_from_category self images categories questions 0 function
              (manual_seed s w2))
  = value_of (predict_from_category self images categories questions 0 function
                (manual_seed s w1)).
Proof.
  intros Hm. rewrite (manual_seed_worlds s w1 w2 Hm).
  destruct (py_blind_predict_from_category self images categories questions
              function (manual_seed s w1) (py_gen w2)) as [p ->].
  apply value_of_with_py.
Qed.

(** C6.  With [teacher_forcing_ratio = 0], a second invocation of
    [predict_from_category] on the same model and inputs, made in the
    state the first invocation left and after seeding the generator
    with the same seed again, returns the tokens of the first. *)
Theorem predict_from_category_reproducible
    self images categories questions function s w tokens w1 :
  predict_from_category self images categories questions 0 function
    (manual_seed s w) = Ok (tokens, w1) ->
  value_of (predict_from_category self images categories questions 0 function
              (manual_seed s w1)) = Ok tokens.
Proof.
  intros Hrun.
  assert (Hm : same_modes w w1).
  { pose proof (keeps_modes_predict_from_category _ _ _ _ _ _ _ _ _ Hrun) as [? ?].
    split; assumption. }
  rewrite (predict_from_category_seeded _ _ _ _ _ s w w1 Hm), Hrun.
  reflexivity.
Qed.

End Claims.

(** ** The state handed to the decoder *)

Section InitialHidden.
Context `{Runtime}.

Lemma call_Ok_inv {A} (l : layer A) training (x : tensor A) w y w' :
  call l training x w = Ok (y, w') ->
  exists y0 g, forward_fn l training (torch_gen w) x = Ok (y0, g)
               /\ shape y = shape y0 /\ data y = data y0.
Proof.
  unfold call.
  destruct (forward_fn l training (torch_gen w) x) as [[y0 g]|]; [|discriminate].
  intros [= <- _]. eauto.
Qed.

Lemma call_valid {A} (l : layer A) training (x : tensor A) w y w' :
  layer_valid l -> call l training x w = Ok (y, w') -> valid y.
Proof.
  intros Hl Hc. apply call_Ok_inv in Hc as (y0 & g & Hf & Hs & Hd).
  unfold valid. rewrite Hs, Hd. exact (Hl _ _ _ _ _ Hf).
Qed.

(** What [initial_hidden] returns is one layer, repeated. *)
Lemma initial_hidden_Ok_inv self image_features ts w h w' :
  layer_valid (t_decoder self) -> layer_valid (gen_decoder self) ->
  initial_hidden self image_features ts w = Ok (h, w') ->
  exists batch_size d g,
    size0 ts = Ok batch_size
    /\ length d = batch_size * (2 * hidden_size self)
    /\ h = let hiddens :=
             Tensor [num_layers self; batch_size; 2 * hidden_size self]
               (expand_data [1; batch_size; 2 * hidden_size self]
                  [num_layers self; batch_size; 2 * hidden_size self] d) g in
           match rnn_cell (decoder self) with
           | LSTM => HPair hiddens hiddens
           | _ => HSingle hiddens
           end.
Proof.
  intros Ht Hg Hrun. unfold initial_hidden in Hrun. run_inv Hrun.
  apply ret_Ok_inv in Hrun as [-> _].
  repeat match goal with
         | E : lift _ _ = Ok _ |- _ => apply lift_Ok_inv in E as [E ->]
         end.
  match goal with E : view _ _ = Ok _ |- _ => apply view_Ok_inv in E as [-> Hn] end.
  match goal with E : expand _ _ = Ok _ |- _ => apply expand_Ok_inv in E as -> end.
  cbn [shape data requires_grad].
  match goal with
  | E : (match image_features with Some _ => _ | None => _ end) _ = Ok (?hd, _) |- _ =>
      assert (Hv : valid hd)
  end.
  { destruct image_features as [f|].
    - match goal with E : bind _ _ _ = Ok _ |- _ => run_inv E end.
      eapply call_valid; [exact Hg|eassumption].
    - match goal with E : ret _ _ = Ok _ |- _ => apply ret_Ok_inv in E as [-> _] end.
      eapply call_valid; [exact Ht|eassumption]. }
  do 3 eexists. split; [eassumption|]. split; [|reflexivity].
  unfold valid in Hv. rewrite Hv, <- Hn. cbn [numel foldr]. lia.
Qed.

(** C7.  For every latent batch for which [decode_questions] builds an
    initial state, the [num_layers] layers of that state are one and
    the same matrix of [batch_size] rows of [2 * hidden_size] features,
    and for an LSTM the initial cell state is the initial hidden state.
    On a well-formed model and batch the state is built. *)
Theorem initial_hidden_layers_identical
    self image_features ts w :
  layer_valid (t_decoder self) -> layer_valid (gen_decoder self) ->
  (forall h w',
      initial_hidden self image_features ts w = Ok (h, w') ->
      exists hiddens batch_size layer,
        size0 ts = Ok batch_size
        /\ h = match rnn_cell (decoder self) with
               | LSTM => HPair hiddens hiddens
               | _ => HSingle hiddens
               end
        /\ shape hiddens = [num_layers self; batch_size; 2 * hidden_size self]
        /\ shape layer = [batch_size; 2 * hidden_size self]
        /\ forall i, i < num_layers self -> select0 i hiddens = Ok layer)
  /\ (forall sz features b,
         well_formed self sz ->
         image_features = Some features ->
         shape features = [b; z_img sz] -> shape ts = [b; z_size sz] ->
         exists h w', initial_hidden self image_features ts w = Ok (h, w')).
Proof.
  intros Ht Hg. split.
  - intros h w' Hrun.
    destruct (initial_hidden_Ok_inv _ _ _ _ _ _ Ht Hg Hrun)
      as (batch_size & d & g & Hsz & Hd & ->).
    do 3 eexists. split; [exact Hsz|]. split; [reflexivity|].
    split; [reflexivity|].
    split; [|intros i Hi; apply select0_expand_layers; assumption].
    reflexivity.
  - intros sz features b Hwf -> Hf Hts.
    destruct (initial_hidden_returns self sz Hwf features ts b w Hf Hts)
      as (h & w' & Hh & _).
    eauto.
Qed.

End InitialHidden.

(** ** The evaluation pass *)

Section EvaluateFacts.
Context `{Runtime}.

Lemma keeps_modes_cuda_is_available : keeps_modes cuda_is_available.
Proof. intros w a w' [= _ <-]. apply same_modes_refl. Qed.

Lemma keeps_modes_call_method vqg name images rest :
  keeps_modes (call_method vqg name images rest).
Proof.
  unfold call_method. destruct (has_attribute vqg name); [|modes].
  case_bool_decide; [|modes]. destruct rest as [|c [|? ?]]; modes.
Qed.

Lemma keeps_modes_evaluate_batch vqg u args b preds gts :
  keeps_modes (evaluate_batch vqg u args b preds gts).
Proof.
  unfold evaluate_batch.
  pose proof keeps_modes_cuda_is_available.
  pose proof keeps_modes_call_method.
  modes.
Qed.

Lemma keeps_modes_evaluate_loop vqg u args loader :
  forall preds gts, keeps_modes (evaluate_loop vqg u args loader preds gts).
Proof.
  pose proof keeps_modes_evaluate_batch.
  induction loader as [|b rest IH]; intros preds gts; cbn [evaluate_loop]; modes.
Qed.

(** The class has no attribute [predict_from_answer]. *)
Lemma no_predict_from_answer vqg : has_attribute vqg "predict_from_answer" = false.
Proof.
  unfold has_attribute, instance_attributes.
  destruct (category_space vqg), (image_recon vqg); vm_compute; reflexivity.
Qed.

Lemma has_predict_from_category vqg :
  has_attribute vqg "predict_from_category" = true.
Proof. unfold has_attribute. reflexivity. Qed.

(** The transfer to the device changes neither the batch nor the state. *)
Lemma transfer_batch (b : batch) w :
  (if cuda_available w then
     let* images := cuda (images b) in
     let* answers := cuda (answers b) in
     let* categories := cuda (categories b) in
     ret (images, answers, categories)
   else ret (images b, answers b, categories b)) w
  = Ok ((images b, answers b, categories b), w).
Proof.
  unfold bind, cuda, ret.
  destruct (cuda_available w) eqn:Hc; [|reflexivity].
  rewrite Hc. cbn. rewrite Hc. cbn. rewrite Hc. reflexivity.
Qed.

(** The body of the loop, after the transfer. *)
Lemma evaluate_batch_unfold vqg u args b preds gts w :
  evaluate_batch vqg u args b preds gts w
  = (let* alengths := lift (process_lengths u (answers b)) in
     let* outputs :=
       if from_answer args
       then call_method vqg "predict_from_answer" (images b) [answers b; alengths]
       else call_method vqg "predict_from_category" (images b) [categories b] in
     let* n := lift (size0 (images b)) in
     lift (collect u outputs (questions b) 0 n preds gts)) w.
Proof.
  unfold evaluate_batch.
  erewrite bind_Ok by reflexivity. cbv beta.
  erewrite bind_Ok by apply transfer_batch. reflexivity.
Qed.

(** C3 (the code at the failing input).  In the from-answer mode the
    first batch of the loader ends the evaluation: the harness asks the
    model for [predict_from_answer], which class [IQ] does not have. *)
Theorem evaluate_from_answer_raises vqg b rest u args w alengths :
  from_answer args = true ->
  process_lengths u (answers b) = Ok alengths ->
  evaluate vqg (b :: rest) u args w
  = Raise (AttributeError "IQ" "predict_from_answer").
Proof.
  intros Hmode Hlen. unfold evaluate. apply bind_Raise.
  cbn [evaluate_loop]. apply bind_Raise.
  rewrite evaluate_batch_unfold. run_lift Hlen. apply bind_Raise.
  rewrite Hmode. unfold call_method. rewrite no_predict_from_answer.
  reflexivity.
Qed.

Lemma evaluate_loop_app vqg u args l1 l2 :
  forall preds gts w r w',
    evaluate_loop vqg u args (l1 ++ l2) preds gts w = Ok (r, w') ->
    exists preds1 gts1 w1,
      evaluate_loop vqg u args l1 preds gts w = Ok ((preds1, gts1), w1)
      /\ evaluate_loop vqg u args l2 preds1 gts1 w1 = Ok (r, w').
Proof.
  induction l1 as [|b l1 IH]; intros preds gts w r w' Hrun.
  - simpl in *. eauto.
  - cbn [evaluate_loop app] in *. run_inv Hrun.
    destruct (IH _ _ _ _ _ Hrun) as (preds1 & gts1 & w1 & H1 & H2).
    exists preds1, gts1, w1. split; [|exact H2].
    match goal with E : evaluate_batch _ _ _ _ _ _ _ = Ok _ |- _ => run_with E end.
    exact H1.
Qed.

Lemma map2_Ok_inv {A} (f : A -> A -> A) (t1 t2 t : tensor A) :
  map2 f t1 t2 = Ok t -> requires_grad t = requires_grad t1 || requires_grad t2.
Proof.
  unfold map2. destruct (broadcast_shapes (shape t1) (shape t2)); [|discriminate].
  intros [= <-]. reflexivity.
Qed.

Lemma call_requires_grad {A} (l : layer A) training (x : tensor A) w y w' :
  call l training x w = Ok (y, w') ->
  requires_grad y = grad_enabled w && (trainable l || requires_grad x).
Proof.
  unfold call.
  destruct (forward_fn l training (torch_gen w) x) as [[y0 g]|]; [|discriminate].
  intros [= <- _]. reflexivity.
Qed.

Lemma randn_like_requires_grad t w e w' :
  randn_like t w = Ok (e, w') -> requires_grad e = false.
Proof.
  intros Hrun. unfold randn_like in Hrun. run_inv Hrun.
  apply ret_Ok_inv in Hrun as [-> _]. reflexivity.
Qed.

Lemma sample_requires_grad d w e w' :
  sample d w = Ok (e, w') -> requires_grad e = false.
Proof.
  intros Hrun. unfold sample in Hrun. run_inv Hrun.
  apply ret_Ok_inv in Hrun as [-> _]. reflexivity.
Qed.

Lemma reparameterize_prev_requires_grad self mu logvar w z w' :
  reparameterize_prev self mu logvar w = Ok (z, w') ->
  requires_grad z = grad_enabled w && (requires_grad logvar || requires_grad mu).
Proof.
  intros Hrun. unfold reparameterize_prev in Hrun. run_inv Hrun.
  apply recorded_Ok_inv in Hrun as (t & Ht & -> & ->).
  apply map2__Ok_inv in Ht as [_ Ht].
  match goal with
  | E : recorded _ _ = Ok _ |- _ => apply recorded_Ok_inv in E as (t1 & Ht1 & -> & ->)
  end.
  apply map2_Ok_inv in Ht1.
  match goal with
  | E : randn_like _ _ = Ok _ |- _ =>
      pose proof (keeps_modes_randn_like _ _ _ _ E) as [_ Hg];
      apply randn_like_requires_grad in E
  end.
  cbn [requires_grad map1] in *. rewrite Ht, Ht1, Hg.
  match goal with E : requires_grad _ = false |- _ => rewrite E end.
  destruct (grad_enabled w), (requires_grad logvar), (requires_grad mu); reflexivity.
Qed.

Lemma reparameterize_requires_grad self mu logvar w z w' :
  reparameterize self mu logvar w = Ok (z, w') ->
  requires_grad z = grad_enabled w && (requires_grad logvar || requires_grad mu).
Proof.
  intros Hrun. unfold reparameterize in Hrun. run_inv Hrun.
  apply ret_Ok_inv in Hrun as [-> _].
  repeat match goal with
         | E : recorded _ _ = Ok _ |- _ =>
             let t := fresh "t" in
             let Ht := fresh "Ht" in
             apply recorded_Ok_inv in E as (t & Ht & -> & ->)
         end.
  repeat match goal with
         | E : map2_ _ _ _ = Ok _ |- _ => apply map2__Ok_inv in E as [_ E]
         | E : map2 _ _ _ = Ok _ |- _ => apply map2_Ok_inv in E
         end.
  match goal with
  | E : sample _ _ = Ok _ |- _ =>
      pose proof (keeps_modes_sample _ _ _ _ E) as [_ Hg];
      apply sample_requires_grad in E
  end.
  repeat match goal with
         | E : lift _ _ = Ok _ |- _ => apply lift_Ok_inv in E as [_ ->]
         | E : cuda _ _ = Ok _ |- _ =>
             pose proof (keeps_modes_cuda _ _ _ _ E) as [_ ?]; clear E
         end.
  cbn [requires_grad map1] in *.
  repeat match goal with
         | E : requires_grad _ = _ |- _ => rewrite E; clear E
         end.
  repeat match goal with
         | E : grad_enabled _ = grad_enabled _ |- _ => rewrite E in *; clear E
         end.
  destruct (grad_enabled w), (requires_grad logvar), (requires_grad mu); reflexivity.
Qed.

(** Autograd records the latent sample exactly when recording is
    enabled. *)
Lemma encode_into_t_tracked self f c w mus logvars zs w' m :
  encode_into_t self f c w = Ok ((mus, logvars, zs), w') ->
  category self = Some m -> trainable (mu_category_encoder m) = true ->
  requires_grad zs = grad_enabled w.
Proof.
  intros Hrun Hm Ht. unfold encode_into_t, category_attr in Hrun.
  rewrite Hm in Hrun. run_inv Hrun.
  apply ret_Ok_inv in Hrun as [[= -> -> ->] ->].
  repeat match goal with
         | E : ret _ _ = Ok _ |- _ => apply ret_Ok_inv in E as [-> ->]
         | E : lift _ _ = Ok _ |- _ => apply lift_Ok_inv in E as [E ->]
         end.
  match goal with
  | E : (if bayes self then _ ?cm ?cl else _) ?w3 = Ok (?z, _) |- _ =>
      assert (Hz : requires_grad z
                   = grad_enabled w3 && (requires_grad cl || requires_grad cm))
        by (destruct (bayes self);
            [eapply reparameterize_requires_grad
            |eapply reparameterize_prev_requires_grad]; exact E)
  end.
  track_modes.
  repeat match goal with
         | E : call _ _ _ _ = Ok _ |- _ => apply call_requires_grad in E
         end.
  rewrite Hz. cbn [map1 requires_grad].
  repeat match goal with
         | E : requires_grad _ = _ |- _ => rewrite E; clear E
         | S : same_modes _ _ |- _ => destruct S as [_ S]
         end.
  rewrite Ht.
  repeat match goal with
         | E : grad_enabled _ = grad_enabled _ |- _ => rewrite E in *; clear E
         end.
  destruct (grad_enabled w); simpl; [apply orb_true_r|reflexivity].
Qed.

Lemma encode_from_category_tracked self images categories w feats ts w' m :
  encode_from_category self images categories w = Ok ((feats, ts), w') ->
  category self = Some m -> trainable (mu_category_encoder m) = true ->
  requires_grad ts = grad_enabled w.
Proof.
  intros Hrun Hm Ht. unfold encode_from_category in Hrun. run_inv Hrun.
  apply ret_Ok_inv in Hrun as [[= -> ->] ->]. track_modes.
  match goal with
  | E : encode_into_t _ _ _ _ = Ok _ |- _ =>
      rewrite (encode_into_t_tracked _ _ _ _ _ _ _ _ _ E Hm Ht)
  end.
  repeat match goal with S : same_modes _ _ |- _ => destruct S as [_ S] end.
  congruence.
Qed.

(** A batch that the loop gets through was predicted from its
    categories. *)
Lemma evaluate_batch_Ok_inv vqg u args b preds gts w out w' :
  evaluate_batch vqg u args b preds gts w = Ok (out, w') ->
  from_answer args = false
  /\ exists tokens w1,
      predict_from_category vqg (images b) (categories b) None 0 log_softmax w
      = Ok (tokens, w1).
Proof.
  rewrite evaluate_batch_unfold. intros Hrun. run_inv Hrun.
  repeat match goal with
         | E : lift _ _ = Ok _ |- _ => apply lift_Ok_inv in E as [_ ->]
         end.
  destruct (from_answer args).
  - match goal with
    | E : call_method _ _ _ _ _ = Ok _ |- _ =>
        unfold call_method in E; rewrite no_predict_from_answer in E;
        discriminate E
    end.
  - split; [reflexivity|].
    match goal with
    | E : call_method _ _ _ _ _ = Ok _ |- _ =>
        unfold call_method in E; rewrite has_predict_from_category in E;
        rewrite bool_decide_eq_true_2 in E by reflexivity;
        cbv beta iota in E; do 2 eexists; exact E
    end.
Qed.

Lemma evaluate_Ok_inv vqg u args before b after w scores gts preds vqg' w' :
  evaluate vqg (before ++ b :: after) u args w
    = Ok ((scores, gts, preds, vqg'), w') ->
  vqg' = eval_mode vqg /\ same_modes w w'
  /\ exists preds1 gts1 w1 out w2,
      same_modes w w1
      /\ evaluate_batch (eval_mode vqg) u args b preds1 gts1 w1 = Ok (out, w2).
Proof.
  intros Hrun. unfold evaluate in Hrun. run_inv Hrun.
  apply ret_Ok_inv in Hrun as [[= _ _ _ ->] ->].
  match goal with E : lift _ _ = Ok _ |- _ => apply lift_Ok_inv in E as [_ ->] end.
  match goal with
  | E : evaluate_loop _ _ _ _ _ _ _ = Ok _ |- _ =>
      pose proof (keeps_modes_evaluate_loop _ _ _ _ _ _ _ _ _ E) as Hm;
      apply evaluate_loop_app in E as (preds1 & gts1 & w1 & H1 & H2)
  end.
  split; [reflexivity|]. split; [exact Hm|].
  pose proof (keeps_modes_evaluate_loop _ _ _ _ _ _ _ _ _ H1) as Hm1.
  cbn [evaluate_loop] in H2. run_inv H2.
  match goal with
  | E : evaluate_batch _ _ _ _ _ _ _ = Ok _ |- _ =>
      do 5 eexists; split; [exact Hm1|exact E]
  end.
Qed.

(** C8 (as amended).  When the evaluation pass over a loader returns,
    the model it leaves is the model it was given with the [training]
    flag off and every other attribute, the parameters among them, as
    before; every batch of the loader was predicted by that model in
    eval mode, from its categories.  The autograd mode is left alone:
    each batch is predicted in the mode in which [evaluate] was called,
    and autograd records the latent sample of the batch exactly when
    that mode is on, as it is by default. *)
Theorem evaluate_in_eval_mode_autograd_untouched
    vqg u args before b after w scores gts preds vqg' w' :
  evaluate vqg (before ++ b :: after) u args w
    = Ok ((scores, gts, preds, vqg'), w') ->
  (vqg' = eval_mode vqg /\ training vqg' = false
   /\ alpha vqg' = alpha vqg /\ encoder_cnn vqg' = encoder_cnn vqg
   /\ category vqg' = category vqg /\ t_decoder vqg' = t_decoder vqg
   /\ gen_decoder vqg' = gen_decoder vqg /\ decoder vqg' = decoder vqg)
  /\ same_modes w w'
  /\ exists w1 feats zs w2 tokens w3,
      same_modes w w1
      /\ encode_from_category (eval_mode vqg) (images b) (categories b) w1
         = Ok ((feats, zs), w2)
      /\ predict_from_category (eval_mode vqg) (images b) (categories b)
           None 0 log_softmax w1 = Ok (tokens, w3)
      /\ forall m, category vqg = Some m ->
                   trainable (mu_category_encoder m) = true ->
                   requires_grad zs = grad_enabled w.
Proof.
  intros Hrun.
  apply evaluate_Ok_inv in Hrun
    as (-> & Hm & preds1 & gts1 & w1 & out & w2 & Hm1 & Hb).
  split; [repeat split|]. split; [exact Hm|].
  apply evaluate_batch_Ok_inv in Hb as (_ & tokens & w3 & Hp).
  pose proof Hp as Hp'. unfold predict_from_category in Hp'. run_inv Hp'.
  match goal with
  | E : encode_from_category _ _ _ _ = Ok _ |- _ =>
      do 6 eexists; split; [exact Hm1|]; split; [exact E|]; split; [exact Hp|];
      intros m Hc Ht;
      rewrite (encode_from_category_tracked _ _ _ _ _ _ _ m E Hc Ht)
  end.
  destruct Hm1 as [_ ->]. reflexivity.
Qed.

(** C10.  On a model built with [bayes=True] and a machine without a
    CUDA device, [reparameterize] raises at its unconditional [.cuda()],
    so the encode step, [encode_from_category],
    [predict_from_category] and the evaluation of any loader with a
    batch all raise; the harness itself moves a batch to the device
    only when there is one, and so gets as far as the prediction. *)
Theorem bayes_prediction_needs_cuda self w :
  bayes self = true -> cuda_available w = false ->
  (forall mu logvar, reparameterize self mu logvar w = Raise CudaUnavailable)
  /\ (forall f c, exists e, encode_into_t self f c w = Raise e)
  /\ (forall images categories,
         exists e, encode_from_category self images categories w = Raise e)
  /\ (forall images categories questions ratio function,
         exists e, predict_from_category self images categories questions
                     ratio function w = Raise e)
  /\ (forall b,
         (if cuda_available w then
            let* images := cuda (images b) in
            let* answers := cuda (answers b) in
            let* categories := cuda (categories b) in
            ret (images, answers, categories)
          else ret (images b, answers b, categories b)) w
         = Ok ((images b, answers b, categories b), w))
  /\ (forall before b after u args,
         exists e, evaluate self (before ++ b :: after) u args w = Raise e).
Proof.
  intros Hb Hw.
  split; [intros; apply reparameterize_no_cuda; exact Hw|].
  split; [intros; apply encode_into_t_no_cuda; assumption|].
  split; [intros; apply encode_from_category_no_cuda; assumption|].
  split; [intros; apply predict_from_category_no_cuda; assumption|].
  split; [intros; apply transfer_batch|].
  intros before b after u args.
  destruct (evaluate self (before ++ b :: after) u args w)
    as [[[[[scores gts] preds] vqg'] w']|e] eqn:Hrun; [exfalso|eauto].
  apply evaluate_Ok_inv in Hrun
    as (_ & _ & preds1 & gts1 & w1 & out & w2 & [Hc _] & Hrun).
  apply evaluate_batch_Ok_inv in Hrun as (_ & tokens & w3 & Hp).
  destruct (predict_from_category_no_cuda (eval_mode self) (images b)
              (categories b) None 0 log_softmax w1) as [e He].
  - exact Hb.
  - congruence.
  - congruence.
Qed.

End EvaluateFacts.

(** ** The script *)

Section ScriptFacts.

Lemma layout_main_block :
  Script.layout Script.first_line [0] 0 Script.main_block
  = Raise (IndentationError 220).
Proof. vm_compute. reflexivity. Qed.

(** C9.  Whatever the command line, and whatever running the module
    would do, running [evaluate.py] as a script raises
    [IndentationError] at line 220, the [--dataset] call of the
    argument-parsing block, indented by three columns inside a block
    indented by four; nothing of the module is executed. *)
Theorem script_stops_at_indentation {A} (exec : list Script.token -> list string -> M A)
    (argv : list string) (w : world) :
  Script.run_script exec argv w = Raise (IndentationError 220).
Proof. unfold Script.run_script. rewrite layout_main_block. reflexivity. Qed.

End ScriptFacts.

(** ** The claims on the concrete model *)

Section Concrete.
#[local] Existing Instance Demo.runtime.

Lemma constant_valid {A} x out : layer_valid (@Demo.constant A x out).
Proof.
  intros training g t y g'. unfold Demo.constant. cbn [forward_fn].
  destruct (shape t) as [|b rest]; [discriminate|]. intros [= <- _].
  unfold valid. cbn [data shape numel foldr]. rewrite length_replicate. lia.
Qed.

(** C1 on the concrete model. *)
Lemma forward_never_returns_witness :
  well_formed Demo.plain Demo.small_sizes
  /\ batch_fits Demo.plain Demo.small_sizes 2 Demo.pictures Demo.kinds
  /\ value_of (forward Demo.plain Demo.pictures Demo.kinds Demo.kinds None None 0
                 log_softmax (fresh_world false 1234))
     = Raise (NameError "mus")
  /\ (exists tokens w',
         predict_from_category Demo.plain Demo.pictures Demo.kinds None 0
           log_softmax (fresh_world false 1234) = Ok (tokens, w')).
Proof.
  destruct forward_never_returns_prediction_paths_do as [Hforward Hpaths].
  split; [apply demo_well_formed|]. split; [apply demo_batch_fits|]. split.
  - rewrite Hforward. vm_compute. reflexivity.
  - apply (Hpaths Demo.plain Demo.small_sizes Demo.pictures Demo.kinds 2).
    + apply demo_well_formed.
    + apply demo_batch_fits.
    + apply demo_can_sample_plain.
Defined.

(** C2 on a zero entry of [alpha], and on an infinite one. *)
Lemma noise_scale_witness :
  is_zero zero = true /\ is_pos one = true
  /\ within (of_Z (-2)) (of_Z 2) one = true
  /\ is_finite (S754_infinity true) = false
  /\ noise_scale zero = max_float
  /\ noise_scale (S754_infinity true) = zero
  /\ add (add (mul (add (mul (of_Z 2) (noise_scale zero)) zero) one) one) tiny
     = S754_infinity false
  /\ is_finite
       (add (add (mul (add (mul (of_Z 2) (noise_scale zero)) zero) one) S754_nan) tiny)
     = false.
Proof.
  destruct noise_scale_finite_zero_alpha_gives_max_float
    as (_ & _ & Hzero & Hinf & Hsample & Hany).
  split; [reflexivity|]. split; [reflexivity|]. split; [reflexivity|].
  split; [reflexivity|]. split; [|split; [|split]].
  - apply (Hzero zero). reflexivity.
  - apply (Hinf (S754_infinity true)). reflexivity.
  - apply (Hsample zero one one); reflexivity.
  - apply (Hany zero one S754_nan); reflexivity.
Defined.

(** C2, the claim as stated, on the scaled-noise model whose [alpha] is
    [[0.0]], with the clamped mean and log-variance [0.0] and the
    deviate [2.0]: the noise scale of the zero entry is the largest
    finite value, not zero, and the latent sample is [+Inf]. *)
Lemma zero_alpha_scale_is_not_zero_sample_is_infinite :
  data (alpha Demo.scaled_zero) = [zero]
  /\ noise_scale zero = max_float /\ noise_scale zero <> zero
  /\ within (of_Z (-2)) (of_Z 2) zero = true
  /\ within (of_Z (-20)) (of_Z 20) zero = true
  /\ exists z w',
      reparameterize Demo.scaled_zero (Demo.feature zero) (Demo.feature zero)
        (fresh_world true 1234) = Ok (z, w')
      /\ data z = [S754_infinity false]
      /\ forallb is_finite (data z) = false.
Proof.
  split; [reflexivity|]. split; [reflexivity|]. split; [discriminate|].
  split; [reflexivity|]. split; [reflexivity|].
  do 2 eexists. split; [lazy; reflexivity|]. split; reflexivity.
Qed.

(** C3 on the concrete model and batch. *)
Lemma evaluate_from_answer_raises_witness :
  from_answer Demo.from_answer_args = true
  /\ evaluate Demo.plain [Demo.one_batch] Demo.utils Demo.from_answer_args
       (fresh_world false 1234)
     = Raise (AttributeError "IQ" "predict_from_answer").
Proof.
  split; [reflexivity|].
  apply (evaluate_from_answer_raises Demo.plain Demo.one_batch [] Demo.utils
           Demo.from_answer_args (fresh_world false 1234)
           (Tensor [2] [2; 2]%Z false));
    reflexivity.
Defined.

(** C4 on the concrete model. *)
Lemma encode_into_t_clamps_witness :
  exists mus logvars zs w' cm attended w1 raw_mus w2,
    encode_into_t Demo.plain (Demo.feature one) (Demo.feature one)
      (fresh_world false 1234) = Ok ((mus, logvars, zs), w')
    /\ category Demo.plain = Some cm
    /\ call (mu_category_encoder cm) (training Demo.plain) attended w1
       = Ok (raw_mus, w2)
    /\ mus = map1 (clamp (of_Z (-2)) (of_Z 2)) raw_mus
    /\ Forall2 (fun r x => if is_nan r then is_nan x = true
                           else within (of_Z (-2)) (of_Z 2) x = true)
         (data raw_mus) (data mus).
Proof.
  destruct (encode_into_t Demo.plain (Demo.feature one) (Demo.feature one)
              (fresh_world false 1234))
    as [[[[mus logvars] zs] w']|e] eqn:Hrun; [|vm_compute in Hrun; discriminate Hrun].
  destruct (encode_into_t_clamps _ _ _ _ _ _ _ _ Hrun)
    as (cm & together & attended & w1 & raw_mus & w2 & raw_logvars & w3
        & Hcm & _ & _ & Hmu & _ & Hmus & _ & Hpoint & _).
  exists mus, logvars, zs, w', cm, attended, w1, raw_mus, w2.
  split; [reflexivity|]. split; [exact Hcm|]. split; [exact Hmu|].
  split; [exact Hmus|exact Hpoint].
Defined.

(** C4, the claim as stated, on the model whose mean projection is
    [x1 - x2]: for the features [+Inf] and [+Inf] the projection is NaN,
    the returned mean is NaN, outside [-2, 2], and so is the latent
    sample computed from it. *)
Lemma nan_projection_is_returned :
  exists mus logvars zs w',
    encode_into_t Demo.difference (Demo.feature (S754_infinity false))
      (Demo.feature (S754_infinity false)) (fresh_world false 1234)
    = Ok ((mus, logvars, zs), w')
    /\ data mus = [S754_nan]
    /\ Forall (fun x => within (of_Z (-2)) (of_Z 2) x = false) (data mus)
    /\ data zs = [S754_nan].
Proof.
  do 4 eexists. split; [lazy; reflexivity|].
  split; [reflexivity|]. split; [repeat constructor|reflexivity].
Qed.

(** C5 on the concrete model: two examples, three steps. *)
Lemma predict_from_category_token_matrix_witness :
  well_formed Demo.plain Demo.small_sizes
  /\ batch_fits Demo.plain Demo.small_sizes 2 Demo.pictures Demo.kinds
  /\ exists tokens w',
      predict_from_category Demo.plain Demo.pictures Demo.kinds None 0
        log_softmax (fresh_world false 1234) = Ok (tokens, w')
      /\ shape tokens = [2; 3].
Proof.
  split; [apply demo_well_formed|]. split; [apply demo_batch_fits|].
  apply (predict_from_category_token_matrix Demo.plain Demo.small_sizes
           Demo.pictures Demo.kinds None 0 log_softmax 2 (fresh_world false 1234)).
  - apply demo_well_formed.
  - apply demo_batch_fits.
  - apply demo_can_sample_plain.
  - apply log_softmax_keeps_shape.
  - left. reflexivity.
Defined.

(** C6 on the concrete model. *)
Lemma predict_from_category_reproducible_witness :
  exists tokens w1,
    predict_from_category Demo.plain Demo.pictures Demo.kinds None 0 log_softmax
      (manual_seed 1234 (fresh_world false 0)) = Ok (tokens, w1)
    /\ value_of (predict_from_category Demo.plain Demo.pictures Demo.kinds None 0
                   log_softmax (manual_seed 1234 w1)) = Ok tokens.
Proof.
  destruct (predict_from_category Demo.plain Demo.pictures Demo.kinds None 0
              log_softmax (manual_seed 1234 (fresh_world false 0)))
    as [[tokens w1]|e] eqn:Hrun; [|vm_compute in Hrun; discriminate Hrun].
  exists tokens, w1. split; [reflexivity|].
  exact (predict_from_category_reproducible _ _ _ _ _ _ _ _ _ Hrun).
Defined.

(** C7 on the concrete model: two layers, an LSTM. *)
Lemma initial_hidden_layers_identical_witness :
  layer_valid (t_decoder Demo.plain) /\ layer_valid (gen_decoder Demo.plain)
  /\ exists h w' hiddens layer,
      initial_hidden Demo.plain (Some (Demo.feature one)) (Demo.feature one)
        (fresh_world false 1234) = Ok (h, w')
      /\ h = HPair hiddens hiddens
      /\ select0 0 hiddens = Ok layer /\ select0 1 hiddens = Ok layer.
Proof.
  split; [apply constant_valid|]. split; [apply constant_valid|].
  destruct (initial_hidden_layers_identical Demo.plain (Some (Demo.feature one))
              (Demo.feature one) (fresh_world false 1234)
              (constant_valid zero 1) (constant_valid one 2))
    as [Hlayers Hbuilt].
  destruct (Hbuilt Demo.small_sizes (Demo.feature one) 1
              (demo_well_formed false one) eq_refl eq_refl eq_refl)
    as (h & w' & Hrun).
  destruct (Hlayers h w' Hrun) as (hiddens & b & layer & _ & Hh & _ & _ & Hsel).
  exists h, w', hiddens, layer. split; [exact Hrun|]. split; [exact Hh|].
  split; apply Hsel; cbn; lia.
Defined.

(** C8 on the concrete model and a loader of one batch. *)
Lemma evaluate_in_eval_mode_witness :
  exists scores gts preds vqg' w',
    evaluate Demo.plain ([] ++ Demo.one_batch :: []) Demo.utils
      Demo.from_category_args (fresh_world false 1234)
    = Ok ((scores, gts, preds, vqg'), w')
    /\ training vqg' = false /\ alpha vqg' = alpha Demo.plain
    /\ same_modes (fresh_world false 1234) w'.
Proof.
  destruct (evaluate Demo.plain ([] ++ Demo.one_batch :: []) Demo.utils
              Demo.from_category_args (fresh_world false 1234))
    as [[[[[scores gts] preds] vqg'] w']|e] eqn:Hrun;
    [|vm_compute in Hrun; discriminate Hrun].
  exists scores, gts, preds, vqg', w'. split; [reflexivity|].
  destruct (evaluate_in_eval_mode_autograd_untouched _ _ _ _ _ _ _ _ _ _ _ _ Hrun)
    as ((_ & Htraining & Halpha & _) & Hmodes & _).
  repeat split; try assumption; apply Hmodes.
Defined.

(** C8, the claim as stated, on the concrete model and a loader of one
    batch, in the state a fresh interpreter is in: the pass returns;
    the prediction of its batch starts with autograd recording, and the
    latent sample it computes is recorded for gradients. *)
Lemma evaluation_records_gradients :
  is_ok (evaluate Demo.plain [Demo.one_batch] Demo.utils Demo.from_category_args
           (fresh_world false 1234)) = true
  /\ grad_enabled (fresh_world false 1234) = true
  /\ exists feats zs w',
      encode_from_category (eval_mode Demo.plain) (images Demo.one_batch)
        (categories Demo.one_batch) (fresh_world false 1234)
      = Ok ((feats, zs), w')
      /\ requires_grad zs = true /\ grad_enabled w' = true.
Proof.
  split; [vm_compute; reflexivity|]. split; [reflexivity|].
  do 3 eexists. split; [lazy; reflexivity|]. split; reflexivity.
Qed.

(** C10 on the scaled-noise model, on a machine without CUDA. *)
Lemma bayes_prediction_needs_cuda_witness :
  bayes Demo.scaled_one = true
  /\ cuda_available (fresh_world false 1234) = false
  /\ (exists e, predict_from_category Demo.scaled_one Demo.pictures Demo.kinds
                  None 0 log_softmax (fresh_world false 1234) = Raise e)
  /\ (exists e, evaluate Demo.scaled_one ([] ++ Demo.one_batch :: []) Demo.utils
                  Demo.from_category_args (fresh_world false 1234) = Raise e).
Proof.
  split; [reflexivity|]. split; [reflexivity|].
  destruct (bayes_prediction_needs_cuda Demo.scaled_one (fresh_world false 1234)
              eq_refl eq_refl) as (_ & _ & _ & Hpredict & _ & Hevaluate).
  split; [apply Hpredict|apply Hevaluate].
Defined.

(** With a device the same model predicts. *)
Lemma scaled_model_predicts_with_cuda :
  exists tokens w',
    predict_from_category Demo.scaled_one Demo.pictures Demo.kinds None 0
      log_softmax (fresh_world true 1234) = Ok (tokens, w')
    /\ shape tokens = [2; 3].
Proof.
  apply (predict_from_category_returns Demo.scaled_one Demo.small_sizes
           (demo_well_formed true one) Demo.pictures Demo.kinds None 0
           log_softmax 2 (fresh_world true 1234)).
  - apply demo_batch_fits.
  - apply demo_can_sample_scaled.
  - apply log_softmax_keeps_shape.
  - left. reflexivity.
Qed.

End Concrete.


(** * Further properties of the code *)

(** ** [parse_outputs_to_tokens] *)

Section ParseFacts.

Lemma chunks_length {A} n k (l : list A) : length (chunks n k l) = k.
Proof. revert l. induction k as [|k IH]; intros l; simpl; [|rewrite IH]; reflexivity. Qed.

Lemma chunks_lookup {A} n k (l : list A) j :
  j < k -> chunks n k l !! j = Some (take n (drop (j * n) l)).
Proof.
  revert l j. induction k as [|k IH]; intros l j Hj; [lia|].
  destruct j as [|j]; simpl; [reflexivity|].
  rewrite IH by lia. rewrite drop_drop. reflexivity.
Qed.

Lemma chunks_mjoin {A} n (ds : list (list A)) :
  Forall (fun d => length d = n) ds -> chunks n (length ds) (mjoin ds) = ds.
Proof.
  induction 1 as [|d ds Hd _ IH]; simpl; [reflexivity|].
  rewrite take_app_length' by (symmetry; exact Hd).
  rewrite drop_app_length' by (symmetry; exact Hd).
  rewrite IH. reflexivity.
Qed.

Lemma take_drop_mjoin {A} n (ls : list (list A)) :
  Forall (fun r => length r = n) ls ->
  forall j r, ls !! j = Some r -> take n (drop (j * n) (mjoin ls)) = r.
Proof.
  induction 1 as [|d ls Hd _ IH]; intros j r Hj; [discriminate|].
  destruct j as [|j]; simpl in *.
  - injection Hj as ->. apply take_app_length'. symmetry. exact Hd.
  - rewrite drop_app_add' by (symmetry; exact Hd). apply IH. exact Hj.
Qed.

(** The indices [max(1)[1]] gives for a matrix of scores. *)
Lemma max1_indices_eq (o : tensor f32) b v :
  shape o = [b; v] -> 1 <= v ->
  max1_indices o
  = Ok (Tensor [b] ((fun r => Z.of_nat (argmax r)) <$> chunks v b (data o)) false).
Proof.
  intros Hs Hv. rewrite (max1_indices_matrix o b v Hs).
  destruct v; [lia|]. reflexivity.
Qed.

Lemma traverse_max1_indices_eq outs b v :
  1 <= v -> Forall (fun o : tensor f32 => shape o = [b; v]) outs ->
  traverse max1_indices outs
  = Ok ((fun o => Tensor [b] ((fun r => Z.of_nat (argmax r)) <$> chunks v b (data o))
                    false) <$> outs).
Proof.
  intros Hv. induction 1 as [|o outs Ho _ IH]; simpl; [reflexivity|].
  rewrite (max1_indices_eq o b v Ho Hv), IH. reflexivity.
Qed.

Lemma traverse_Ok_inv {A B} (f : A -> result B) l ys :
  traverse f l = Ok ys -> Forall2 (fun x y => f x = Ok y) l ys.
Proof.
  revert ys. induction l as [|x l IH]; simpl; intros ys.
  - intros [= <-]. constructor.
  - destruct (f x) as [y|] eqn:Hx; [|discriminate].
    destruct (traverse f l) as [ys'|]; [|discriminate].
    intros [= <-]. constructor; auto.
Qed.

Lemma max1_indices_Ok_inv (o : tensor f32) i :
  max1_indices o = Ok i ->
  exists b v rest, shape o = b :: v :: rest /\ 1 <= v /\ shape i = b :: rest.
Proof.
  unfold max1_indices.
  destruct (shape o) as [|b [|v rest]]; try discriminate.
  destruct (v =? 0) eqn:Hv; [discriminate|]. apply Nat.eqb_neq in Hv.
  intros [= <-]. exists b, v, rest. repeat split. lia.
Qed.

Lemma max1_indices_returns (o : tensor f32) b v rest :
  shape o = b :: v :: rest -> 1 <= v ->
  exists i, max1_indices o = Ok i /\ shape i = b :: rest.
Proof.
  intros Hs Hv. unfold max1_indices. rewrite Hs.
  destruct v; [lia|]. eexists. split; reflexivity.
Qed.

Lemma take_one_drop {A} (r : list A) j : take 1 (drop j r) = option_list (r !! j).
Proof.
  revert j. induction r as [|x r IH]; intros [|j]; try reflexivity.
  apply IH.
Qed.

(** On a matrix [transpose01] exchanges rows and columns. *)
Lemma transpose01_matrix {A} (t : tensor A) l b :
  shape t = [l; b] ->
  transpose01 t
  = Ok (Tensor [b; l]
          (mjoin ((fun j =>
                     mjoin ((fun r => option_list (r !! j)) <$> chunks b l (data t)))
                  <$> seq 0 b))
          (requires_grad t)).
Proof.
  intros Hs. unfold transpose01. rewrite Hs. cbn [numel foldr].
  rewrite Nat.mul_1_r. f_equal. f_equal. f_equal.
  apply Forall_fmap_ext_1, Forall_forall. intros j _. simpl. f_equal.
  apply Forall_fmap_ext_1, Forall_forall. intros r _. simpl.
  rewrite Nat.mul_1_r. apply take_one_drop.
Qed.

(** The token at row [j] of step [o]. *)
Lemma step_token_lookup (o : tensor f32) b v j :
  j < b ->
  ((fun r => Z.of_nat (argmax r)) <$> chunks v b (data o)) !! j
  = Some (Z.of_nat (argmax (take v (drop (j * v) (data o))))).
Proof. intros Hj. rewrite list_lookup_fmap, chunks_lookup by exact Hj. reflexivity. Qed.

Lemma transposed_row outs b v j :
  j < b ->
  mjoin ((fun r : list Z => option_list (r !! j))
         <$> ((fun o : tensor f32 =>
                 (fun r => Z.of_nat (argmax r)) <$> chunks v b (data o)) <$> outs))
  = (fun o => Z.of_nat (argmax (take v (drop (j * v) (data o))))) <$> outs.
Proof.
  intros Hj. induction outs as [|o outs IH]; simpl; [reflexivity|].
  rewrite (step_token_lookup o b v j Hj). simpl. f_equal. exact IH.
Qed.

Lemma existsb_requires_grad_indices (outs : list (tensor f32)) (g : tensor f32 -> list Z)
    (s : list nat) :
  existsb requires_grad ((fun o => Tensor s (g o) false) <$> outs) = false.
Proof. induction outs as [|o outs IH]; simpl; [reflexivity|exact IH]. Qed.

Lemma stack_eq {A} (ts : list (tensor A)) s :
  ts <> [] -> Forall (fun t => shape t = s) ts ->
  stack ts = Ok (Tensor (length ts :: s) (mjoin (data <$> ts)) (existsb requires_grad ts)).
Proof.
  intros Hne Hall. unfold stack. destruct ts as [|t ts']; [congruence|].
  assert (Ht : shape t = s) by (inversion Hall; assumption).
  rewrite forallb_Forall.
  - rewrite Ht. reflexivity.
  - eapply Forall_impl; [exact Hall|]. intros t' Ht'. simpl in Ht'.
    apply bool_decide_eq_true_2. congruence.
Qed.

(** What [parse_outputs_to_tokens] returns for the scores of at least
    one step over a common batch and vocabulary. *)
Lemma parse_outputs_to_tokens_eq outs b v :
  outs <> [] -> 1 <= v ->
  Forall (fun o : tensor f32 => shape o = [b; v]) outs ->
  parse_outputs_to_tokens outs
  = Ok (Tensor [b; length outs]
          (mjoin ((fun j =>
                     (fun o => Z.of_nat (argmax (take v (drop (j * v) (data o)))))
                     <$> outs) <$> seq 0 b))
          false).
Proof.
  intros Hne Hv Hall. unfold parse_outputs_to_tokens.
  rewrite (traverse_max1_indices_eq outs b v Hv Hall).
  set (G := fun o : tensor f32 =>
              Tensor [b] ((fun r => Z.of_nat (argmax r)) <$> chunks v b (data o)) false).
  rewrite (stack_eq (G <$> outs) [b]).
  2:{ destruct outs; [congruence|discriminate]. }
  2:{ apply Forall_fmap, Forall_forall. intros o' _. reflexivity. }
  unfold G at 3. rewrite existsb_requires_grad_indices.
  rewrite (transpose01_matrix
             (Tensor [length (G <$> outs); b] (mjoin (data <$> (G <$> outs))) false)
             (length (G <$> outs)) b eq_refl).
  cbn [shape data requires_grad].
  rewrite length_fmap. f_equal. f_equal. f_equal.
  rewrite <- list_fmap_compose.
  set (D := fun o : tensor f32 =>
              (fun r => Z.of_nat (argmax r)) <$> chunks v b (data o)).
  change (data ∘ G) with D.
  assert (Hlen : Forall (fun d : list Z => length d = b) (D <$> outs)).
  { apply Forall_fmap, Forall_forall. intros o' _. unfold D. simpl.
    rewrite length_fmap. apply chunks_length. }
  replace (length outs) with (length (D <$> outs)) by apply length_fmap.
  rewrite (chunks_mjoin b _ Hlen).
  apply Forall_fmap_ext_1, Forall_forall. intros j Hj.
  apply elem_of_seq in Hj.
  apply (transposed_row outs b v j). lia.
Qed.

End ParseFacts.

Section ParseProperties.

Lemma stack_Ok_inv {A} (ts : list (tensor A)) t :
  stack ts = Ok t ->
  ts <> [] /\ exists s, Forall (fun t' => shape t' = s) ts /\ shape t = length ts :: s.
Proof.
  unfold stack. destruct ts as [|t0 ts']; [discriminate|].
  destruct (forallb _ _) eqn:E; [|discriminate].
  intros [= <-]. split; [discriminate|]. exists (shape t0). split; [|reflexivity].
  apply Forall_forall. intros t' Ht'. apply list_elem_of_In in Ht'.
  pose proof (proj1 (forallb_forall _ _) E t' Ht') as Hb.
  apply bool_decide_eq_true_1 in Hb. exact Hb.
Qed.

Lemma max1_indices_common_batch outs idx s :
  Forall2 (fun o i => max1_indices o = Ok i) outs idx ->
  Forall (fun i : tensor Z => shape i = s) idx ->
  Forall (fun o : tensor f32 =>
            exists v, shape o = hd 0 s :: v :: tail s /\ 1 <= v) outs.
Proof.
  induction 1 as [|o i outs idx Ho _ IH]; intros Hall; constructor.
  - inversion Hall as [|? ? Hi _]; subst.
    apply max1_indices_Ok_inv in Ho as (b & v & rest & Hs & Hv & Hsi).
    exists v. rewrite Hsi. simpl. auto.
  - apply IH. inversion Hall; assumption.
Qed.

Lemma traverse_max1_indices_batch outs b rest :
  Forall (fun o : tensor f32 => exists v, shape o = b :: v :: rest /\ 1 <= v) outs ->
  exists idx, traverse max1_indices outs = Ok idx
              /\ Forall (fun i => shape i = b :: rest) idx
              /\ length idx = length outs.
Proof.
  induction 1 as [|o outs (v & Hs & Hv) _ (idx & IH & Hall & Hlen)]; simpl.
  - exists []. auto.
  - destruct (max1_indices_returns o b v rest Hs Hv) as (i & -> & Hi). rewrite IH.
    eexists. split; [reflexivity|].
    split; [constructor; assumption|]. simpl. congruence.
Qed.

Lemma length_mjoin_rows {A B} (g : nat -> A -> B) (outs : list A) (l : list nat) :
  length (mjoin ((fun j => g j <$> outs) <$> l)) = length l * length outs.
Proof.
  induction l as [|j l IH]; [reflexivity|].
  change (length ((g j <$> outs) ++ mjoin ((fun j => g j <$> outs) <$> l))
          = S (length l) * length outs).
  rewrite length_app, length_fmap, IH. reflexivity.
Qed.

Lemma parse_outputs_to_tokens_Ok_nonempty outs b v tokens :
  Forall (fun o : tensor f32 => shape o = [b; v]) outs ->
  parse_outputs_to_tokens outs = Ok tokens -> outs <> [] /\ 1 <= v.
Proof.
  intros Hall. unfold parse_outputs_to_tokens.
  destruct outs as [|o outs]; [discriminate|]. intros Hp.
  split; [discriminate|]. simpl in Hp.
  destruct (max1_indices o) as [i|] eqn:Hi; [|discriminate].
  apply max1_indices_Ok_inv in Hi as (b' & v' & rest & Hs & Hv & _).
  inversion Hall as [|? ? Ho _]; subst. rewrite Ho in Hs. injection Hs as -> -> _.
  exact Hv.
Qed.

(** X1. [parse_outputs_to_tokens] returns exactly when it is given the
    scores of at least one step, every one a tensor of two or more
    dimensions whose second dimension is not empty, all with the same
    first dimension and the same dimensions after the second; in every
    other case (no step at all, among them) it raises.  What it returns
    has the steps as its second dimension. *)
Theorem parse_outputs_to_tokens_returns_iff (outs : list (tensor f32)) :
  ((exists tokens, parse_outputs_to_tokens outs = Ok tokens)
   <-> outs <> []
       /\ exists b rest,
            Forall (fun o => exists v, shape o = b :: v :: rest /\ 1 <= v) outs)
  /\ (forall tokens b rest,
         parse_outputs_to_tokens outs = Ok tokens ->
         Forall (fun o => exists v, shape o = b :: v :: rest) outs ->
         shape tokens = b :: length outs :: rest).
Proof.
  split; [split|].
  - intros [tokens Hp]. unfold parse_outputs_to_tokens in Hp.
    destruct (traverse max1_indices outs) as [idx|] eqn:Ht; [|discriminate].
    destruct (stack idx) as [st|] eqn:Hs; [|discriminate].
    apply stack_Ok_inv in Hs as (Hne & s & Hall & _).
    apply traverse_Ok_inv in Ht. split.
    + intros ->. inversion Ht. subst. congruence.
    + exists (hd 0 s), (tail s).
      exact (max1_indices_common_batch outs idx s Ht Hall).
  - intros (Hne & b & rest & Hall).
    destruct (traverse_max1_indices_batch outs b rest Hall) as (idx & Ht & Hs & Hlen).
    unfold parse_outputs_to_tokens. rewrite Ht.
    rewrite (stack_eq idx (b :: rest));
      [|destruct idx, outs; simpl in *; congruence|exact Hs].
    unfold transpose01. cbn [shape]. eexists. reflexivity.
  - intros tokens b rest Hp Hshape. unfold parse_outputs_to_tokens in Hp.
    destruct (traverse max1_indices outs) as [idx|] eqn:Ht; [|discriminate].
    destruct (stack idx) as [st|] eqn:Hs; [|discriminate].
    apply stack_Ok_inv in Hs as (Hne & s & Hall & Hst).
    apply traverse_Ok_inv in Ht.
    pose proof (Forall2_length _ _ _ Ht) as Hlen.
    assert (Hsb : s = b :: rest).
    { destruct Ht as [|o i outs' idx' Ho Ht]; [congruence|].
      inversion Hall as [|? ? Hi _]; subst.
      inversion Hshape as [|? ? (v & Hov) _]; subst.
      apply max1_indices_Ok_inv in Ho as (b' & v' & rest' & Hs' & _ & Hsi).
      rewrite Hov in Hs'. injection Hs' as <- _ <-. exact Hsi. }
    unfold transpose01 in Hp. rewrite Hst, Hsb in Hp. injection Hp as <-.
    cbn [shape]. congruence.
Qed.

(** X2. Over a common batch of [b] examples and a vocabulary of [v]
    words, the tokens [parse_outputs_to_tokens] returns are a matrix
    with one row per example and one column per step, and every entry is
    a word of the vocabulary. *)
Theorem parse_outputs_to_tokens_in_vocabulary (outs : list (tensor f32)) b v tokens :
  Forall (fun o => shape o = [b; v]) outs ->
  parse_outputs_to_tokens outs = Ok tokens ->
  shape tokens = [b; length outs] /\ requires_grad tokens = false
  /\ valid tokens /\ in_range v tokens.
Proof.
  intros Hall Hp.
  destruct (parse_outputs_to_tokens_Ok_nonempty outs b v tokens Hall Hp) as [Hne Hv].
  rewrite (parse_outputs_to_tokens_eq outs b v Hne Hv Hall) in Hp.
  injection Hp as <-. split; [reflexivity|]. split; [reflexivity|]. split.
  - unfold valid. cbn [data shape numel foldr].
    rewrite Nat.mul_1_r, length_mjoin_rows, length_seq. reflexivity.
  - unfold in_range. cbn [data]. apply Forall_join.
    apply Forall_fmap, Forall_forall. intros j _. simpl.
    apply Forall_fmap, Forall_forall. intros o _. simpl.
    assert (Hl : length (take v (drop (j * v) (data o))) <= v)
      by (rewrite length_take; lia).
    pose proof (argmax_bound _ v Hl Hv). lia.
Qed.

(** X3. Row [j] of the returned tokens lists, step after step, the
    position of the greatest score in row [j] of that step: the steps of
    the decoder become the columns of the example. *)
Theorem parse_outputs_to_tokens_rows (outs : list (tensor f32)) b v tokens j :
  Forall (fun o => shape o = [b; v]) outs ->
  parse_outputs_to_tokens outs = Ok tokens ->
  j < b ->
  select0 j tokens
  = Ok (Tensor [length outs]
          ((fun o => Z.of_nat (argmax (take v (drop (j * v) (data o))))) <$> outs)
          false).
Proof.
  intros Hall Hp Hj.
  destruct (parse_outputs_to_tokens_Ok_nonempty outs b v tokens Hall Hp) as [Hne Hv].
  rewrite (parse_outputs_to_tokens_eq outs b v Hne Hv Hall) in Hp.
  injection Hp as <-. unfold select0. cbn [shape data requires_grad numel foldr].
  apply Nat.ltb_lt in Hj as Hjb. rewrite Hjb. apply Nat.ltb_lt in Hjb.
  rewrite Nat.mul_1_r. f_equal. f_equal.
  apply take_drop_mjoin.
  - apply Forall_fmap, Forall_forall. intros j' _. simpl. apply length_fmap.
  - rewrite list_lookup_fmap, lookup_seq_lt by exact Hj. reflexivity.
Qed.

End ParseProperties.

Section ParseConcrete.

Lemma parse_outputs_to_tokens_returns_iff_witness :
  exists tokens,
    parse_outputs_to_tokens Demo2.deep_scores = Ok tokens
    /\ shape tokens = [2; 2; 1].
Proof.
  destruct (parse_outputs_to_tokens_returns_iff Demo2.deep_scores) as [Hiff Hshape].
  destruct (proj2 Hiff) as [tokens Hp].
  - split; [discriminate|]. exists 2, [1].
    repeat constructor; exists 3; (split; [reflexivity|lia]).
  - exists tokens. split; [exact Hp|].
    apply (Hshape tokens 2 [1] Hp).
    repeat constructor; exists 3; reflexivity.
Defined.

Lemma parse_outputs_to_tokens_in_vocabulary_witness :
  Forall (fun o : tensor f32 => shape o = [2; 3]) Demo2.scores
  /\ exists tokens,
       parse_outputs_to_tokens Demo2.scores = Ok tokens
       /\ shape tokens = [2; 2] /\ requires_grad tokens = false
       /\ valid tokens /\ in_range 3 tokens.
Proof.
  split; [repeat constructor|].
  destruct (parse_outputs_to_tokens Demo2.scores) as [tokens|] eqn:Hp;
    [|vm_compute in Hp; discriminate Hp].
  exists tokens. split; [reflexivity|].
  apply (parse_outputs_to_tokens_in_vocabulary Demo2.scores 2 3 tokens);
    [repeat constructor|exact Hp].
Defined.

Lemma parse_outputs_to_tokens_rows_witness :
  Forall (fun o : tensor f32 => shape o = [2; 3]) Demo2.scores
  /\ 1 < 2
  /\ exists tokens,
       parse_outputs_to_tokens Demo2.scores = Ok tokens
       /\ select0 1 tokens
          = Ok (Tensor [2]
                  ((fun o => Z.of_nat (argmax (take 3 (drop (1 * 3) (data o)))))
                   <$> Demo2.scores) false).
Proof.
  split; [repeat constructor|]. split; [lia|].
  destruct (parse_outputs_to_tokens Demo2.scores) as [tokens|] eqn:Hp;
    [|vm_compute in Hp; discriminate Hp].
  exists tokens. split; [reflexivity|].
  apply (parse_outputs_to_tokens_rows Demo2.scores 2 3 tokens 1);
    [repeat constructor|exact Hp|lia].
Defined.

End ParseConcrete.

(** ** [evaluate]: what is collected, and the from-answer mode *)

Section EvaluateProperties.
Context `{Runtime}.

Lemma collect_Ok_inv u outputs questions n :
  forall i preds gts p g,
    collect u outputs questions i n preds gts = Ok (p, g) ->
    exists ps gs,
      p = preds ++ ps /\ g = gts ++ gs
      /\ Forall2 (fun k s => exists row, select0 k outputs = Ok row
                                         /\ tokens_to_words u row = Ok s)
           (seq i n) ps
      /\ Forall2 (fun k s => exists row, select0 k questions = Ok row
                                         /\ tokens_to_words u row = Ok s)
           (seq i n) gs.
Proof.
  induction n as [|n IH]; intros i preds gts p g; simpl.
  - intros [= <- <-]. exists [], []. rewrite !app_nil_r. repeat split; constructor.
  - destruct (select0 i outputs) as [row|] eqn:Hrow; [|discriminate].
    destruct (tokens_to_words u row) as [output|] eqn:Hout; [|discriminate].
    destruct (select0 i questions) as [qrow|] eqn:Hqrow; [|discriminate].
    destruct (tokens_to_words u qrow) as [question|] eqn:Hq; [|discriminate].
    intros Hc. destruct (IH _ _ _ _ _ Hc) as (ps & gs & -> & -> & Hps & Hgs).
    exists (output :: ps), (question :: gs).
    rewrite <- !app_assoc. repeat split; constructor; eauto.
Qed.

(** The body of the loop, when it completes. *)
Lemma evaluate_batch_inv vqg u args b preds gts w p g w' :
  evaluate_batch vqg u args b preds gts w = Ok ((p, g), w') ->
  exists tokens n,
    predict_from_category vqg (images b) (categories b) None 0 log_softmax w
    = Ok (tokens, w')
    /\ size0 (images b) = Ok n
    /\ collect u tokens (questions b) 0 n preds gts = Ok (p, g).
Proof.
  rewrite evaluate_batch_unfold. intros Hrun. run_inv Hrun.
  apply lift_Ok_inv in Hrun as [Hc ->].
  repeat match goal with
         | E : lift _ _ = Ok _ |- _ => apply lift_Ok_inv in E as [? ->]
         end.
  destruct (from_answer args).
  - match goal with
    | E : call_method _ _ _ _ _ = Ok _ |- _ =>
        unfold call_method in E; rewrite no_predict_from_answer in E;
        discriminate E
    end.
  - match goal with
    | E : call_method _ _ _ _ _ = Ok _ |- _ =>
        unfold call_method in E; rewrite has_predict_from_category in E;
        rewrite bool_decide_eq_true_2 in E by reflexivity;
        cbv beta iota in E
    end.
    do 2 eexists. repeat split; eauto.
Qed.

Lemma evaluate_loop_lengths vqg u args loader :
  forall preds gts w p g w',
    evaluate_loop vqg u args loader preds gts w = Ok ((p, g), w') ->
    length p = length preds + sum_list_with (fun b => hd 0 (shape (images b))) loader
    /\ length g = length gts + sum_list_with (fun b => hd 0 (shape (images b))) loader.
Proof.
  induction loader as [|b loader IH]; intros preds gts w p g w' Hrun.
  - apply ret_Ok_inv in Hrun as [[= <- <-] _]. simpl. lia.
  - cbn [evaluate_loop] in Hrun. run_inv Hrun.
    match goal with
    | E : evaluate_batch _ _ _ _ _ _ _ = Ok _ |- _ =>
        apply evaluate_batch_inv in E as (tokens & n & _ & Hn & Hc)
    end.
    apply collect_Ok_inv in Hc as (ps & gs & -> & -> & Hps & Hgs).
    apply IH in Hrun as [Hp Hg]. rewrite Hp, Hg, !length_app.
    apply Forall2_length in Hps, Hgs. rewrite length_seq in Hps, Hgs.
    unfold size0 in Hn. cbn [sum_list_with].
    destruct (shape (images b)) as [|n' s]; [discriminate|].
    injection Hn as ->. simpl. lia.
Qed.

(** X4. When [evaluate] returns, it has collected one prediction and one
    ground truth per example of the loader, the examples of a batch
    being the first dimension of its images; the scores are those of
    [compute_metrics] on the two lists. *)
Theorem evaluate_collects_every_example vqg loader u args w scores gts preds vqg' w' :
  evaluate vqg loader u args w = Ok ((scores, gts, preds, vqg'), w') ->
  length preds = sum_list_with (fun b => hd 0 (shape (images b))) loader
  /\ length gts = length preds
  /\ compute_metrics u gts preds = Ok scores.
Proof.
  intros Hrun. unfold evaluate in Hrun. run_inv Hrun.
  apply ret_Ok_inv in Hrun as [[= <- <- <- _] _].
  match goal with E : lift _ _ = Ok _ |- _ => apply lift_Ok_inv in E as [Hm _] end.
  match goal with
  | E : evaluate_loop _ _ _ _ _ _ _ = Ok _ |- _ =>
      apply evaluate_loop_lengths in E as [Hp Hg]
  end.
  simpl in Hp, Hg. repeat split; [exact Hp|congruence|exact Hm].
Qed.

(** X5. A batch that completes appends, in the order of the examples,
    the words of row [k] of the predicted tokens to the predictions and
    the words of row [k] of the questions to the ground truths; what was
    collected before is kept. *)
Theorem evaluate_batch_appends_rows vqg u args b preds gts w p g w' :
  evaluate_batch vqg u args b preds gts w = Ok ((p, g), w') ->
  exists tokens n ps gs,
    predict_from_category vqg (images b) (categories b) None 0 log_softmax w
    = Ok (tokens, w')
    /\ size0 (images b) = Ok n
    /\ p = preds ++ ps /\ g = gts ++ gs
    /\ Forall2 (fun k s => exists row, select0 k tokens = Ok row
                                       /\ tokens_to_words u row = Ok s)
         (seq 0 n) ps
    /\ Forall2 (fun k s => exists row, select0 k (questions b) = Ok row
                                       /\ tokens_to_words u row = Ok s)
         (seq 0 n) gs.
Proof.
  intros Hrun.
  apply evaluate_batch_inv in Hrun as (tokens & n & Hp & Hn & Hc).
  apply collect_Ok_inv in Hc as (ps & gs & -> & -> & Hps & Hgs).
  exists tokens, n, ps, gs. repeat split; assumption.
Qed.

(** X6. The from-answer mode, for every loader: on an empty loader
    [evaluate] scores two empty lists; on any other loader it stops at
    the first batch, with the error of [process_lengths] if that raises
    and with the missing attribute [predict_from_answer] otherwise. *)
Theorem evaluate_from_answer_outcome vqg loader u args w :
  from_answer args = true ->
  evaluate vqg loader u args w
  = match loader with
    | [] =>
        match compute_metrics u [] [] with
        | Ok scores => Ok ((scores, [], [], eval_mode vqg), w)
        | Raise e => Raise e
        end
    | b :: _ =>
        match process_lengths u (answers b) with
        | Ok _ => Raise (AttributeError "IQ" "predict_from_answer")
        | Raise e => Raise e
        end
    end.
Proof.
  intros Hmode. destruct loader as [|b rest].
  - unfold evaluate. cbn [evaluate_loop].
    erewrite bind_Ok by reflexivity. cbv beta iota.
    unfold bind, lift, ret. destruct (compute_metrics u [] []); reflexivity.
  - unfold evaluate.
    destruct (process_lengths u (answers b)) as [alengths|e] eqn:Hlen.
    + apply bind_Raise. cbn [evaluate_loop]. apply bind_Raise.
      rewrite evaluate_batch_unfold. run_lift Hlen. apply bind_Raise.
      rewrite Hmode. unfold call_method. rewrite no_predict_from_answer.
      reflexivity.
    + apply bind_Raise. cbn [evaluate_loop]. apply bind_Raise.
      rewrite evaluate_batch_unfold. apply bind_Raise.
      unfold lift. rewrite Hlen. reflexivity.
Qed.

End EvaluateProperties.

Section EvaluateConcrete.
#[local] Existing Instance Demo.runtime.

Lemma evaluate_collects_every_example_witness :
  exists scores gts preds vqg' w',
    evaluate Demo.plain [Demo.one_batch] Demo.utils Demo.from_category_args
      (fresh_world false 1234)
    = Ok ((scores, gts, preds, vqg'), w')
    /\ length preds = 2 /\ length gts = length preds.
Proof.
  destruct (evaluate Demo.plain [Demo.one_batch] Demo.utils
              Demo.from_category_args (fresh_world false 1234))
    as [[[[[scores gts] preds] vqg'] w']|e] eqn:Hrun;
    [|vm_compute in Hrun; discriminate Hrun].
  exists scores, gts, preds, vqg', w'. split; [reflexivity|].
  destruct (evaluate_collects_every_example _ _ _ _ _ _ _ _ _ _ Hrun)
    as (Hp & Hg & _).
  split; [exact Hp|exact Hg].
Defined.

Lemma evaluate_batch_appends_rows_witness :
  exists p g w' ps gs,
    evaluate_batch (eval_mode Demo.plain) Demo.utils Demo.from_category_args
      Demo.one_batch ["earlier"%string] ["before"%string] (fresh_world false 1234)
    = Ok ((p, g), w')
    /\ p = "earlier"%string :: ps /\ g = "before"%string :: gs.
Proof.
  destruct (evaluate_batch (eval_mode Demo.plain) Demo.utils Demo.from_category_args
              Demo.one_batch ["earlier"%string] ["before"%string]
              (fresh_world false 1234))
    as [[[p g] w']|e] eqn:Hrun; [|vm_compute in Hrun; discriminate Hrun].
  destruct (evaluate_batch_appends_rows _ _ _ _ _ _ _ _ _ _ Hrun)
    as (tokens & n & ps & gs & _ & _ & Hp & Hg & _).
  exists p, g, w', ps, gs. split; [reflexivity|]. split; assumption.
Defined.

Lemma evaluate_from_answer_outcome_witness :
  from_answer Demo.from_answer_args = true
  /\ evaluate Demo.plain [Demo.one_batch] Demo.utils Demo.from_answer_args
       (fresh_world false 1234)
     = Raise (AttributeError "IQ" "predict_from_answer").
Proof.
  split; [reflexivity|].
  exact (evaluate_from_answer_outcome Demo.plain [Demo.one_batch] Demo.utils
           Demo.from_answer_args (fresh_world false 1234) eq_refl).
Defined.

End EvaluateConcrete.

(** ** The other methods of [IQ] *)

Section MethodsProperties.
Context `{Runtime}.

Lemma category_attr_None {A} self name (field : category_modules -> A) w :
  category self = None ->
  category_attr self name field w = Raise (AttributeError "IQ" name).
Proof. unfold category_attr. intros ->. reflexivity. Qed.

Lemma encode_into_t_without_category self f c w :
  category self = None ->
  encode_into_t self f c w
  = match cat1 f c with
    | Ok _ => Raise (AttributeError "IQ" "category_attention")
    | Raise e => Raise e
    end.
Proof.
  intros Hc. unfold encode_into_t.
  destruct (cat1 f c) as [together|e] eqn:Hcat.
  - erewrite bind_Ok by reflexivity. cbv beta iota.
    apply bind_Raise. apply category_attr_None. exact Hc.
  - apply bind_Raise. reflexivity.
Qed.

Lemma encode_from_category_without_category self images categories w :
  category self = None ->
  encode_from_category self images categories w
  = match encode_images self images w with
    | Ok _ => Raise (AttributeError "IQ" "category_embedding")
    | Raise e => Raise e
    end.
Proof.
  intros Hc. unfold encode_from_category.
  destruct (encode_images self images w) as [[feats w1]|e] eqn:Hi.
  - run_with Hi. apply bind_Raise. unfold encode_categories.
    apply bind_Raise. apply category_attr_None. exact Hc.
  - apply bind_Raise. exact Hi.
Qed.

(** X7. A model built without the category space (it has none of the
    six category submodules) cannot encode: [encode_categories],
    [info_parameters], [encode_into_t], [reconstruct_inputs],
    [encode_from_category] and [predict_from_category] all end with an
    error, the missing attribute unless an earlier step raised, and
    [evaluate] returns on no loader that has a batch. *)
Theorem without_category_space_nothing_encodes self :
  category self = None ->
  (forall categories w,
      encode_categories self categories w
      = Raise (AttributeError "IQ" "category_embedding"))
  /\ (forall parameters w,
         info_parameters parameters self w
         = Raise (AttributeError "IQ" "category_attention"))
  /\ (forall f c w,
         encode_into_t self f c w
         = match cat1 f c with
           | Ok _ => Raise (AttributeError "IQ" "category_attention")
           | Raise e => Raise e
           end)
  /\ (forall f c w, is_ok (reconstruct_inputs self f c w) = false)
  /\ (forall images categories w,
         encode_from_category self images categories w
         = match encode_images self images w with
           | Ok _ => Raise (AttributeError "IQ" "category_embedding")
           | Raise e => Raise e
           end)
  /\ (forall images categories questions ratio function w,
         is_ok (predict_from_category self images categories questions ratio
                  function w) = false)
  /\ (forall b rest u args w, is_ok (evaluate self (b :: rest) u args w) = false).
Proof.
  intros Hc. repeat split.
  - intros categories w. unfold encode_categories. apply bind_Raise.
    apply category_attr_None. exact Hc.
  - intros parameters w. unfold info_parameters. apply bind_Raise.
    apply category_attr_None. exact Hc.
  - intros f c w. apply encode_into_t_without_category. exact Hc.
  - intros f c w. unfold reconstruct_inputs.
    destruct (bind _ _ w) as [r|e] eqn:Hrun; [|reflexivity].
    run_inv Hrun.
    match goal with
    | E : encode_into_t _ _ _ _ = Ok _ |- _ =>
        rewrite (encode_into_t_without_category _ _ _ _ Hc) in E;
        destruct (cat1 f c); discriminate E
    end.
  - intros images categories w.
    apply encode_from_category_without_category. exact Hc.
  - intros images categories questions ratio function w.
    unfold predict_from_category.
    destruct (bind _ _ w) as [r|e] eqn:Hrun; [|reflexivity].
    run_inv Hrun.
    match goal with
    | E : encode_from_category _ _ _ _ = Ok _ |- _ =>
        rewrite (encode_from_category_without_category _ _ _ _ Hc) in E;
        destruct (encode_images self images w); discriminate E
    end.
  - intros b rest u args w.
    destruct (evaluate self (b :: rest) u args w) as [[[[[scores gts] preds] vqg'] w']|e]
      eqn:Hrun; [|reflexivity].
    apply (evaluate_Ok_inv self u args [] b rest) in Hrun
      as (_ & _ & preds1 & gts1 & w1 & out & w2 & _ & Hb).
    apply evaluate_batch_Ok_inv in Hb as (_ & tokens & w3 & Hp).
    unfold predict_from_category in Hp. run_inv Hp.
    match goal with
    | E : encode_from_category _ _ _ _ = Ok _ |- _ =>
        rewrite (encode_from_category_without_category (eval_mode self) _ _ _ Hc) in E;
        destruct (encode_images (eval_mode self) (images b) w1); discriminate E
    end.
Qed.

Lemma encode_into_t_needs_category self f c w r :
  encode_into_t self f c w = Ok r -> exists cm, category self = Some cm.
Proof.
  destruct (category self) as [cm|] eqn:Hc; [eauto|].
  rewrite (encode_into_t_without_category _ _ _ _ Hc).
  destruct (cat1 f c); discriminate.
Qed.

(** X8. When [reconstruct_inputs] returns, its category reconstruction
    is never [None]: the encoding before it already needed the category
    space.  Both reconstructors are applied to the one latent sample of
    [encode_into_t], the image reconstructor first, and the image
    reconstruction is [None] exactly for a model built without it. *)
Theorem reconstruct_inputs_results self f c w ri rc w' :
  reconstruct_inputs self f c w = Ok ((ri, rc), w') ->
  exists mus logvars ts w1 w2 cm y,
    encode_into_t self f c w = Ok ((mus, logvars, ts), w1)
    /\ category self = Some cm
    /\ match image_reconstructor self with
       | Some l => exists x, call l (training self) ts w1 = Ok (x, w2) /\ ri = Some x
       | None => ri = None /\ w2 = w1
       end
    /\ call (category_reconstructor cm) (training self) ts w2 = Ok (y, w')
    /\ rc = Some y.
Proof.
  intros Hrun. unfold reconstruct_inputs in Hrun. run_inv Hrun.
  apply ret_Ok_inv in Hrun as [[= <- <-] <-].
  match goal with
  | E : encode_into_t _ _ _ _ = Ok _ |- _ =>
      destruct (encode_into_t_needs_category _ _ _ _ _ E) as [cm Hcm];
      rename E into Henc
  end.
  assert (Hcs : category_space self = true).
  { unfold category_space. rewrite Hcm. apply bool_decide_eq_true_2. eauto. }
  rewrite Hcs in *.
  match goal with
  | E : bind (category_attr _ _ _) _ _ = Ok _ |- _ => rename E into Hcat
  end.
  run_inv Hcat.
  match goal with
  | E : category_attr _ _ _ _ = Ok _ |- _ =>
      apply category_attr_Ok_inv in E as (cm' & Hcm' & -> & ->)
  end.
  rewrite Hcm in Hcm'. injection Hcm' as <-.
  run_inv Hcat. apply ret_Ok_inv in Hcat as [-> ->].
  match goal with
  | E : call (category_reconstructor cm) _ _ _ = Ok _ |- _ => rename E into Hrc
  end.
  match goal with
  | E : (if image_recon self then _ else _) _ = Ok _ |- _ => rename E into Himg
  end.
  unfold image_recon, image_reconstructor_attr in Himg.
  destruct (image_reconstructor self) as [l|] eqn:Hir.
  - rewrite bool_decide_eq_true_2 in Himg by eauto.
    run_inv Himg.
    match goal with
    | E : ret l _ = Ok _ |- _ => apply ret_Ok_inv in E as [-> ->]
    end.
    apply ret_Ok_inv in Himg as [-> ->].
    do 7 eexists. repeat split; eauto.
  - rewrite bool_decide_eq_false_2 in Himg by (intros [? ?]; discriminate).
    apply ret_Ok_inv in Himg as [-> ->].
    do 7 eexists. repeat split; eauto.
Qed.

(** X9. [modify_hidden] composes: applying [g] to what it returned for
    [f] is applying, in one pass, [f] and then [g], errors included.
    For an LSTM this holds although the first pass rebuilds the state as
    a pair. *)
Theorem modify_hidden_compose (f g : pyval -> result pyval) hidden kind v :
  modify_hidden f hidden kind = Ok v ->
  modify_hidden g v kind
  = modify_hidden (fun x => match f x with Ok y => g y | Raise e => Raise e end)
      hidden kind.
Proof.
  destruct kind; cbn [modify_hidden]; try (intros ->; reflexivity).
  destruct (getitem hidden 0) as [h0|]; [|discriminate].
  destruct (f h0) as [a|]; [|discriminate].
  destruct (getitem hidden 1) as [h1|]; [|discriminate].
  destruct (f h1) as [b|]; [|discriminate].
  intros [= <-]. reflexivity.
Qed.

(** X10. For an LSTM, [modify_hidden] accepts a single stacked tensor of
    at least two layers in place of the pair (hidden, cell): it takes
    the first two layers for the pair and drops the others. *)
Theorem modify_hidden_lstm_tensor (f : pyval -> result pyval) (t : tensor f32) l s :
  shape t = l :: s -> 2 <= l ->
  modify_hidden f (PTensor t) LSTM
  = modify_hidden f
      (PTuple [PTensor (Tensor s (take (numel s) (data t)) (requires_grad t));
               PTensor (Tensor s (take (numel s) (drop (numel s) (data t)))
                          (requires_grad t))])
      LSTM.
Proof.
  intros Hs Hl. unfold modify_hidden, getitem, select0. rewrite Hs.
  assert (H0 : (0 <? l) = true) by (apply Nat.ltb_lt; lia).
  assert (H1 : (1 <? l) = true) by (apply Nat.ltb_lt; lia).
  rewrite H0, H1. rewrite Nat.mul_0_l, Nat.mul_1_l. reflexivity.
Qed.

(** X12. [flatten_parameters] flattens the decoder and nothing else: an
    instance has an attribute [decoder] and none called [encoder] (the
    question encoder is [question_encoder]). *)
Theorem flatten_parameters_decoder_only self :
  flatten_parameters self = ["decoder"%string].
Proof.
  unfold flatten_parameters, has_attribute, instance_attributes.
  destruct (category_space self), (image_recon self); vm_compute; reflexivity.
Qed.

Lemma last_layer_eq {A} (t : tensor A) l b n :
  shape t = [l; b; n] -> 1 <= l ->
  last_layer t
  = Ok (Tensor [b; n] (take (numel [b; n]) (drop ((l - 1) * numel [b; n]) (data t)))
          (requires_grad t)).
Proof.
  intros Hs Hl. unfold last_layer, select0. rewrite Hs.
  destruct (l =? 0) eqn:E; [apply Nat.eqb_eq in E; lia|].
  assert (Hlt : (l - 1 <? l) = true) by (apply Nat.ltb_lt; lia).
  rewrite Hlt. reflexivity.
Qed.

(** X11. The question encoders return the last layer of the final state
    of the RNN with every dimension of size one dropped: a batch of
    [b >= 2] questions gives a matrix [[b; n]], a batch of one question
    gives a vector [[n]], without the batch dimension, and that is what
    [encode_questions] hands to [q_to_c]. *)
Theorem encode_questions_squeeze self qm questions qlengths w out eh g state l b n :
  enc_forward (question_encoder qm) (training self) (torch_gen w) questions qlengths
  = Ok (out, eh, g) ->
  (enc_rnn_cell (question_encoder qm) = LSTM /\ exists c, eh = HPair state c)
  \/ (enc_rnn_cell (question_encoder qm) <> LSTM /\ eh = HSingle state) ->
  shape state = [l; b; n] -> 1 <= l -> 2 <= n ->
  exists t,
    encode_questions_discriminator self qm questions qlengths w
    = Ok (t, set_torch_gen g w)
    /\ shape t = (if b =? 1 then [n] else [b; n])
    /\ data t = take (b * n) (drop ((l - 1) * (b * n)) (data state))
    /\ encode_questions self qm questions qlengths w
       = call (q_to_c qm) (training self) t (set_torch_gen g w).
Proof.
  intros Hf Hkind Hs Hl Hn.
  set (tracked := grad_enabled w && enc_trainable (question_encoder qm)).
  assert (Hcall : call_encoder (question_encoder qm) (training self) questions qlengths w
                  = Ok ((with_grad tracked out, hidden_with_grad tracked eh),
                        set_torch_gen g w))
    by (unfold call_encoder; rewrite Hf; reflexivity).
  assert (Hfinal : final_question_state (enc_rnn_cell (question_encoder qm))
                     (hidden_with_grad tracked eh)
                   = Ok (squeeze (Tensor [b; n]
                                    (take (numel [b; n])
                                       (drop ((l - 1) * numel [b; n]) (data state)))
                                    tracked))).
  { unfold final_question_state.
    destruct Hkind as [[-> [c ->]]|[Hk ->]].
    - cbn [hidden_with_grad].
      rewrite (last_layer_eq (with_grad tracked state) l b n Hs Hl). reflexivity.
    - cbn [hidden_with_grad].
      destruct (enc_rnn_cell (question_encoder qm)); [congruence| |];
        rewrite (last_layer_eq (with_grad tracked state) l b n Hs Hl); reflexivity. }
  eexists. split; [|split; [|split]].
  - unfold encode_questions_discriminator. run_with Hcall.
    apply lift_Ok. exact Hfinal.
  - unfold squeeze. cbn [shape filter list_filter].
    assert (Hn1 : n <> 1) by lia.
    destruct (b =? 1) eqn:Hb.
    + apply Nat.eqb_eq in Hb. subst b.
      rewrite decide_False by (intros Hne; apply Hne; reflexivity).
      rewrite decide_True by exact Hn1. reflexivity.
    + apply Nat.eqb_neq in Hb.
      rewrite decide_True by exact Hb.
      rewrite decide_True by exact Hn1. reflexivity.
  - unfold squeeze. cbn [data numel foldr]. rewrite Nat.mul_1_r. reflexivity.
  - unfold encode_questions. run_with Hcall. run_lift Hfinal. reflexivity.
Qed.

(** X13. Without image features, [decode_questions] views the output of
    [t_decoder], of width [z_img], as the state of width
    [2 * hidden_size]: the state is built when the two widths hold the
    same number of values for the batch, and the view raises
    otherwise. *)
Theorem initial_hidden_without_image_features self sz ts b w :
  well_formed self sz -> shape ts = [b; z_size sz] ->
  (b * z_img sz = b * (2 * hidden_size self) ->
   exists h w', initial_hidden self None ts w = Ok (h, w') /\ hidden_batch h = Ok b)
  /\ (b * z_img sz <> b * (2 * hidden_size self) ->
      initial_hidden self None ts w
      = Raise (RuntimeError "shape is invalid for input size")).
Proof.
  intros Hwf Hts.
  assert (Hsz : size0 ts = Ok b) by (unfold size0; rewrite Hts; reflexivity).
  destruct (call_maps _ _ _ (training self) ts b w (wf_t_decoder Hwf) Hts)
    as (th & w1 & Hth & Hsth & _ & _).
  split; intros Hw; unfold initial_hidden; run_lift Hsz; run_with Hth.
  - erewrite bind_Ok by reflexivity. cbv beta iota.
    assert (Hview : view [1; b; 2 * hidden_size self] th
                    = Ok (Tensor [1; b; 2 * hidden_size self] (data th)
                            (requires_grad th))).
    { apply view_shape. rewrite Hsth. cbn [numel foldr]. lia. }
    run_lift Hview.
    erewrite bind_Ok by (apply lift_Ok, expand_layers; reflexivity).
    cbv beta iota. do 2 eexists. split; [reflexivity|].
    destruct (rnn_cell (decoder self)); reflexivity.
  - erewrite bind_Ok by reflexivity. cbv beta iota.
    apply bind_Raise. unfold lift, view. rewrite Hsth.
    destruct (numel [1; b; 2 * hidden_size self] =? numel [b; z_img sz]) eqn:E;
      [|reflexivity].
    apply Nat.eqb_eq in E. cbn [numel foldr] in E. lia.
Qed.

End MethodsProperties.

(** ** Sampling *)

Section SamplingProperties.
Context `{Runtime}.

Lemma noise_scale_not_finite a : is_finite a = false -> is_pos (noise_scale a) = false.
Proof. destruct a as [| [] | |]; try discriminate; reflexivity. Qed.

Lemma scales_rejected (l : list f32) :
  forallb is_finite l = false -> forallb is_pos (noise_scale <$> l) = false.
Proof.
  induction l as [|a l IH]; [discriminate|]. cbn [forallb fmap list_fmap].
  destruct (is_finite a) eqn:Ha.
  - intros Hl. rewrite (IH Hl). apply andb_false_r.
  - intros _. rewrite (noise_scale_not_finite a Ha). reflexivity.
Qed.

Lemma expand_data_row {A} b z (d : list A) :
  length d = numel [z] -> expand_data [z] [b; z] d = mjoin (replicate b d).
Proof.
  intros Hd.
  change (mjoin (replicate b (expand_data [z] [z] d)) = mjoin (replicate b d)).
  rewrite (expand_data_id [z] d Hd). reflexivity.
Qed.

Lemma length_mjoin_replicate {A} b (d : list A) :
  length (mjoin (replicate b d)) = b * length d.
Proof.
  induction b as [|b IH]; [reflexivity|].
  change (length (d ++ mjoin (replicate b d)) = S b * length d).
  rewrite length_app, IH. reflexivity.
Qed.

(** A check over the rows of a broadcast vector is the check of the
    vector, as soon as there is a row. *)
Lemma forallb_mjoin_replicate {A} (p : A -> bool) b (d : list A) :
  1 <= b -> forallb p (mjoin (replicate b d)) = forallb p d.
Proof.
  intros Hb. induction b as [|b IH]; [lia|].
  change (forallb p (d ++ mjoin (replicate b d)) = forallb p d).
  rewrite forallb_app. destruct b as [|b'].
  - simpl. apply andb_true_r.
  - rewrite IH by lia. apply andb_diag.
Qed.

(** The parameters [reparameterize] hands to [Normal], broadcast. *)
Lemma Normal_of_alpha self (mu : tensor f32) b z :
  shape mu = [b; z] -> shape (alpha self) = [z] -> valid mu -> valid (alpha self) ->
  Normal (zeros_like mu)
    (Tensor (shape (alpha self)) (noise_scale <$> data (alpha self)) false)
  = if negb (forallb is_pos (mjoin (replicate b (noise_scale <$> data (alpha self)))))
    then Raise (ValueError
                  "Expected parameter scale to satisfy the constraint GreaterThan(lower_bound=0.0)")
    else Ok (MkNormal
               (Tensor [b; z] (replicate (numel [b; z]) zero) false)
               (Tensor [b; z] (mjoin (replicate b (noise_scale <$> data (alpha self))))
                  false)).
Proof.
  intros Hmu Ha Hvmu Hva. unfold valid in Hvmu, Hva.
  rewrite Hmu in Hvmu. rewrite Ha in Hva.
  unfold Normal, zeros_like. cbn [shape data requires_grad].
  rewrite Hmu, Ha, broadcast_shapes_row, Hvmu.
  rewrite (expand_data_id [b; z]) by apply length_replicate.
  rewrite (expand_data_row b z) by (rewrite length_fmap; exact Hva).
  rewrite forallb_replicate by reflexivity. reflexivity.
Qed.

(** X14. Scaled-noise sampling stops on a learned scale that is NaN or
    infinite: the inverse of such an entry of [alpha] is turned into the
    scale [0.0], and for a batch of at least one example [Normal] finds
    it among the broadcast scales and rejects it, so [reparameterize]
    raises [ValueError] whatever the mean and the log-variance hold. *)
Theorem reparameterize_rejects_non_finite_alpha self mu logvar b z w :
  cuda_available w = true ->
  shape mu = [b; z] -> shape (alpha self) = [z] ->
  valid mu -> valid (alpha self) -> 1 <= b ->
  forallb is_finite (data (alpha self)) = false ->
  reparameterize self mu logvar w
  = Raise (ValueError
             "Expected parameter scale to satisfy the constraint GreaterThan(lower_bound=0.0)").
Proof.
  intros Hcuda Hmu Ha Hvmu Hva Hb Hbad. unfold reparameterize.
  rewrite noise_scale_tensor.
  assert (Hz : cuda (zeros_like mu) w = Ok (zeros_like mu, w))
    by (unfold cuda; rewrite Hcuda; reflexivity).
  run_with Hz. apply bind_Raise. unfold lift.
  rewrite (Normal_of_alpha self mu b z Hmu Ha Hvmu Hva).
  rewrite (forallb_mjoin_replicate is_pos b _ Hb), (scales_rejected _ Hbad).
  reflexivity.
Qed.

(** The deviates drawn for a tensor of [n] elements. *)
Lemma randn_like_eq (t : tensor f32) n w :
  length (data t) = n ->
  randn_like t w
  = Ok (Tensor (shape t)
          ((fun i => unit_normal (gen_seed (torch_gen w)) (gen_offset (torch_gen w) + i))
           <$> seq 0 n) false,
        set_torch_gen
          (Generator (gen_seed (torch_gen w)) (gen_offset (torch_gen w) + n)) w).
Proof. intros <-. reflexivity. Qed.

(** An elementwise operation on two tensors of one shape. *)
Lemma map2_eq (f : f32 -> f32 -> f32) (t1 t2 : tensor f32) s :
  shape t1 = s -> shape t2 = s -> valid t1 -> valid t2 ->
  map2 f t1 t2
  = Ok (Tensor s (zip_with f (data t1) (data t2)) (requires_grad t1 || requires_grad t2)).
Proof.
  intros H1 H2 Hv1 Hv2. unfold valid in Hv1, Hv2. rewrite H1 in Hv1. rewrite H2 in Hv2.
  unfold map2. rewrite H1, H2, broadcast_shapes_refl.
  rewrite (expand_data_id s _ Hv1), (expand_data_id s _ Hv2). reflexivity.
Qed.

Lemma map2__eq (f : f32 -> f32 -> f32) (t1 t2 : tensor f32) s :
  shape t1 = s -> shape t2 = s -> valid t1 -> valid t2 ->
  map2_ f t1 t2
  = Ok (Tensor s (zip_with f (data t1) (data t2)) (requires_grad t1 || requires_grad t2)).
Proof.
  intros H1 H2 Hv1 Hv2. unfold map2_.
  rewrite (map2_eq f t1 t2 s H1 H2 Hv1 Hv2). cbn [shape].
  rewrite bool_decide_eq_true_2 by (symmetry; exact H1). reflexivity.
Qed.

(** X15. Standard-normal sampling, in full: on a mean and a
    log-variance of one shape, [reparameterize_prev] returns
    [n * exp(0.5 * logvar) + mu] element by element, [n] being the next
    deviates of the torch generator in order; it consumes one deviate
    per element, leaves the seed alone, and reads nothing of the model.
    The result requires a gradient when the mean or the log-variance
    does and autograd is recording. *)
Theorem reparameterize_prev_formula self mu logvar s w :
  shape mu = s -> shape logvar = s -> valid mu -> valid logvar ->
  reparameterize_prev self mu logvar w
  = Ok (Tensor s
          (zip_with add
             (zip_with mul
                ((fun i => unit_normal (gen_seed (torch_gen w))
                             (gen_offset (torch_gen w) + i)) <$> seq 0 (numel s))
                ((fun x => exp (mul half x)) <$> data logvar))
             (data mu))
          (grad_enabled w && (requires_grad logvar || requires_grad mu)),
        set_torch_gen
          (Generator (gen_seed (torch_gen w)) (gen_offset (torch_gen w) + numel s)) w).
Proof.
  intros Hmu Hlv Hvmu Hvlv. unfold reparameterize_prev.
  set (std := map1 exp (map1 (mul half) logvar)).
  assert (Hstd : length (data std) = numel s).
  { unfold std, map1. cbn [data]. rewrite !length_fmap.
    unfold valid in Hvlv. rewrite Hlv in Hvlv. exact Hvlv. }
  pose proof (randn_like_eq std (numel s) w Hstd) as Heps.
  run_with Heps.
  set (ns := (fun i => unit_normal (gen_seed (torch_gen w))
                         (gen_offset (torch_gen w) + i)) <$> seq 0 (numel s)) in *.
  assert (Hn : length ns = numel s)
    by (unfold ns; rewrite length_fmap, length_seq; reflexivity).
  assert (Hsc : map2 mul (Tensor (shape std) ns false) std
                = Ok (Tensor s (zip_with mul ns (data std)) (requires_grad logvar))).
  { rewrite (map2_eq mul _ std s); [reflexivity|exact Hlv|exact Hlv| |].
    - unfold valid. cbn [shape data]. unfold std, map1. cbn [shape]. congruence.
    - unfold valid. unfold std, map1 in *. cbn [shape data] in *. congruence. }
  run_recorded Hsc. cbn [shape data requires_grad].
  erewrite recorded_Ok.
  2:{ apply (map2__eq add _ mu s); [reflexivity|exact Hmu| |exact Hvmu].
      unfold valid. cbn [shape data]. rewrite length_zip_with, Hn, Hstd. lia. }
  cbn [shape data requires_grad grad_enabled set_torch_gen].
  unfold std, map1. cbn [data]. rewrite <- list_fmap_compose.
  f_equal. f_equal.
  destruct (grad_enabled w), (requires_grad logvar), (requires_grad mu); reflexivity.
Qed.

(** X16. Scaled-noise sampling, in full.  Whenever [reparameterize]
    returns on a mean and a log-variance of shape [[b; z]] and a learned
    [alpha] of [z] entries, element [(i, j)] of the result is
    [(n * |1/alpha_j| + 0) * exp(0.5 * logvar) + mu + 1e-8]: the scale
    of column [j] is that of [alpha_j] in every row.  One deviate was
    consumed per element, as in the standard-normal path; the result
    requires a gradient when the mean or the log-variance does and
    autograd is recording; a CUDA device is present, and for a batch of
    at least one example every scale is strictly positive. *)
Theorem reparameterize_formula self mu logvar b z w zs w' :
  shape mu = [b; z] -> shape logvar = [b; z] -> shape (alpha self) = [z] ->
  valid mu -> valid logvar -> valid (alpha self) ->
  reparameterize self mu logvar w = Ok (zs, w') ->
  zs = Tensor [b; z]
         ((fun x => add x tiny)
          <$> zip_with add
                (zip_with mul
                   (zip_with add
                      (zip_with mul
                         ((fun i => unit_normal (gen_seed (torch_gen w))
                                      (gen_offset (torch_gen w) + i))
                          <$> seq 0 (numel [b; z]))
                         (mjoin (replicate b (noise_scale <$> data (alpha self)))))
                      (replicate (numel [b; z]) zero))
                   ((fun x => exp (mul half x)) <$> data logvar))
                (data mu))
         (grad_enabled w && (requires_grad logvar || requires_grad mu))
  /\ w' = set_torch_gen
            (Generator (gen_seed (torch_gen w)) (gen_offset (torch_gen w) + numel [b; z]))
            w
  /\ cuda_available w = true
  /\ (1 <= b -> Forall (fun a => is_pos (noise_scale a) = true) (data (alpha self))).
Proof.
  intros Hmu Hlv Ha Hvmu Hvlv Hva Hrun.
  destruct (cuda_available w) eqn:Hcuda.
  2:{ unfold reparameterize in Hrun. apply bind_Ok_inv in Hrun as (? & ? & Hc & _).
      unfold cuda in Hc. rewrite Hcuda in Hc. discriminate Hc. }
  unfold reparameterize in Hrun. rewrite noise_scale_tensor in Hrun.
  assert (Hz : cuda (zeros_like mu) w = Ok (zeros_like mu, w))
    by (unfold cuda; rewrite Hcuda; reflexivity).
  rewrite (bind_Ok _ _ _ _ _ Hz) in Hrun. cbv beta iota in Hrun.
  set (scales := mjoin (replicate b (noise_scale <$> data (alpha self)))) in *.
  pose proof (Normal_of_alpha self mu b z Hmu Ha Hvmu Hva) as Hdist.
  fold scales in Hdist.
  destruct (forallb is_pos scales) eqn:Hpos; cbn [negb] in Hdist.
  2:{ apply bind_Ok_inv in Hrun as (? & ? & Hc & _).
      unfold lift in Hc. rewrite Hdist in Hc. discriminate Hc. }
  rewrite (bind_Ok _ _ _ _ _ (lift_Ok _ _ _ Hdist)) in Hrun. cbv beta iota in Hrun.
  unfold valid in Hvmu, Hvlv, Hva. rewrite Hmu in Hvmu. rewrite Hlv in Hvlv.
  rewrite Ha in Hva.
  set (ns := (fun i => unit_normal (gen_seed (torch_gen w))
                         (gen_offset (torch_gen w) + i)) <$> seq 0 (numel [b; z])).
  set (w1 := set_torch_gen
               (Generator (gen_seed (torch_gen w))
                  (gen_offset (torch_gen w) + numel [b; z])) w).
  set (eps := zip_with add (zip_with mul ns scales) (replicate (numel [b; z]) zero)).
  assert (Hsample : sample (MkNormal
                              (Tensor [b; z] (replicate (numel [b; z]) zero) false)
                              (Tensor [b; z] scales false)) w
                    = Ok (Tensor [b; z] eps false, w1)).
  { unfold sample, bind, draw_normals, ret. cbn [loc scale shape data].
    rewrite length_replicate. reflexivity. }
  rewrite (bind_Ok _ _ _ _ _ Hsample) in Hrun. cbv beta iota in Hrun.
  assert (Hn : length ns = numel [b; z])
    by (unfold ns; rewrite length_fmap, length_seq; reflexivity).
  assert (Hsc : length scales = numel [b; z]).
  { unfold scales. rewrite length_mjoin_replicate, length_fmap, Hva.
    cbn [numel foldr]. reflexivity. }
  assert (Heps : length eps = numel [b; z]).
  { unfold eps. rewrite !length_zip_with, Hn, Hsc, length_replicate. lia. }
  set (std := map1 exp (map1 (mul half) logvar)) in *.
  assert (Hstd : length (data std) = numel [b; z])
    by (unfold std, map1; cbn [data]; rewrite !length_fmap; exact Hvlv).
  assert (Hmul : map2 mul (Tensor [b; z] eps false) std
                 = Ok (Tensor [b; z] (zip_with mul eps (data std))
                         (requires_grad logvar))).
  { rewrite (map2_eq mul _ std [b; z]); [reflexivity|reflexivity|exact Hlv| |].
    - exact Heps.
    - unfold valid. unfold std, map1 in *. cbn [shape data] in *. congruence. }
  rewrite (bind_Ok _ _ _ _ _ (recorded_Ok _ _ _ Hmul)) in Hrun.
  cbv beta iota in Hrun. cbn [shape data requires_grad] in Hrun.
  erewrite bind_Ok in Hrun.
  2:{ apply recorded_Ok.
      apply (map2__eq add _ mu [b; z]);
        [reflexivity|exact Hmu| |unfold valid; rewrite Hmu; exact Hvmu].
      unfold valid. cbn [shape data]. rewrite length_zip_with, Heps, Hstd. lia. }
  cbv beta iota in Hrun. apply ret_Ok_inv in Hrun as [-> ->].
  split; [|split; [reflexivity|split; [reflexivity|]]].
  - unfold map1. cbn [shape data requires_grad grad_enabled set_torch_gen w1].
    unfold std, map1. cbn [data]. rewrite <- (list_fmap_compose (mul half) exp).
    f_equal.
    destruct (grad_enabled w), (requires_grad logvar), (requires_grad mu); reflexivity.
  - intros Hb. unfold scales in Hpos.
    rewrite (forallb_mjoin_replicate is_pos b _ Hb) in Hpos.
    apply Forall_forall. intros a Hin.
    apply list_elem_of_In in Hin.
    exact (proj1 (forallb_forall _ _) Hpos (noise_scale a)
             (in_map noise_scale _ a Hin)).
Qed.

End SamplingProperties.

Section MoreConcrete.
#[local] Existing Instance Demo.runtime.

Lemma without_category_space_witness :
  category Demo2.no_category_space = None
  /\ forall categories w,
       encode_categories Demo2.no_category_space categories w
       = Raise (AttributeError "IQ" "category_embedding").
Proof.
  split; [reflexivity|].
  exact (proj1 (without_category_space_nothing_encodes Demo2.no_category_space eq_refl)).
Defined.

Lemma reconstruct_inputs_results_witness :
  exists ri rc w',
    reconstruct_inputs Demo.plain (Tensor [2; 1] [one; one] false)
      (Tensor [2; 1] [zero; one] false) (fresh_world false 1234)
    = Ok ((ri, rc), w')
    /\ rc <> None /\ ri <> None.
Proof.
  destruct (reconstruct_inputs Demo.plain (Tensor [2; 1] [one; one] false)
              (Tensor [2; 1] [zero; one] false) (fresh_world false 1234))
    as [[[ri rc] w']|e] eqn:Hrun; [|vm_compute in Hrun; discriminate Hrun].
  exists ri, rc, w'. split; [reflexivity|].
  destruct (reconstruct_inputs_results _ _ _ _ _ _ _ Hrun)
    as (mus & logvars & ts & w1 & w2 & cm & y & _ & _ & Hi & _ & ->).
  split; [discriminate|].
  cbn [Demo.plain Demo.model image_reconstructor] in Hi.
  destruct Hi as (x & _ & ->). discriminate.
Defined.

Lemma modify_hidden_compose_witness :
  modify_hidden Ok (PTuple [PTensor (Demo.feature one); PTensor (Demo.feature zero)]) LSTM
  = Ok (PTuple [PTensor (Demo.feature one); PTensor (Demo.feature zero)])
  /\ modify_hidden (fun x => Ok (PTuple [x]))
       (PTuple [PTensor (Demo.feature one); PTensor (Demo.feature zero)]) LSTM
     = modify_hidden
         (fun x => match Ok x with Ok y => Ok (PTuple [y]) | Raise e => Raise e end)
         (PTuple [PTensor (Demo.feature one); PTensor (Demo.feature zero)]) LSTM.
Proof.
  split; [reflexivity|].
  apply (modify_hidden_compose Ok (fun x => Ok (PTuple [x]))). reflexivity.
Defined.

Lemma modify_hidden_lstm_tensor_witness :
  shape (Tensor [3; 1; 1] [one; zero; one] false) = [3; 1; 1] /\ 2 <= 3
  /\ modify_hidden Ok (PTensor (Tensor [3; 1; 1] [one; zero; one] false)) LSTM
     = Ok (PTuple [PTensor (Tensor [1; 1] [one] false);
                   PTensor (Tensor [1; 1] [zero] false)]).
Proof.
  split; [reflexivity|]. split; [lia|].
  rewrite (modify_hidden_lstm_tensor Ok (Tensor [3; 1; 1] [one; zero; one] false)
             3 [1; 1] eq_refl); [reflexivity|lia].
Defined.

Lemma encode_questions_squeeze_witness :
  exists t,
    encode_questions_discriminator Demo.plain (Demo2.questions_part 1 2)
      (Tensor [1; 3] [1; 7; 2]%Z false) (Tensor [1] [3]%Z false)
      (fresh_world false 1234)
    = Ok (t, set_torch_gen (torch_gen (fresh_world false 1234)) (fresh_world false 1234))
    /\ shape t = [2].
Proof.
  destruct (encode_questions_squeeze Demo.plain (Demo2.questions_part 1 2)
              (Tensor [1; 3] [1; 7; 2]%Z false) (Tensor [1] [3]%Z false)
              (fresh_world false 1234) _ _ _
              (Tensor [2; 1; 2] (replicate (2 * 1 * 2) one) false) 2 1 2 eq_refl)
    as (t & Ht & Hs & _).
  - left. split; [reflexivity|]. eexists. reflexivity.
  - reflexivity.
  - lia.
  - lia.
  - exists t. split; [exact Ht|exact Hs].
Defined.

Lemma initial_hidden_without_image_features_witness :
  well_formed Demo.plain Demo.small_sizes
  /\ shape (Tensor [2; 1] [one; one] false) = [2; z_size Demo.small_sizes]
  /\ initial_hidden Demo.plain None (Tensor [2; 1] [one; one] false)
       (fresh_world false 1234)
     = Raise (RuntimeError "shape is invalid for input size").
Proof.
  split; [apply demo_well_formed|]. split; [reflexivity|].
  apply (initial_hidden_without_image_features Demo.plain Demo.small_sizes
           (Tensor [2; 1] [one; one] false) 2 (fresh_world false 1234)).
  - apply demo_well_formed.
  - reflexivity.
  - simpl. lia.
Defined.

Lemma reparameterize_rejects_non_finite_alpha_witness :
  cuda_available (fresh_world true 0) = true
  /\ reparameterize
       (Demo.model true (S754_infinity false) (Demo.constant zero 2)
          (Demo.constant zero 1))
       (Demo.feature one) (Demo.feature zero) (fresh_world true 0)
     = Raise (ValueError
                "Expected parameter scale to satisfy the constraint GreaterThan(lower_bound=0.0)").
Proof.
  split; [reflexivity|].
  apply (reparameterize_rejects_non_finite_alpha _ _ _ 1 1); reflexivity.
Defined.

Lemma reparameterize_prev_formula_witness :
  valid (Demo.feature one) /\ valid (Demo.feature zero)
  /\ exists z w',
       reparameterize_prev Demo.plain (Demo.feature one) (Demo.feature zero)
         (fresh_world false 1234) = Ok (z, w')
       /\ torch_gen w' = Generator 1234 1.
Proof.
  split; [reflexivity|]. split; [reflexivity|].
  do 2 eexists. split.
  - apply (reparameterize_prev_formula Demo.plain (Demo.feature one)
             (Demo.feature zero) [1; 1]); reflexivity.
  - reflexivity.
Defined.

Lemma reparameterize_formula_witness :
  exists zs w',
    reparameterize Demo.scaled_one (Tensor [2; 1] [one; zero] false)
      (Tensor [2; 1] [zero; zero] false) (fresh_world true 7) = Ok (zs, w')
    /\ shape zs = [2; 1] /\ torch_gen w' = Generator 7 2.
Proof.
  destruct (reparameterize Demo.scaled_one (Tensor [2; 1] [one; zero] false)
              (Tensor [2; 1] [zero; zero] false) (fresh_world true 7))
    as [[zs w']|e] eqn:Hrun; [|vm_compute in Hrun; discriminate Hrun].
  exists zs, w'. split; [reflexivity|].
  destruct (reparameterize_formula Demo.scaled_one
              (Tensor [2; 1] [one; zero] false) (Tensor [2; 1] [zero; zero] false)
              2 1 (fresh_world true 7) zs w'
              eq_refl eq_refl eq_refl eq_refl eq_refl eq_refl Hrun)
    as (-> & -> & _).
  split; reflexivity.
Defined.

End MoreConcrete.

Section QuestionRows.
Context `{Runtime}.

(** X17. A batch completes only if its questions have a row for every
    image: with fewer rows than images, indexing the questions raises
    and [evaluate] stops. *)
Theorem evaluate_batch_needs_question_rows vqg u args b preds gts w out w' n :
  evaluate_batch vqg u args b preds gts w = Ok (out, w') ->
  size0 (images b) = Ok n -> 1 <= n ->
  exists m, size0 (questions b) = Ok m /\ n <= m.
Proof.
  destruct out as [p g]. intros Hrun Hn Hpos.
  apply evaluate_batch_inv in Hrun as (tokens & n' & _ & Hn' & Hc).
  apply collect_Ok_inv in Hc as (ps & gs & _ & _ & _ & Hgs).
  rewrite Hn in Hn'. injection Hn' as <-.
  assert (Hk : seq 0 n !! (n - 1) = Some (n - 1))
    by (rewrite lookup_seq_lt by lia; reflexivity).
  destruct (Forall2_lookup_l _ _ _ _ _ Hgs Hk) as (s & _ & row & Hrow & _).
  unfold select0 in Hrow. unfold size0.
  destruct (shape (questions b)) as [|m sq]; [discriminate|].
  exists m. split; [reflexivity|].
  destruct (n - 1 <? m) eqn:E; [|discriminate].
  apply Nat.ltb_lt in E. lia.
Qed.

End QuestionRows.

Section QuestionRowsConcrete.
#[local] Existing Instance Demo.runtime.

Lemma evaluate_batch_needs_question_rows_witness :
  exists m, size0 (questions Demo.one_batch) = Ok m /\ 2 <= m.
Proof.
  destruct (evaluate_batch (eval_mode Demo.plain) Demo.utils Demo.from_category_args
              Demo.one_batch [] [] (fresh_world false 1234))
    as [[out w']|e] eqn:Hrun; [|vm_compute in Hrun; discriminate Hrun].
  apply (evaluate_batch_needs_question_rows _ _ _ _ _ _ _ _ _ 2 Hrun);
    [reflexivity|lia].
Defined.

End QuestionRowsConcrete.

Section MoreMethodsProperties.
Context `{Runtime}.

(** X18. [encode_questions] is [encode_questions_discriminator] followed
    by [q_to_c], errors and the state included. *)
Theorem encode_questions_is_discriminator_then_q_to_c self qm questions qlengths w :
  encode_questions self qm questions qlengths w
  = (let* encoder_hidden :=
       encode_questions_discriminator self qm questions qlengths in
     call (q_to_c qm) (training self) encoder_hidden) w.
Proof.
  unfold encode_questions, encode_questions_discriminator, bind.
  destruct (call_encoder (question_encoder qm) (training self) questions qlengths w)
    as [[[out eh] w1]|e]; reflexivity.
Qed.

(** X19. When [info_parameters] returns, the model has the category
    space, and the result is the trainable parameters, in order, of the
    attention, the two projections, the image reconstructor if there is
    one, and the category reconstructor, which is never left out; the
    state is untouched. *)
Theorem info_parameters_result parameters self w ps w' :
  info_parameters parameters self w = Ok (ps, w') ->
  exists cm,
    category self = Some cm /\ w' = w
    /\ ps = filter (fun p => requires_grad p = true)
              (parameters (category_attention cm)
               ++ parameters (mu_category_encoder cm)
               ++ parameters (logvar_category_encoder cm)
               ++ match image_reconstructor self with
                  | Some l => parameters l
                  | None => []
                  end
               ++ parameters (category_reconstructor cm)).
Proof.
  unfold info_parameters, category_attr, image_recon, category_space,
    image_reconstructor_attr.
  destruct (category self) as [cm|]; [|discriminate].
  rewrite (bool_decide_eq_true_2 (is_Some (Some cm))) by eauto.
  destruct (image_reconstructor self) as [l|].
  - rewrite bool_decide_eq_true_2 by eauto.
    unfold bind, ret. intros [= <- <-]. exists cm. repeat split.
    rewrite <- !app_assoc. reflexivity.
  - rewrite bool_decide_eq_false_2 by (intros [? ?]; discriminate).
    unfold bind, ret. intros [= <- <-]. exists cm. repeat split.
    rewrite <- !app_assoc. reflexivity.
Qed.

End MoreMethodsProperties.

Section InfoConcrete.
#[local] Existing Instance Demo.runtime.

Lemma info_parameters_result_witness :
  exists ps,
    info_parameters (fun l => [Tensor [1] [one] (trainable l)]) Demo.plain
      (fresh_world false 1234) = Ok (ps, fresh_world false 1234)
    /\ length ps = 5.
Proof.
  destruct (info_parameters (fun l => [Tensor [1] [one] (trainable l)]) Demo.plain
              (fresh_world false 1234)) as [[ps w']|e] eqn:Hrun;
    [|vm_compute in Hrun; discriminate Hrun].
  destruct (info_parameters_result _ _ _ _ _ Hrun) as (cm & Hcm & -> & ->).
  eexists. split; [reflexivity|].
  injection Hcm as <-. reflexivity.
Defined.

End InfoConcrete.
